(** * posthog-llm: the tracing data model of [src/posthog-llm.ts]

    A shallow embedding of the four unit classes ([Trace], [Span],
    [Generation], [Embedding]) and of the static [PostHogLLM] holder, with the
    JavaScript runtime made explicit:

    - the process state ([World.t]) carries the static fields of
      [PostHogLLM], whether the global [window] is undefined, the two
      environment variables read by [init], the store of property-map
      objects and the log of [client.capture] calls;
    - [Date.now()] and [uuidv4()] are inputs of the operation that calls
      them (arguments [now] and [uuid]);
    - [JSON.stringify] is a parameter ([json_text]) of the development:
      every result holds for every serializer; the values are finite
      trees, on which [JSON.stringify] returns;
    - a [throw] is the [Throw] result; a method that changes its object
      and then throws leaves the changed object behind;
    - of the [posthog-node] library only two facts are used: the
      constructor of the client throws when it is given the empty string
      as API key, and [capture] records the message it is given. *)

From Stdlib Require Import ZArith QArith.
From stdpp Require Import gmap strings list fin_maps pretty.

#[local] Set Warnings "-register-all".
Local Open Scope string_scope.
Local Open Scope Z_scope.
Local Open Scope list_scope.

(** ** JavaScript values *)

(** The values of type [any] that reach the library.  Numbers are rationals:
    the rounding of IEEE doubles is not modelled. *)
Inductive value :=
| VUndefined
| VNull
| VBool (b : bool)
| VNum (n : Q)
| VStr (s : string)
| VArr (items : list value)
| VObj (fields : list (string * value)).

(** [Record<string, any>]: the own enumerable fields of an object, in the
    order in which JavaScript lists them. *)
Definition obj := list (string * value).

(** [if (s)] on a string. *)
Definition truthy_str (s : string) : bool := negb (String.eqb s "").

(** [if (v)] on a value of type [any]. *)
Definition truthy (v : value) : bool :=
  match v with
  | VUndefined | VNull => false
  | VBool b => b
  | VNum n => negb (Qnum n =? 0)
  | VStr s => truthy_str s
  | VArr _ | VObj _ => true
  end.

(** [Array.isArray(v)]. *)
Definition isArray (v : value) : bool :=
  match v with VArr _ => true | _ => false end.

(** [a || b] where [a] is an optional string. *)
Definition str_or (a : option string) (b : string) : string :=
  match a with
  | Some s => if truthy_str s then s else b
  | None => b
  end.

(** The string tested by [if (a)] when the test succeeds. *)
Definition if_str (a : option string) : option string :=
  match a with
  | Some s => if truthy_str s then Some s else None
  | None => None
  end.

(** [if (o) x = o] for an optional string [o]: the new value of [x]. *)
Definition assign_if_str (o : option string) (x : string) : string := str_or o x.

(** [if (o) x = o] for an optional object or reference [o] (always truthy
    when present); also [if (o !== undefined) x = o] into an optional field. *)
Definition assign_if {A} (o : option A) (x : option A) : option A :=
  match o with Some a => Some a | None => x end.

(** [if (o !== undefined) x = o]. *)
Definition assign_defined {A} (o : option A) (x : A) : A :=
  match o with Some a => a | None => x end.

(** The array index that a property name denotes, when it is one: a
    decimal numeral without leading zero, below 2^32 - 1. *)
Definition digit_of (c : Ascii.ascii) : option N :=
  let n := Ascii.N_of_ascii c in
  if ((48 <=? n) && (n <=? 57))%N then Some (n - 48)%N else None.

Fixpoint digits_of (s : string) (acc : N) : option N :=
  match s with
  | EmptyString => Some acc
  | String c rest =>
      match digit_of c with
      | Some d => digits_of rest (10 * acc + d)%N
      | None => None
      end
  end.

Definition array_index (k : string) : option N :=
  match k with
  | EmptyString => None
  | String c rest =>
      if Ascii.eqb c (Ascii.ascii_of_nat 48) && negb (String.eqb rest "") then None
      else
        match digits_of k 0 with
        | Some n => if (n <? 4294967295)%N then Some n else None
        | None => None
        end
  end.

(** Whether a new property [k] is listed before a property [k'] that the
    object holds: array indices come first, in ascending order, and the
    other names follow in the order of their creation. *)
Definition goes_before (k k' : string) : bool :=
  match array_index k, array_index k' with
  | Some n, Some n' => (n <? n')%N
  | Some _, None => true
  | None, _ => false
  end.

(** [o.k = v] when [o] has the property [k]: the property keeps its place. *)
Fixpoint obj_replace (k : string) (v : value) (o : obj) : obj :=
  match o with
  | [] => []
  | (k', v') :: rest =>
      if String.eqb k k' then (k, v) :: rest else (k', v') :: obj_replace k v rest
  end.

(** [o.k = v] when [o] has no property [k]: the property is created. *)
Fixpoint obj_add (k : string) (v : value) (o : obj) : obj :=
  match o with
  | [] => [(k, v)]
  | (k', v') :: rest =>
      if goes_before k k' then (k, v) :: (k', v') :: rest
      else (k', v') :: obj_add k v rest
  end.

(** [o.k = v] on an object kept as an association list. *)
Definition obj_set (k : string) (v : value) (o : obj) : obj :=
  if existsb (String.eqb k) o.*1 then obj_replace k v o else obj_add k v o.

(** [{ ...a, ...b }] on objects with [any] values. *)
Definition obj_spread (a b : option obj) : obj :=
  fold_left (fun acc kv => obj_set kv.1 kv.2 acc) (default [] b) (default [] a).

(** [Error | string].  An object is kept by its enumerable fields (an
    [Error] instance has none of its own). *)
Inductive JsError :=
| ErrorObject (o : obj)
| ErrorString (s : string).

(** [if (e)] on a present error value. *)
Definition JsError_truthy (e : JsError) : bool :=
  match e with
  | ErrorObject _ => true
  | ErrorString s => truthy_str s
  end.

(** [if (options.error) this.error = options.error]. *)
Definition assign_if_error (o : option JsError) (x : option JsError) : option JsError :=
  match o with
  | Some e => if JsError_truthy e then Some e else x
  | None => x
  end.

(** [if (v) x = v] for [v : any]; an absent field reads as [undefined]. *)
Definition assign_if_value (v : value) (x : value) : value :=
  if truthy v then v else x.

(** [a || false] on an optional boolean. *)
Definition bool_or_false (a : option bool) : bool := default false a.

(** ** The store of property maps

    A [Record<string, string>] is an object that several units can hold at
    the same time; units keep a reference into the store. *)

(** A reference is the position of the object in the store. *)
Abbreviation loc := nat (only parsing).

Definition deref (h : list (gmap string string)) (r : option loc) : gmap string string :=
  match r with
  | Some l => default ∅ (h !! l)
  | None => ∅
  end.

(** [{ ...a, ...b }] on two optional property maps: the content of the new
    object (the keys of [b] win). *)
Definition spread (h : list (gmap string string)) (a b : option loc) : gmap string string :=
  deref h b ∪ deref h a.

(** ** Interfaces *)

(** An own property of an options object that is spread into another one:
    absent, or present with a value, which can be [undefined]. *)
Inductive prop (A : Type) :=
| Absent
| Present (v : option A).
Arguments Absent {A}.
Arguments Present {A} v.

(** [o.k]: an absent property reads as [undefined]. *)
Definition prop_get {A} (p : prop A) : option A :=
  match p with
  | Absent => None
  | Present v => v
  end.

(** The property [k] of [{ ...a, ...b }]: the one of [b] when [b] has it,
    also when its value is [undefined]. *)
Definition prop_spread {A} (a b : prop A) : prop A :=
  match b with
  | Absent => a
  | Present v => Present v
  end.

Module PostHogLLMOptions.
Record t := mk {
  apiKey : prop string;
  host : prop string;
  defaultPrivacyMode : prop bool;
  defaultDistinctId : prop string }.
End PostHogLLMOptions.

Module TraceOptions.
Record t := mk {
  id : option string;
  name : string;
  inputState : option obj;
  outputState : option obj;
  privacy : option bool;
  userEmail : option string;
  distinctId : option string;
  metadata : option obj;
  properties : option loc;
  isError : option bool;
  error : option JsError }.
End TraceOptions.

(** [Partial<TraceOptions>]. *)
Module PartialTraceOptions.
Record t := mk {
  id : option string;
  name : option string;
  inputState : option obj;
  outputState : option obj;
  privacy : option bool;
  userEmail : option string;
  distinctId : option string;
  metadata : option obj;
  properties : option loc;
  isError : option bool;
  error : option JsError }.
End PartialTraceOptions.

(** [Partial<TraceEndOptions>] and [Partial<SpanEndOptions>] (the same
    fields).  [other] holds the own properties of the argument that the
    interface does not name: the structural typing of TypeScript admits
    them, and no method reads them. *)
Module StateEndOptions.
Record t := mk {
  outputState : option obj;
  error : option JsError;
  isError : option bool;
  other : obj }.
End StateEndOptions.

Module SpanOptions.
Record t := mk {
  id : option string;
  name : string;
  inputState : option obj;
  outputState : option obj;
  metadata : option obj;
  properties : option loc;
  error : option JsError;
  isError : option bool;
  distinctId : option string }.
End SpanOptions.

(** [Partial<SpanOptions>]. *)
Module PartialSpanOptions.
Record t := mk {
  id : option string;
  name : option string;
  inputState : option obj;
  outputState : option obj;
  metadata : option obj;
  properties : option loc;
  error : option JsError;
  isError : option bool;
  distinctId : option string }.
End PartialSpanOptions.

Module GenerationOptions.
Record t := mk {
  name : string;
  model : string;
  provider : string;
  input : value;
  output : value;
  inputTokens : option Q;
  outputTokens : option Q;
  latency : option Q;
  httpStatus : option Q;
  baseUrl : option string;
  metadata : option obj;
  properties : option loc;
  error : option JsError;
  isError : option bool;
  distinctId : option string }.
End GenerationOptions.

(** [Partial<GenerationOptions>]; an absent [input] or [output] reads as
    [VUndefined]. *)
Module PartialGenerationOptions.
Record t := mk {
  name : option string;
  model : option string;
  provider : option string;
  input : value;
  output : value;
  inputTokens : option Q;
  outputTokens : option Q;
  latency : option Q;
  httpStatus : option Q;
  baseUrl : option string;
  metadata : option obj;
  properties : option loc;
  error : option JsError;
  isError : option bool;
  distinctId : option string }.
End PartialGenerationOptions.

(** [Partial<GenerationEndOptions>]. *)
Module GenerationEndOptions.
Record t := mk {
  output : value;
  inputTokens : option Q;
  outputTokens : option Q;
  latency : option Q;
  httpStatus : option Q;
  error : option JsError;
  isError : option bool }.
End GenerationEndOptions.

(** [string | string[]]. *)
Inductive EmbeddingInput :=
| InputText (s : string)
| InputTexts (l : list string).

Module EmbeddingOptions.
Record t := mk {
  name : string;
  model : string;
  provider : string;
  input : EmbeddingInput;
  inputTokens : option Q;
  latency : option Q;
  httpStatus : option Q;
  baseUrl : option string;
  metadata : option obj;
  properties : option loc;
  error : option JsError;
  isError : option bool;
  distinctId : option string }.
End EmbeddingOptions.

(** [Partial<EmbeddingEndOptions>]. *)
Module EmbeddingEndOptions.
Record t := mk {
  inputTokens : option Q;
  latency : option Q;
  httpStatus : option Q;
  error : option JsError;
  isError : option bool }.
End EmbeddingEndOptions.

(** ** The classes *)

Module Trace.
Record t := mk {
  id : string;
  name : string;
  startTime : Z;
  inputState : option obj;
  outputState : option obj;
  privacy : bool;
  distinctId : string;
  metadata : option obj;
  properties : option loc;
  isError : bool;
  error : option JsError }.
End Trace.

Module Span.
Record t := mk {
  id : string;
  distinctId : string;
  traceId : string;
  parentId : option string;
  name : string;
  startTime : Z;
  inputState : option obj;
  outputState : option obj;
  metadata : option obj;
  properties : option loc;
  isError : bool;
  error : option JsError }.
End Span.

Module Generation.
Record t := mk {
  traceId : string;
  name : string;
  distinctId : string;
  startTime : Z;
  model : string;
  provider : string;
  input : value;
  output : value;
  inputTokens : option Q;
  outputTokens : option Q;
  latency : option Q;
  httpStatus : option Q;
  baseUrl : option string;
  metadata : option obj;
  properties : option loc;
  isError : bool;
  error : option JsError }.
End Generation.

Module Embedding.
Record t := mk {
  traceId : string;
  name : string;
  distinctId : string;
  startTime : Z;
  model : string;
  provider : string;
  input : EmbeddingInput;
  inputTokens : option Q;
  latency : option Q;
  httpStatus : option Q;
  baseUrl : option string;
  metadata : option obj;
  properties : option loc;
  isError : bool;
  error : option JsError }.
End Embedding.

(** ** The process *)

(** The argument of [client.capture]. *)
Module CaptureMessage.
Record t := mk {
  distinctId : string;
  event : string;
  properties : gmap string value }.
End CaptureMessage.

(** What [new posthog.PostHog(apiKey, { host, flushAt: 1 })] was given. *)
Module PostHog.
Record t := mk {
  apiKey : string;
  host : string;
  flushAt : Z }.
End PostHog.

Module World.
Record t := mk {
  (** [typeof window === "undefined"] *)
  window_undefined : bool;
  (** [process.env.NEXT_PUBLIC_POSTHOG_KEY] *)
  env_KEY : option string;
  (** [process.env.NEXT_PUBLIC_POSTHOG_HOST] *)
  env_HOST : option string;
  (** [PostHogLLM.client] *)
  client : option PostHog.t;
  (** [PostHogLLM.options] *)
  options : PostHogLLMOptions.t;
  (** the property-map objects allocated so far *)
  heap : list (gmap string string);
  (** the [capture] calls made so far, oldest first *)
  captured : list CaptureMessage.t }.
End World.

(** The state of a process that has just loaded the module: the static
    options are [{ defaultPrivacyMode: false, defaultDistinctId: undefined }]. *)
Definition World_initial (window_undefined : bool) (env_KEY env_HOST : option string) : World.t :=
  World.mk window_undefined env_KEY env_HOST None
    (PostHogLLMOptions.mk Absent Absent (Present (Some false)) (Present None)) [] [].

Inductive result (A : Type) :=
| Ok (a : A)
| Throw (message : string).
Arguments Ok {A} a.
Arguments Throw {A} message.

(** A fresh object with content [m]: its reference and the new state. *)
Definition World_alloc (m : gmap string string) (w : World.t) : loc * World.t :=
  (length (World.heap w),
   World.mk (World.window_undefined w) (World.env_KEY w) (World.env_HOST w)
     (World.client w) (World.options w) (World.heap w ++ [m]) (World.captured w)).

(** [client.capture(msg)]. *)
Definition World_capture (msg : CaptureMessage.t) (w : World.t) : World.t :=
  World.mk (World.window_undefined w) (World.env_KEY w) (World.env_HOST w)
    (World.client w) (World.options w) (World.heap w) (World.captured w ++ [msg]).

(** [m[k] = v] on the object at the reference [l]. *)
Definition World_write (l : loc) (k v : string) (w : World.t) : World.t :=
  World.mk (World.window_undefined w) (World.env_KEY w) (World.env_HOST w)
    (World.client w) (World.options w) (alter (insert k v) l (World.heap w))
    (World.captured w).

(** The references of the objects allocated between [w] and [w']. *)
Definition allocated (w w' : World.t) : list loc :=
  seq (length (World.heap w)) (length (World.heap w') - length (World.heap w)).

(** ** PostHogLLM *)

(** [{ ...this.options, ...options }] on the static options; spreading
    [undefined] adds nothing. *)
Definition options_spread (a : PostHogLLMOptions.t) (b : option PostHogLLMOptions.t) : PostHogLLMOptions.t :=
  match b with
  | None => a
  | Some b =>
      PostHogLLMOptions.mk
        (prop_spread (PostHogLLMOptions.apiKey a) (PostHogLLMOptions.apiKey b))
        (prop_spread (PostHogLLMOptions.host a) (PostHogLLMOptions.host b))
        (prop_spread (PostHogLLMOptions.defaultPrivacyMode a)
           (PostHogLLMOptions.defaultPrivacyMode b))
        (prop_spread (PostHogLLMOptions.defaultDistinctId a)
           (PostHogLLMOptions.defaultDistinctId b))
  end.

Definition getDefaultDistinctId (w : World.t) : option string :=
  prop_get (PostHogLLMOptions.defaultDistinctId (World.options w)).

(** [new posthog.PostHog(apiKey, { host, flushAt })]: the constructor of
    the library refuses the empty key. *)
Definition PostHog_new (apiKey host : string) (flushAt : Z) : result PostHog.t :=
  if truthy_str apiKey then Ok (PostHog.mk apiKey host flushAt)
  else Throw "You must pass your PostHog project's api key.".

(** [this.options = ...] and [this.client = ...]. *)
Definition World_set_options (options : PostHogLLMOptions.t) (w : World.t) : World.t :=
  World.mk (World.window_undefined w) (World.env_KEY w) (World.env_HOST w)
    (World.client w) options (World.heap w) (World.captured w).
Definition World_set_client (client : PostHog.t) (w : World.t) : World.t :=
  World.mk (World.window_undefined w) (World.env_KEY w) (World.env_HOST w)
    (Some client) (World.options w) (World.heap w) (World.captured w).

(** [PostHogLLM.init(options)]: the options are stored before the client
    is made, so they stay stored when the constructor throws. *)
Definition init (options : option PostHogLLMOptions.t) (w : World.t)
    : result unit * World.t :=
  let w := World_set_options (options_spread (World.options w) options) w in
  if World.window_undefined w then
    let apiKey :=
      str_or (options ≫= λ o, prop_get (PostHogLLMOptions.apiKey o))
        (str_or (World.env_KEY w) "") in
    let host :=
      str_or (options ≫= λ o, prop_get (PostHogLLMOptions.host o))
        (str_or (World.env_HOST w) "https://us.i.posthog.com") in
    match PostHog_new apiKey host 1 with
    | Ok client => (Ok tt, World_set_client client w)
    | Throw message => (Throw message, w)
    end
  else (Ok tt, w).

(** [PostHogLLM.getClient()]. *)
Definition getClient (w : World.t) : result (option PostHog.t) * World.t :=
  match World.client w with
  | None =>
      if World.window_undefined w then
        match init None w with
        | (Ok _, w') => (Ok (World.client w'), w')
        | (Throw message, w') => (Throw message, w')
        end
      else (Ok None, w)
  | Some client => (Ok (Some client), w)
  end.

(** ** Event assembly *)

(** An object literal [{ k1: v1, ..., kn: vn }]. *)
Definition literal (fields : list (string * value)) : gmap string value :=
  fold_left (λ m kv, <[kv.1 := kv.2]> m) fields ∅.

(** [{ ...literal, ...this.properties }]: the custom properties are spread
    over the fields already written. *)
Definition spread_custom (custom : gmap string string) (m : gmap string value) : gmap string value :=
  (VStr <$> custom) ∪ m.

(** [if (c) properties.k = v], with the condition and the value as an
    option. *)
Definition set_opt (k : string) (o : option value) (m : gmap string value) : gmap string value :=
  match o with
  | Some v => <[k := v]> m
  | None => m
  end.

(** A sequence of conditional assignments [if (c) properties.k = v], in
    program order. *)
Fixpoint assign_all (assignments : list (string * option value)) (m : gmap string value)
    : gmap string value :=
  match assignments with
  | [] => m
  | (k, o) :: rest => assign_all rest (set_opt k o m)
  end.

(** [(endTime - startTime) / 1000]. *)
Definition seconds (startTime endTime : Z) : Q := Qmake (endTime - startTime) 1000.

(** [options?.latency !== undefined ? options.latency : (endTime - startTime) / 1000]. *)
Definition latency_of (override : option Q) (startTime endTime : Z) : Q :=
  match override with
  | Some l => l
  | None => seconds startTime endTime
  end.

(** [if (o) x = o] for an optional string into an optional field. *)
Definition assign_if_ostr (o : option string) (x : option string) : option string :=
  match if_str o with
  | Some s => Some s
  | None => x
  end.

(** A numeric field read into the event: [undefined] when it was never
    assigned. *)
Definition num_value (n : option Q) : value :=
  match n with
  | Some q => VNum q
  | None => VUndefined
  end.

(** The messages captured between the states [w] and [w']. *)
Definition emitted (w w' : World.t) : list CaptureMessage.t :=
  drop (length (World.captured w)) (World.captured w').

(** Whether [getClient] returns a client in the state [w]: there is one, or
    the process has no [window] and its environment gives an API key. *)
Definition has_client (w : World.t) : bool :=
  match World.client w with
  | Some _ => true
  | None => World.window_undefined w && truthy_str (str_or (World.env_KEY w) "")
  end.

(** Whether [getClient] throws in the state [w]: it has to make a client
    and has no API key for it. *)
Definition no_key (w : World.t) : bool :=
  match World.client w with
  | Some _ => false
  | None => World.window_undefined w && negb (truthy_str (str_or (World.env_KEY w) ""))
  end.

(** The content of an optional property map in a process state. *)
Definition props_in (w : World.t) (r : option loc) : gmap string string :=
  deref (World.heap w) r.

(** The assignment a key receives from a sequence of conditional
    assignments: the last one whose condition holds. *)
Fixpoint assigned (k : string) (assignments : list (string * option value)) : option value :=
  match assignments with
  | [] => None
  | (k', o) :: rest =>
      match assigned k rest with
      | Some v => Some v
      | None => if String.eqb k' k then o else None
      end
  end.

(** The value an object literal gives a key. *)
Fixpoint written (k : string) (fields : list (string * value)) : option value :=
  match fields with
  | [] => None
  | (k', v) :: rest =>
      match written k rest with
      | Some v' => Some v'
      | None => if String.eqb k' k then Some v else None
      end
  end.

(** The keys of a list of fields or assignments. *)
Definition keys {A} (l : list (string * A)) : list string := l.*1.

(** ** Sessions

    One root trace with the units created from it, and the calls a caller
    can make on them.  Units are named by their position in the list of
    their class.  [hidden] lists the property maps that the library built
    and keeps in private fields: the caller has no reference to them. *)

Module Session.
Record t := mk {
  root : Trace.t;
  spans : list Span.t;
  generations : list Generation.t;
  embeddings : list Embedding.t;
  hidden : list loc;
  world : World.t }.
End Session.

Inductive call :=
(** the caller builds a property map [{ k: v, ... }] to pass as [properties] *)
| NewProperties (m : gmap string string)
(** the caller writes [m[k] = v] on a property map it holds *)
| SetProperty (l : loc) (k v : string)
| TraceUpdate (options : PartialTraceOptions.t)
| TraceEnd (now : Z) (options : option StateEndOptions.t)
| TraceSpan (now : Z) (uuid : string) (options : SpanOptions.t)
| TraceGeneration (now : Z) (options : GenerationOptions.t)
| TraceEmbedding (now : Z) (options : EmbeddingOptions.t)
| SpanUpdate (i : nat) (options : PartialSpanOptions.t)
| SpanEnd (i : nat) (now : Z) (options : option StateEndOptions.t)
| SpanSpan (i : nat) (now : Z) (uuid : string) (options : SpanOptions.t)
| GenerationUpdate (i : nat) (options : PartialGenerationOptions.t)
| GenerationEnd (i : nat) (now : Z) (options : option GenerationEndOptions.t)
| EmbeddingEnd (i : nat) (now : Z) (options : option EmbeddingEndOptions.t).

(** A session that starts with the trace [t] in the process state [w]. *)
Definition session_of (t : Trace.t) (w : World.t) : Session.t :=
  Session.mk t [] [] [] [] w.

(** ** Sample inputs

    A serializer and a few units, to run the model and to instantiate the
    results, which hold for every serializer. *)

Definition quote : string := String (Ascii.ascii_of_nat 34) EmptyString.

(** A compact printer in the manner of [JSON.stringify]; a number is
    printed as the fraction that represents it and strings are not
    escaped. *)
Fixpoint sample_json_text (v : value) : string :=
  match v with
  | VUndefined => "undefined"
  | VNull => "null"
  | VBool b => if b then "true" else "false"
  | VNum n => pretty (Qnum n) +:+ "/" +:+ pretty (Zpos (Qden n))
  | VStr s => quote +:+ s +:+ quote
  | VArr items => "[" +:+ String.concat "," (map sample_json_text items) +:+ "]"
  | VObj fields =>
      "{" +:+ String.concat ","
                (map (λ kv, match kv with
                            | (k, x) => quote +:+ k +:+ quote +:+ ":" +:+ sample_json_text x
                            end) fields) +:+ "}"
  end.

(** A process without [window] (Node) and without API key in its
    environment, one whose environment gives a key, and a process with
    [window] (a browser page). *)
Definition node_process : World.t := World_initial true None None.
Definition server_process : World.t := World_initial true (Some "phc_test") None.
Definition browser_page : World.t := World_initial false None None.

(** The process [w] after the caller has built the property maps [maps]:
    on a fresh process they are at the references 0, 1, ... *)
Definition holding (maps : list (gmap string string)) (w : World.t) : World.t :=
  fold_left (λ w m, (World_alloc m w).2) maps w.

Definition sample_TraceOptions (privacy : option bool) (properties : option loc)
    (isError : option bool) (error : option JsError) : TraceOptions.t :=
  {| TraceOptions.id := None;
     TraceOptions.name := "answer-question";
     TraceOptions.inputState := Some [("q", VStr "hi")];
     TraceOptions.outputState := None;
     TraceOptions.privacy := privacy;
     TraceOptions.userEmail := None;
     TraceOptions.distinctId := Some "user-123";
     TraceOptions.metadata := None;
     TraceOptions.properties := properties;
     TraceOptions.isError := isError;
     TraceOptions.error := error |}.

(** The trace [PostHogLLM.trace] makes from [sample_TraceOptions] at time
    1000 when [uuidv4()] returns ["trace-1"]. *)
Definition sample_Trace (privacy : bool) (properties : option loc)
    (isError : bool) (error : option JsError) : Trace.t :=
  {| Trace.id := "trace-1";
     Trace.name := "answer-question";
     Trace.startTime := 1000;
     Trace.inputState := Some [("q", VStr "hi")];
     Trace.outputState := None;
     Trace.privacy := privacy;
     Trace.distinctId := "user-123";
     Trace.metadata := None;
     Trace.properties := properties;
     Trace.isError := isError;
     Trace.error := error |}.

Definition sample_SpanOptions (properties : option loc) (distinctId : option string)
    : SpanOptions.t :=
  {| SpanOptions.id := None;
     SpanOptions.name := "preprocess";
     SpanOptions.inputState := Some [("raw", VStr "hi")];
     SpanOptions.outputState := None;
     SpanOptions.metadata := None;
     SpanOptions.properties := properties;
     SpanOptions.error := None;
     SpanOptions.isError := None;
     SpanOptions.distinctId := distinctId |}.

Definition sample_Span (id : string) (parentId : option string) (properties : option loc)
    : Span.t :=
  {| Span.id := id;
     Span.distinctId := "user-123";
     Span.traceId := "trace-1";
     Span.parentId := parentId;
     Span.name := "preprocess";
     Span.startTime := 1001;
     Span.inputState := Some [("raw", VStr "hi")];
     Span.outputState := None;
     Span.metadata := None;
     Span.properties := properties;
     Span.isError := false;
     Span.error := None |}.

Definition sample_GenerationOptions (output : value) (distinctId : option string)
    : GenerationOptions.t :=
  {| GenerationOptions.name := "llm-call";
     GenerationOptions.model := "gpt-4";
     GenerationOptions.provider := "openai";
     GenerationOptions.input := VStr "prompt";
     GenerationOptions.output := output;
     GenerationOptions.inputTokens := None;
     GenerationOptions.outputTokens := None;
     GenerationOptions.latency := None;
     GenerationOptions.httpStatus := None;
     GenerationOptions.baseUrl := None;
     GenerationOptions.metadata := None;
     GenerationOptions.properties := None;
     GenerationOptions.error := None;
     GenerationOptions.isError := None;
     GenerationOptions.distinctId := distinctId |}.

Definition sample_Generation (output : value) (properties : option loc) : Generation.t :=
  {| Generation.traceId := "trace-1";
     Generation.name := "llm-call";
     Generation.distinctId := "user-123";
     Generation.startTime := 1002;
     Generation.model := "gpt-4";
     Generation.provider := "openai";
     Generation.input := VStr "prompt";
     Generation.output := output;
     Generation.inputTokens := None;
     Generation.outputTokens := None;
     Generation.latency := None;
     Generation.httpStatus := None;
     Generation.baseUrl := None;
     Generation.metadata := None;
     Generation.properties := properties;
     Generation.isError := false;
     Generation.error := None |}.


(** An update of a trace that only gives properties. *)
Definition properties_only (properties : loc) : PartialTraceOptions.t :=
  {| PartialTraceOptions.id := None;
     PartialTraceOptions.name := None;
     PartialTraceOptions.inputState := None;
     PartialTraceOptions.outputState := None;
     PartialTraceOptions.privacy := None;
     PartialTraceOptions.userEmail := None;
     PartialTraceOptions.distinctId := None;
     PartialTraceOptions.metadata := None;
     PartialTraceOptions.properties := Some properties;
     PartialTraceOptions.isError := None;
     PartialTraceOptions.error := None |}.

(** An update of a trace that tries to give another subject identifier. *)
Definition distinctId_only (distinctId : string) : PartialTraceOptions.t :=
  {| PartialTraceOptions.id := None;
     PartialTraceOptions.name := None;
     PartialTraceOptions.inputState := None;
     PartialTraceOptions.outputState := None;
     PartialTraceOptions.privacy := None;
     PartialTraceOptions.userEmail := Some distinctId;
     PartialTraceOptions.distinctId := Some distinctId;
     PartialTraceOptions.metadata := None;
     PartialTraceOptions.properties := None;
     PartialTraceOptions.isError := None;
     PartialTraceOptions.error := None |}.


(** What the key [k] holds in each message captured between [w] and [w']. *)
Definition fields_emitted (w w' : World.t) (k : string) : list (option value) :=
  (λ m, CaptureMessage.properties m !! k) <$> emitted w w'.

(** Options of [PostHogLLM.init]: a first configuration, and a second one
    that only gives a default distinct id. *)
Definition sample_PostHogLLMOptions : PostHogLLMOptions.t :=
  {| PostHogLLMOptions.apiKey := Present (Some "phc_first");
     PostHogLLMOptions.host := Present (Some "https://eu.i.posthog.com");
     PostHogLLMOptions.defaultPrivacyMode := Present (Some true);
     PostHogLLMOptions.defaultDistinctId := Absent |}.
Definition defaultDistinctId_only (distinctId : string) : PostHogLLMOptions.t :=
  {| PostHogLLMOptions.apiKey := Absent;
     PostHogLLMOptions.host := Absent;
     PostHogLLMOptions.defaultPrivacyMode := Absent;
     PostHogLLMOptions.defaultDistinctId := Present (Some distinctId) |}.

(** An update of a trace that gives a privacy flag, an input state and an
    output state. *)
Definition privacy_and_states (privacy : bool) : PartialTraceOptions.t :=
  {| PartialTraceOptions.id := None;
     PartialTraceOptions.name := None;
     PartialTraceOptions.inputState := Some [("q", VStr "secret")];
     PartialTraceOptions.outputState := Some [("a", VStr "draft")];
     PartialTraceOptions.privacy := Some privacy;
     PartialTraceOptions.userEmail := None;
     PartialTraceOptions.distinctId := None;
     PartialTraceOptions.metadata := None;
     PartialTraceOptions.properties := None;
     PartialTraceOptions.isError := None;
     PartialTraceOptions.error := None |}.

(** An update of a trace that only gives metadata. *)
Definition metadata_only (metadata : obj) : PartialTraceOptions.t :=
  {| PartialTraceOptions.id := None;
     PartialTraceOptions.name := None;
     PartialTraceOptions.inputState := None;
     PartialTraceOptions.outputState := None;
     PartialTraceOptions.privacy := None;
     PartialTraceOptions.userEmail := None;
     PartialTraceOptions.distinctId := None;
     PartialTraceOptions.metadata := Some metadata;
     PartialTraceOptions.properties := None;
     PartialTraceOptions.isError := None;
     PartialTraceOptions.error := None |}.

(** An update of a span that tries to give another id, other properties
    and another distinct id, with an empty name and an empty error. *)
Definition span_stray_update (properties : loc) : PartialSpanOptions.t :=
  {| PartialSpanOptions.id := Some "other-id";
     PartialSpanOptions.name := Some "";
     PartialSpanOptions.inputState := None;
     PartialSpanOptions.outputState := None;
     PartialSpanOptions.metadata := None;
     PartialSpanOptions.properties := Some properties;
     PartialSpanOptions.error := Some (ErrorString "");
     PartialSpanOptions.isError := None;
     PartialSpanOptions.distinctId := Some "someone-else" |}.

(** Creation options of a generation with token counts, a latency and a
    base URL. *)
Definition counted_GenerationOptions (baseUrl : option string) : GenerationOptions.t :=
  {| GenerationOptions.name := "llm-call";
     GenerationOptions.model := "gpt-4";
     GenerationOptions.provider := "openai";
     GenerationOptions.input := VStr "prompt";
     GenerationOptions.output := VUndefined;
     GenerationOptions.inputTokens := Some 0%Q;
     GenerationOptions.outputTokens := Some (7 # 1);
     GenerationOptions.latency := Some (9 # 1);
     GenerationOptions.httpStatus := None;
     GenerationOptions.baseUrl := baseUrl;
     GenerationOptions.metadata := None;
     GenerationOptions.properties := None;
     GenerationOptions.error := None;
     GenerationOptions.isError := None;
     GenerationOptions.distinctId := None |}.

(** End options of a generation that give token counts and a status. *)
Definition counted_end : GenerationEndOptions.t :=
  {| GenerationEndOptions.output := VUndefined;
     GenerationEndOptions.inputTokens := Some (50 # 1);
     GenerationEndOptions.outputTokens := Some (20 # 1);
     GenerationEndOptions.latency := None;
     GenerationEndOptions.httpStatus := Some (200 # 1);
     GenerationEndOptions.error := None;
     GenerationEndOptions.isError := None |}.

(** End options of a trace or a span that give an error and, or not, the
    flag. *)
Definition error_end (error : JsError) (isError : option bool) : StateEndOptions.t :=
  {| StateEndOptions.outputState := None;
     StateEndOptions.error := Some error;
     StateEndOptions.isError := isError;
     StateEndOptions.other := [] |}.

(** Creation options of a trace with the id [id]. *)
Definition identified_TraceOptions (id : option string) : TraceOptions.t :=
  {| TraceOptions.id := id;
     TraceOptions.name := "answer-question";
     TraceOptions.inputState := None;
     TraceOptions.outputState := None;
     TraceOptions.privacy := None;
     TraceOptions.userEmail := Some "user@example.com";
     TraceOptions.distinctId := None;
     TraceOptions.metadata := None;
     TraceOptions.properties := None;
     TraceOptions.isError := None;
     TraceOptions.error := None |}.

Definition sample_EmbeddingOptions : EmbeddingOptions.t :=
  {| EmbeddingOptions.name := "embed";
     EmbeddingOptions.model := "text-embedding-3-small";
     EmbeddingOptions.provider := "openai";
     EmbeddingOptions.input := InputTexts ["one"; "two"];
     EmbeddingOptions.inputTokens := None;
     EmbeddingOptions.latency := Some (9 # 1);
     EmbeddingOptions.httpStatus := None;
     EmbeddingOptions.baseUrl := None;
     EmbeddingOptions.metadata := None;
     EmbeddingOptions.properties := None;
     EmbeddingOptions.error := None;
     EmbeddingOptions.isError := None;
     EmbeddingOptions.distinctId := None |}.

(** The calls of a short session: two spans, one below the other, a
    generation, an update, and closing calls, one of them on a span that
    was never made. *)
Definition sample_calls : list call :=
  [ TraceSpan 1001 "span-1" (sample_SpanOptions None (Some "someone-else"));
    SpanSpan 0 1002 "span-2" (sample_SpanOptions None None);
    TraceGeneration 1002 (sample_GenerationOptions VUndefined None);
    TraceUpdate (distinctId_only "someone-else");
    SpanEnd 1 1003 None;
    SpanEnd 5 1003 None;
    GenerationEnd 0 1004 None;
    TraceEnd 1005 None ].

Section Client.

(** The text [JSON.stringify] returns on a value other than [undefined]. *)
Variable json_text : value → string.

(** [JSON.stringify(v)] for [v : any]. *)
Definition JSON_stringify (v : value) : value :=
  match v with
  | VUndefined => VUndefined
  | _ => VStr (json_text v)
  end.

(** [typeof e === "object" ? JSON.stringify(e) : e.toString()]. *)
Definition error_text (e : JsError) : string :=
  match e with
  | ErrorObject o => json_text (VObj o)
  | ErrorString s => s
  end.

(** The value written by
    [if (this.isError && this.error) properties.$ai_error = ...]. *)
Definition error_field (isError : bool) (error : option JsError) : option value :=
  match error with
  | Some e => if isError && JsError_truthy e then Some (VStr (error_text e)) else None
  | None => None
  end.

(** The value written by [if (o) properties.k = JSON.stringify(o)] for an
    optional object. *)
Definition state_field (o : option obj) : option value :=
  (λ s, VStr (json_text (VObj s))) <$> o.

(** *** Trace *)

Definition Trace_new (now : Z) (uuid : string) (options : TraceOptions.t) : result Trace.t :=
  let construct distinctId :=
    Trace.mk
      (str_or (TraceOptions.id options) uuid)
      (TraceOptions.name options)
      now
      (TraceOptions.inputState options)
      (TraceOptions.outputState options)
      (default false (TraceOptions.privacy options))
      distinctId
      (TraceOptions.metadata options)
      (TraceOptions.properties options)
      (bool_or_false (TraceOptions.isError options))
      (TraceOptions.error options) in
  match if_str (TraceOptions.userEmail options) with
  | Some userEmail => Ok (construct userEmail)
  | None =>
      match if_str (TraceOptions.distinctId options) with
      | Some distinctId => Ok (construct distinctId)
      | None => Throw "A user email (userEmail) is required for PostHog tracing"
      end
  end.

(** [PostHogLLM.trace]. *)
Definition PostHogLLM_trace (now : Z) (uuid : string) (options : TraceOptions.t)
    (w : World.t) : result Trace.t :=
  let privacy :=
    match TraceOptions.privacy options with
    | Some p => p
    | None =>
        default false (prop_get (PostHogLLMOptions.defaultPrivacyMode (World.options w)))
    end in
  Trace_new now uuid
    (TraceOptions.mk
       (TraceOptions.id options) (TraceOptions.name options)
       (TraceOptions.inputState options) (TraceOptions.outputState options)
       (Some privacy)
       (TraceOptions.userEmail options) (TraceOptions.distinctId options)
       (TraceOptions.metadata options) (TraceOptions.properties options)
       (TraceOptions.isError options) (TraceOptions.error options)).

Definition Trace_update (options : PartialTraceOptions.t) (t : Trace.t) (w : World.t)
    : Trace.t * World.t :=
  let '(properties, w') :=
    match PartialTraceOptions.properties options with
    | Some p =>
        let '(l, w') :=
          World_alloc (spread (World.heap w) (Trace.properties t) (Some p)) w in
        (Some l, w')
    | None => (Trace.properties t, w)
    end in
  (Trace.mk
     (Trace.id t)
     (assign_if_str (PartialTraceOptions.name options) (Trace.name t))
     (Trace.startTime t)
     (assign_if (PartialTraceOptions.inputState options) (Trace.inputState t))
     (assign_if (PartialTraceOptions.outputState options) (Trace.outputState t))
     (assign_defined (PartialTraceOptions.privacy options) (Trace.privacy t))
     (Trace.distinctId t)
     (match PartialTraceOptions.metadata options with
      | Some m => Some (obj_spread (Trace.metadata t) (Some m))
      | None => Trace.metadata t
      end)
     properties
     (assign_defined (PartialTraceOptions.isError options) (Trace.isError t))
     (assign_if_error (PartialTraceOptions.error options) (Trace.error t)),
   w').

(** The object literal that opens [properties] in [Trace.end], before the
    spread of [this.properties]. *)
Definition Trace_literal (latency : Q) (t : Trace.t) : list (string * value) :=
  [ ("$ai_trace_id", VStr (Trace.id t));
    ("$ai_span_id", VStr (Trace.id t));
    ("$ai_span_name", VStr (Trace.name t));
    ("$ai_latency", VNum latency);
    ("$ai_is_error", VBool (Trace.isError t)) ].

(** The conditional assignments that follow the literal in [Trace.end]. *)
Definition Trace_assignments (t : Trace.t) : list (string * option value) :=
  [ ("$ai_input_state",
      if negb (Trace.privacy t) then state_field (Trace.inputState t) else None);
    ("$ai_output_state",
      if negb (Trace.privacy t) then state_field (Trace.outputState t) else None);
    ("$ai_metadata", state_field (Trace.metadata t));
    ("$ai_error", error_field (Trace.isError t) (Trace.error t)) ].

(** The [properties] object built by [Trace.end]. *)
Definition Trace_properties (custom : gmap string string) (latency : Q) (t : Trace.t)
    : gmap string value :=
  assign_all (Trace_assignments t) (spread_custom custom (literal (Trace_literal latency t))).

(** The argument of [client.capture] in [Trace.end]. *)
Definition Trace_message (h : list (gmap string string)) (latency : Q) (t : Trace.t)
    : CaptureMessage.t :=
  CaptureMessage.mk (Trace.distinctId t) "$ai_trace"
    (Trace_properties (deref h (Trace.properties t)) latency t).

(** The assignments [Trace.end] makes from its options. *)
Definition Trace_apply_end (options : option StateEndOptions.t) (t : Trace.t) : Trace.t :=
  match options with
  | Some o =>
      Trace.mk (Trace.id t) (Trace.name t) (Trace.startTime t) (Trace.inputState t)
        (assign_if (StateEndOptions.outputState o) (Trace.outputState t))
        (Trace.privacy t) (Trace.distinctId t) (Trace.metadata t) (Trace.properties t)
        (assign_defined (StateEndOptions.isError o) (Trace.isError t))
        (assign_if_error (StateEndOptions.error o) (Trace.error t))
  | None => t
  end.

Definition Trace_end (now : Z) (options : option StateEndOptions.t) (t : Trace.t)
    (w : World.t) : Trace.t * World.t * result unit :=
  let latency := seconds (Trace.startTime t) now in
  let t := Trace_apply_end options t in
  match getClient w with
  | (Ok (Some _), w) =>
      (t, World_capture (Trace_message (World.heap w) latency t) w, Ok tt)
  | (Ok None, w) => (t, w, Ok tt)
  | (Throw message, w) => (t, w, Throw message)
  end.


(** [Trace.span]. *)
Definition Trace_span_options (t : Trace.t) (l : loc) (options : SpanOptions.t) : SpanOptions.t :=
  SpanOptions.mk
    (SpanOptions.id options) (SpanOptions.name options)
    (SpanOptions.inputState options) (SpanOptions.outputState options)
    (SpanOptions.metadata options)
    (Some l)
    (SpanOptions.error options) (SpanOptions.isError options)
    (Some (Trace.distinctId t)).

(** *** Span *)

Definition Span_new (now : Z) (uuid : string) (traceId : string) (parentId : option string)
    (options : SpanOptions.t) : result Span.t :=
  match if_str (SpanOptions.distinctId options) with
  | None => Throw "Span must have a distinctId (passed from trace)"
  | Some distinctId =>
      Ok (Span.mk
            (str_or (SpanOptions.id options) uuid)
            distinctId
            traceId
            parentId
            (SpanOptions.name options)
            now
            (SpanOptions.inputState options)
            (SpanOptions.outputState options)
            (SpanOptions.metadata options)
            (SpanOptions.properties options)
            (bool_or_false (SpanOptions.isError options))
            (SpanOptions.error options))
  end.

Definition Trace_span (now : Z) (uuid : string) (options : SpanOptions.t) (t : Trace.t)
    (w : World.t) : result (Span.t * World.t) :=
  let '(l, w') :=
    World_alloc (spread (World.heap w) (Trace.properties t) (SpanOptions.properties options)) w in
  match Span_new now uuid (Trace.id t) None (Trace_span_options t l options) with
  | Ok s => Ok (s, w')
  | Throw m => Throw m
  end.

Definition Span_update (options : PartialSpanOptions.t) (s : Span.t) : Span.t :=
  Span.mk
    (Span.id s) (Span.distinctId s) (Span.traceId s) (Span.parentId s)
    (assign_if_str (PartialSpanOptions.name options) (Span.name s))
    (Span.startTime s)
    (assign_if (PartialSpanOptions.inputState options) (Span.inputState s))
    (assign_if (PartialSpanOptions.outputState options) (Span.outputState s))
    (match PartialSpanOptions.metadata options with
     | Some m => Some (obj_spread (Span.metadata s) (Some m))
     | None => Span.metadata s
     end)
    (Span.properties s)
    (assign_defined (PartialSpanOptions.isError options) (Span.isError s))
    (assign_if_error (PartialSpanOptions.error options) (Span.error s)).

(** The object literal that opens [properties] in [Span.end]. *)
Definition Span_literal (latency : Q) (s : Span.t) : list (string * value) :=
  [ ("$ai_trace_id", VStr (Span.traceId s));
    ("$ai_span_id", VStr (Span.id s));
    ("$ai_span_name", VStr (Span.name s));
    ("$ai_parent_id", VStr (str_or (Span.parentId s) (Span.traceId s)));
    ("$ai_latency", VNum latency);
    ("$ai_is_error", VBool (Span.isError s)) ].

(** The conditional assignments that follow the literal in [Span.end]. *)
Definition Span_assignments (s : Span.t) : list (string * option value) :=
  [ ("$ai_input_state", state_field (Span.inputState s));
    ("$ai_output_state", state_field (Span.outputState s));
    ("$ai_metadata", state_field (Span.metadata s));
    ("$ai_error", error_field (Span.isError s) (Span.error s)) ].

(** The [properties] object built by [Span.end]. *)
Definition Span_properties (custom : gmap string string) (latency : Q) (s : Span.t)
    : gmap string value :=
  assign_all (Span_assignments s) (spread_custom custom (literal (Span_literal latency s))).

(** The argument of [client.capture] in [Span.end]. *)
Definition Span_message (h : list (gmap string string)) (latency : Q) (s : Span.t)
    : CaptureMessage.t :=
  CaptureMessage.mk (Span.distinctId s) "$ai_span"
    (Span_properties (deref h (Span.properties s)) latency s).

(** The assignments [Span.end] makes from its options. *)
Definition Span_apply_end (options : option StateEndOptions.t) (s : Span.t) : Span.t :=
  match options with
  | Some o =>
      Span.mk (Span.id s) (Span.distinctId s) (Span.traceId s) (Span.parentId s)
        (Span.name s) (Span.startTime s) (Span.inputState s)
        (assign_if (StateEndOptions.outputState o) (Span.outputState s))
        (Span.metadata s) (Span.properties s)
        (assign_defined (StateEndOptions.isError o) (Span.isError s))
        (assign_if_error (StateEndOptions.error o) (Span.error s))
  | None => s
  end.

Definition Span_end (now : Z) (options : option StateEndOptions.t) (s : Span.t)
    (w : World.t) : Span.t * World.t * result unit :=
  let latency := seconds (Span.startTime s) now in
  let s := Span_apply_end options s in
  match getClient w with
  | (Ok (Some _), w) =>
      (s, World_capture (Span_message (World.heap w) latency s) w, Ok tt)
  | (Ok None, w) => (s, w, Ok tt)
  | (Throw message, w) => (s, w, Throw message)
  end.

(** [Span.span]. *)
Definition Span_span_options (s : Span.t) (l : loc) (options : SpanOptions.t) : SpanOptions.t :=
  SpanOptions.mk
    (SpanOptions.id options) (SpanOptions.name options)
    (SpanOptions.inputState options) (SpanOptions.outputState options)
    (SpanOptions.metadata options)
    (Some l)
    (SpanOptions.error options) (SpanOptions.isError options)
    (Some (Span.distinctId s)).

Definition Span_span (now : Z) (uuid : string) (options : SpanOptions.t) (s : Span.t)
    (w : World.t) : result (Span.t * World.t) :=
  let '(l, w') :=
    World_alloc (spread (World.heap w) (Span.properties s) (SpanOptions.properties options)) w in
  match Span_new now uuid (Span.traceId s) (Some (Span.id s)) (Span_span_options s l options) with
  | Ok c => Ok (c, w')
  | Throw m => Throw m
  end.

(** *** Generation *)

Definition Generation_new (now : Z) (traceId : string) (options : GenerationOptions.t)
    : result Generation.t :=
  match if_str (GenerationOptions.distinctId options) with
  | None => Throw "Generation must have a distinctId (passed from trace)"
  | Some distinctId =>
      Ok (Generation.mk
            traceId
            (GenerationOptions.name options)
            distinctId
            now
            (GenerationOptions.model options)
            (GenerationOptions.provider options)
            (GenerationOptions.input options)
            (GenerationOptions.output options)
            (GenerationOptions.inputTokens options)
            (GenerationOptions.outputTokens options)
            None
            (GenerationOptions.httpStatus options)
            (GenerationOptions.baseUrl options)
            (GenerationOptions.metadata options)
            (GenerationOptions.properties options)
            (bool_or_false (GenerationOptions.isError options))
            (GenerationOptions.error options))
  end.

(** [Trace.generation]. *)
Definition Trace_generation_options (t : Trace.t) (l : loc) (options : GenerationOptions.t)
    : GenerationOptions.t :=
  GenerationOptions.mk
    (GenerationOptions.name options) (GenerationOptions.model options)
    (GenerationOptions.provider options) (GenerationOptions.input options)
    (GenerationOptions.output options) (GenerationOptions.inputTokens options)
    (GenerationOptions.outputTokens options) (GenerationOptions.latency options)
    (GenerationOptions.httpStatus options) (GenerationOptions.baseUrl options)
    (GenerationOptions.metadata options)
    (Some l)
    (GenerationOptions.error options) (GenerationOptions.isError options)
    (Some (Trace.distinctId t)).

Definition Trace_generation (now : Z) (options : GenerationOptions.t) (t : Trace.t)
    (w : World.t) : result (Generation.t * World.t) :=
  let '(l, w') :=
    World_alloc
      (spread (World.heap w) (Trace.properties t) (GenerationOptions.properties options)) w in
  match Generation_new now (Trace.id t) (Trace_generation_options t l options) with
  | Ok g => Ok (g, w')
  | Throw m => Throw m
  end.

Definition Generation_update (options : PartialGenerationOptions.t) (g : Generation.t)
    : Generation.t :=
  Generation.mk
    (Generation.traceId g)
    (assign_if_str (PartialGenerationOptions.name options) (Generation.name g))
    (Generation.distinctId g)
    (Generation.startTime g)
    (assign_if_str (PartialGenerationOptions.model options) (Generation.model g))
    (assign_if_str (PartialGenerationOptions.provider options) (Generation.provider g))
    (assign_if_value (PartialGenerationOptions.input options) (Generation.input g))
    (assign_if_value (PartialGenerationOptions.output options) (Generation.output g))
    (assign_if (PartialGenerationOptions.inputTokens options) (Generation.inputTokens g))
    (assign_if (PartialGenerationOptions.outputTokens options) (Generation.outputTokens g))
    (Generation.latency g)
    (assign_if (PartialGenerationOptions.httpStatus options) (Generation.httpStatus g))
    (assign_if_ostr (PartialGenerationOptions.baseUrl options) (Generation.baseUrl g))
    (match PartialGenerationOptions.metadata options with
     | Some m => Some (obj_spread (Generation.metadata g) (Some m))
     | None => Generation.metadata g
     end)
    (Generation.properties g)
    (assign_defined (PartialGenerationOptions.isError options) (Generation.isError g))
    (assign_if_error (PartialGenerationOptions.error options) (Generation.error g)).

(** The value written to [$ai_output_choices] by [if (this.output) { ... }]. *)
Definition output_choices (output : value) : option value :=
  if truthy output then
    if isArray output then Some (VStr (json_text output))
    else
      Some (VStr (json_text
                    (VArr [VObj [("role", VStr "assistant"); ("content", output)]])))
  else None.

(** The object literal that opens [properties] in [Generation.end]. *)
Definition Generation_literal (g : Generation.t) : list (string * value) :=
  [ ("$ai_trace_id", VStr (Generation.traceId g));
    ("$ai_model", VStr (Generation.model g));
    ("$ai_provider", VStr (Generation.provider g));
    ("$ai_input", JSON_stringify (Generation.input g));
    ("$ai_latency", num_value (Generation.latency g));
    ("$ai_is_error", VBool (Generation.isError g)) ].

(** The conditional assignments that follow the literal in
    [Generation.end]. *)
Definition Generation_assignments (g : Generation.t) : list (string * option value) :=
  [ ("$ai_output_choices", output_choices (Generation.output g));
    ("$ai_input_tokens", VNum <$> Generation.inputTokens g);
    ("$ai_output_tokens", VNum <$> Generation.outputTokens g);
    ("$ai_http_status", VNum <$> Generation.httpStatus g);
    ("$ai_base_url", VStr <$> if_str (Generation.baseUrl g));
    ("$ai_metadata", state_field (Generation.metadata g));
    ("$ai_error", error_field (Generation.isError g) (Generation.error g)) ].

(** The [properties] object built by [Generation.end]. *)
Definition Generation_properties (custom : gmap string string) (g : Generation.t)
    : gmap string value :=
  assign_all (Generation_assignments g) (spread_custom custom (literal (Generation_literal g))).

(** The argument of [client.capture] in [Generation.end]. *)
Definition Generation_message (h : list (gmap string string)) (g : Generation.t)
    : CaptureMessage.t :=
  CaptureMessage.mk (Generation.distinctId g) "$ai_generation"
    (Generation_properties (deref h (Generation.properties g)) g).

(** The assignments [Generation.end] makes: the latency, then the fields
    taken from its options. *)
Definition Generation_apply_end (now : Z) (options : option GenerationEndOptions.t)
    (g : Generation.t) : Generation.t :=
  let latency :=
    latency_of (options ≫= GenerationEndOptions.latency) (Generation.startTime g) now in
  match options with
  | Some o =>
      Generation.mk (Generation.traceId g) (Generation.name g) (Generation.distinctId g)
        (Generation.startTime g) (Generation.model g) (Generation.provider g)
        (Generation.input g)
        (assign_if_value (GenerationEndOptions.output o) (Generation.output g))
        (Generation.inputTokens g)
        (assign_if (GenerationEndOptions.outputTokens o) (Generation.outputTokens g))
        (Some latency)
        (assign_if (GenerationEndOptions.httpStatus o) (Generation.httpStatus g))
        (Generation.baseUrl g) (Generation.metadata g) (Generation.properties g)
        (assign_defined (GenerationEndOptions.isError o) (Generation.isError g))
        (assign_if_error (GenerationEndOptions.error o) (Generation.error g))
  | None =>
      Generation.mk (Generation.traceId g) (Generation.name g) (Generation.distinctId g)
        (Generation.startTime g) (Generation.model g) (Generation.provider g)
        (Generation.input g) (Generation.output g) (Generation.inputTokens g)
        (Generation.outputTokens g)
        (Some latency)
        (Generation.httpStatus g) (Generation.baseUrl g) (Generation.metadata g)
        (Generation.properties g) (Generation.isError g) (Generation.error g)
  end.

Definition Generation_end (now : Z) (options : option GenerationEndOptions.t)
    (g : Generation.t) (w : World.t) : Generation.t * World.t * result unit :=
  let g := Generation_apply_end now options g in
  match getClient w with
  | (Ok (Some _), w) =>
      (g, World_capture (Generation_message (World.heap w) g) w, Ok tt)
  | (Ok None, w) => (g, w, Ok tt)
  | (Throw message, w) => (g, w, Throw message)
  end.

(** *** Embedding *)

Definition Embedding_new (now : Z) (traceId : string) (options : EmbeddingOptions.t)
    : result Embedding.t :=
  match if_str (EmbeddingOptions.distinctId options) with
  | None => Throw "Embedding must have a distinctId (passed from trace)"
  | Some distinctId =>
      Ok (Embedding.mk
            traceId
            (EmbeddingOptions.name options)
            distinctId
            now
            (EmbeddingOptions.model options)
            (EmbeddingOptions.provider options)
            (EmbeddingOptions.input options)
            (EmbeddingOptions.inputTokens options)
            None
            (EmbeddingOptions.httpStatus options)
            (EmbeddingOptions.baseUrl options)
            (EmbeddingOptions.metadata options)
            (EmbeddingOptions.properties options)
            (bool_or_false (EmbeddingOptions.isError options))
            (EmbeddingOptions.error options))
  end.

(** [Trace.embedding]. *)
Definition Trace_embedding_options (t : Trace.t) (l : loc) (options : EmbeddingOptions.t)
    : EmbeddingOptions.t :=
  EmbeddingOptions.mk
    (EmbeddingOptions.name options) (EmbeddingOptions.model options)
    (EmbeddingOptions.provider options) (EmbeddingOptions.input options)
    (EmbeddingOptions.inputTokens options) (EmbeddingOptions.latency options)
    (EmbeddingOptions.httpStatus options) (EmbeddingOptions.baseUrl options)
    (EmbeddingOptions.metadata options)
    (Some l)
    (EmbeddingOptions.error options) (EmbeddingOptions.isError options)
    (Some (Trace.distinctId t)).

Definition Trace_embedding (now : Z) (options : EmbeddingOptions.t) (t : Trace.t)
    (w : World.t) : result (Embedding.t * World.t) :=
  let '(l, w') :=
    World_alloc
      (spread (World.heap w) (Trace.properties t) (EmbeddingOptions.properties options)) w in
  match Embedding_new now (Trace.id t) (Trace_embedding_options t l options) with
  | Ok e => Ok (e, w')
  | Throw m => Throw m
  end.

(** [typeof this.input === "string" ? this.input : JSON.stringify(this.input)]. *)
Definition embedding_input_text (i : EmbeddingInput) : string :=
  match i with
  | InputText s => s
  | InputTexts l => json_text (VArr (VStr <$> l))
  end.

(** The object literal that opens [properties] in [Embedding.end]. *)
Definition Embedding_literal (e : Embedding.t) : list (string * value) :=
  [ ("$ai_trace_id", VStr (Embedding.traceId e));
    ("$ai_model", VStr (Embedding.model e));
    ("$ai_provider", VStr (Embedding.provider e));
    ("$ai_input", VStr (embedding_input_text (Embedding.input e)));
    ("$ai_latency", num_value (Embedding.latency e));
    ("$ai_is_error", VBool (Embedding.isError e)) ].

(** The conditional assignments that follow the literal in
    [Embedding.end]. *)
Definition Embedding_assignments (e : Embedding.t) : list (string * option value) :=
  [ ("$ai_input_tokens", VNum <$> Embedding.inputTokens e);
    ("$ai_http_status", VNum <$> Embedding.httpStatus e);
    ("$ai_base_url", VStr <$> if_str (Embedding.baseUrl e));
    ("$ai_metadata", state_field (Embedding.metadata e));
    ("$ai_error", error_field (Embedding.isError e) (Embedding.error e)) ].

(** The [properties] object built by [Embedding.end]. *)
Definition Embedding_properties (custom : gmap string string) (e : Embedding.t)
    : gmap string value :=
  assign_all (Embedding_assignments e) (spread_custom custom (literal (Embedding_literal e))).

(** The argument of [client.capture] in [Embedding.end]. *)
Definition Embedding_message (h : list (gmap string string)) (e : Embedding.t)
    : CaptureMessage.t :=
  CaptureMessage.mk (Embedding.distinctId e) "$ai_embedding"
    (Embedding_properties (deref h (Embedding.properties e)) e).

(** The assignments [Embedding.end] makes: the latency, then the fields
    taken from its options. *)
Definition Embedding_apply_end (now : Z) (options : option EmbeddingEndOptions.t)
    (e : Embedding.t) : Embedding.t :=
  let latency :=
    latency_of (options ≫= EmbeddingEndOptions.latency) (Embedding.startTime e) now in
  match options with
  | Some o =>
      Embedding.mk (Embedding.traceId e) (Embedding.name e) (Embedding.distinctId e)
        (Embedding.startTime e) (Embedding.model e) (Embedding.provider e)
        (Embedding.input e) (Embedding.inputTokens e)
        (Some latency)
        (assign_if (EmbeddingEndOptions.httpStatus o) (Embedding.httpStatus e))
        (Embedding.baseUrl e) (Embedding.metadata e) (Embedding.properties e)
        (assign_defined (EmbeddingEndOptions.isError o) (Embedding.isError e))
        (assign_if_error (EmbeddingEndOptions.error o) (Embedding.error e))
  | None =>
      Embedding.mk (Embedding.traceId e) (Embedding.name e) (Embedding.distinctId e)
        (Embedding.startTime e) (Embedding.model e) (Embedding.provider e)
        (Embedding.input e) (Embedding.inputTokens e)
        (Some latency)
        (Embedding.httpStatus e) (Embedding.baseUrl e) (Embedding.metadata e)
        (Embedding.properties e) (Embedding.isError e) (Embedding.error e)
  end.

Definition Embedding_end (now : Z) (options : option EmbeddingEndOptions.t)
    (e : Embedding.t) (w : World.t) : Embedding.t * World.t * result unit :=
  let e := Embedding_apply_end now options e in
  match getClient w with
  | (Ok (Some _), w) =>
      (e, World_capture (Embedding_message (World.heap w) e) w, Ok tt)
  | (Ok None, w) => (e, w, Ok tt)
  | (Throw message, w) => (e, w, Throw message)
  end.

(** *** Calls on a session *)

(** One call; the caller catches what a call throws and goes on.  A call on
    a unit that does not exist, a constructor that throws, and a write
    through a reference the caller does not hold, leave the session as it
    is; a closing call that throws leaves the unit it has changed. *)
Definition step (c : call) (σ : Session.t) : Session.t :=
  let '(Session.mk root spans generations embeddings hidden w) := σ in
  match c with
  | NewProperties m =>
      Session.mk root spans generations embeddings hidden (World_alloc m w).2
  | SetProperty l k v =>
      if bool_decide (l ∈ hidden) then σ
      else Session.mk root spans generations embeddings hidden (World_write l k v w)
  | TraceUpdate o =>
      let '(root', w') := Trace_update o root w in
      Session.mk root' spans generations embeddings (hidden ++ allocated w w') w'
  | TraceEnd now o =>
      let '(root', w', _) := Trace_end now o root w in
      Session.mk root' spans generations embeddings hidden w'
  | TraceSpan now uuid o =>
      match Trace_span now uuid o root w with
      | Ok (s, w') =>
          Session.mk root (spans ++ [s]) generations embeddings (hidden ++ allocated w w') w'
      | Throw _ => σ
      end
  | TraceGeneration now o =>
      match Trace_generation now o root w with
      | Ok (g, w') =>
          Session.mk root spans (generations ++ [g]) embeddings (hidden ++ allocated w w') w'
      | Throw _ => σ
      end
  | TraceEmbedding now o =>
      match Trace_embedding now o root w with
      | Ok (e, w') =>
          Session.mk root spans generations (embeddings ++ [e]) (hidden ++ allocated w w') w'
      | Throw _ => σ
      end
  | SpanUpdate i o =>
      match spans !! i with
      | Some s =>
          Session.mk root (<[i := Span_update o s]> spans) generations embeddings hidden w
      | None => σ
      end
  | SpanEnd i now o =>
      match spans !! i with
      | Some s =>
          let '(s', w', _) := Span_end now o s w in
          Session.mk root (<[i := s']> spans) generations embeddings hidden w'
      | None => σ
      end
  | SpanSpan i now uuid o =>
      match spans !! i with
      | Some s =>
          match Span_span now uuid o s w with
          | Ok (c, w') =>
              Session.mk root (spans ++ [c]) generations embeddings
                (hidden ++ allocated w w') w'
          | Throw _ => σ
          end
      | None => σ
      end
  | GenerationUpdate i o =>
      match generations !! i with
      | Some g =>
          Session.mk root spans (<[i := Generation_update o g]> generations) embeddings
            hidden w
      | None => σ
      end
  | GenerationEnd i now o =>
      match generations !! i with
      | Some g =>
          let '(g', w', _) := Generation_end now o g w in
          Session.mk root spans (<[i := g']> generations) embeddings hidden w'
      | None => σ
      end
  | EmbeddingEnd i now o =>
      match embeddings !! i with
      | Some e =>
          let '(e', w', _) := Embedding_end now o e w in
          Session.mk root spans generations (<[i := e']> embeddings) hidden w'
      | None => σ
      end
  end.

(** A sequence of calls, in order. *)
Definition run (calls : list call) (σ : Session.t) : Session.t :=
  fold_left (λ σ c, step c σ) calls σ.

(** ** Vocabulary of the statements *)

(** What a closing call leaves behind: nothing is written to the store, and
    one message is captured exactly when a client is available. *)
Definition closes (w w' : World.t) (msg : CaptureMessage.t) : Prop :=
  World.heap w' = World.heap w
  ∧ has_client w' = has_client w
  ∧ World.captured w' = World.captured w ++ (if has_client w then [msg] else []).


(** Between [w] and [w'] exactly one message is captured, and it
    satisfies [P]. *)
Definition emits (w w' : World.t) (P : CaptureMessage.t → Prop) : Prop :=
  ∃ m, emitted w w' = [m] ∧ P m.

(** Between [w] and [w'] exactly one message is captured, and its key [k]
    holds [v] ([None] when the message has no such key). *)
Definition emits_field (w w' : World.t) (k : string) (v : option value) : Prop :=
  emits w w' (λ m, CaptureMessage.properties m !! k = v).

(** Whether a closing call returns or throws in the state [w]. *)
Definition end_outcome (w : World.t) : result unit :=
  if no_key w then Throw "You must pass your PostHog project's api key." else Ok tt.

(** A sequence of [update] calls on a span. *)
Definition Span_updates (updates : list PartialSpanOptions.t) (s : Span.t) : Span.t :=
  fold_left (λ s o, Span_update o s) updates s.

(** The fields of a span that no call assigns after the constructor. *)
Definition Span_fixed (s s' : Span.t) : Prop :=
  Span.id s' = Span.id s
  ∧ Span.distinctId s' = Span.distinctId s
  ∧ Span.traceId s' = Span.traceId s
  ∧ Span.parentId s' = Span.parentId s
  ∧ Span.properties s' = Span.properties s
  ∧ Span.startTime s' = Span.startTime s.


(** The fields of a generation that no call assigns after the constructor. *)
Definition Generation_fixed (g g' : Generation.t) : Prop :=
  Generation.traceId g' = Generation.traceId g
  ∧ Generation.distinctId g' = Generation.distinctId g
  ∧ Generation.properties g' = Generation.properties g
  ∧ Generation.startTime g' = Generation.startTime g.

(** The fields of an embedding that no call assigns after the constructor. *)
Definition Embedding_fixed (e e' : Embedding.t) : Prop :=
  Embedding.traceId e' = Embedding.traceId e
  ∧ Embedding.distinctId e' = Embedding.distinctId e
  ∧ Embedding.properties e' = Embedding.properties e
  ∧ Embedding.startTime e' = Embedding.startTime e.

(** The hidden property maps of a session are in the store. *)
Definition hidden_ok (σ : Session.t) : Prop :=
  ∀ l, l ∈ Session.hidden σ → (l < length (World.heap (Session.world σ)))%nat.

(** From [σ] to [σ'] every unit is still there, with its fixed fields. *)
Definition units_kept (σ σ' : Session.t) : Prop :=
  (∀ i s, Session.spans σ !! i = Some s →
     ∃ s', Session.spans σ' !! i = Some s' ∧ Span_fixed s s')
  ∧ (∀ i g, Session.generations σ !! i = Some g →
       ∃ g', Session.generations σ' !! i = Some g' ∧ Generation_fixed g g')
  ∧ (∀ i e, Session.embeddings σ !! i = Some e →
       ∃ e', Session.embeddings σ' !! i = Some e' ∧ Embedding_fixed e e').

(** From [σ] to [σ'] every hidden property map is still hidden, with its
    content. *)
Definition store_kept (σ σ' : Session.t) : Prop :=
  ∀ l, l ∈ Session.hidden σ →
    l ∈ Session.hidden σ'
    ∧ World.heap (Session.world σ') !! l = World.heap (Session.world σ) !! l.

Definition extends (σ σ' : Session.t) : Prop :=
  units_kept σ σ' ∧ store_kept σ σ'.

(** Every unit of the session carries the subject identifier [d], which is
    not empty, and so does every message captured after [base]. *)
Definition carries (d : string) (base : list CaptureMessage.t) (σ : Session.t) : Prop :=
  truthy_str d = true
  ∧ Trace.distinctId (Session.root σ) = d
  ∧ Forall (λ s, Span.distinctId s = d) (Session.spans σ)
  ∧ Forall (λ g, Generation.distinctId g = d) (Session.generations σ)
  ∧ Forall (λ e, Embedding.distinctId e = d) (Session.embeddings σ)
  ∧ ∃ new, World.captured (Session.world σ) = base ++ new
           ∧ Forall (λ m, CaptureMessage.distinctId m = d) new.

(** [child] is the key-wise merge of [parent] and [own], where [own] wins. *)
Definition merge_of (parent own child : gmap string string) : Prop :=
  ∀ k, child !! k = match own !! k with Some v => Some v | None => parent !! k end.

(** ** Further vocabulary *)

(** [get traceId()] and [getId()] of a trace; [get spanId()] and [getId()]
    of a span. *)
Definition Trace_traceId (t : Trace.t) : string := Trace.id t.
Definition Trace_getId (t : Trace.t) : string := Trace.id t.
Definition Span_spanId (s : Span.t) : string := Span.id s.
Definition Span_getId (s : Span.t) : string := Span.id s.

(** [o[k]] on an object kept as an association list. *)
Fixpoint obj_get (k : string) (o : obj) : option value :=
  match o with
  | [] => None
  | (k', v) :: rest => if String.eqb k k' then Some v else obj_get k rest
  end.

(** The order in which JavaScript lists the properties of an object: no
    property would have been listed before one that precedes it. *)
Fixpoint js_ordered (ks : list string) : Prop :=
  match ks with
  | [] => True
  | k :: rest => Forall (λ k', goes_before k' k = false) rest ∧ js_ordered rest
  end.

(** An error that the test [if (options.error)] lets pass by: absent, or the
    empty string. *)
Definition falsy_error (e : option JsError) : Prop :=
  match e with
  | Some e => JsError_truthy e = false
  | None => True
  end.

(** A sequence of [update] calls on a trace, and on a generation. *)
Definition Trace_updates (updates : list PartialTraceOptions.t) (t : Trace.t) (w : World.t)
    : Trace.t * World.t :=
  fold_left (λ r o, Trace_update o r.1 r.2) updates (t, w).
Definition Generation_updates (updates : list PartialGenerationOptions.t)
    (g : Generation.t) : Generation.t :=
  fold_left (λ g o, Generation_update o g) updates g.

(** The names the closing call of a span, and of a generation, writes
    itself. *)
Definition Span_keys : list string :=
  [ "$ai_trace_id"; "$ai_span_id"; "$ai_span_name"; "$ai_parent_id"; "$ai_latency";
    "$ai_is_error"; "$ai_input_state"; "$ai_output_state"; "$ai_metadata"; "$ai_error" ].
Definition Generation_keys : list string :=
  [ "$ai_trace_id"; "$ai_model"; "$ai_provider"; "$ai_input"; "$ai_latency"; "$ai_is_error";
    "$ai_output_choices"; "$ai_input_tokens"; "$ai_output_tokens"; "$ai_http_status";
    "$ai_base_url"; "$ai_metadata"; "$ai_error" ].

(** What a key of the event holds when the closing call writes [reserved]
    after the spread of the custom properties. *)
Definition written_or_custom (reserved : option value) (custom : gmap string string)
    (k : string) : option value :=
  match reserved with
  | Some v => Some v
  | None => VStr <$> custom !! k
  end.

(** The spans of a session form a forest under one trace: every span has
    the trace id [rid], and a parent id names a span created before. *)
Definition forest (rid : string) (spans : list Span.t) : Prop :=
  ∀ i s, spans !! i = Some s →
    Span.traceId s = rid
    ∧ ∀ pid, Span.parentId s = Some pid →
        ∃ j p, (j < i)%nat ∧ spans !! j = Some p ∧ Span_getId p = pid.

(** Every unit of the session belongs to the trace [rid]. *)
Definition belongs (rid : string) (σ : Session.t) : Prop :=
  Trace_getId (Session.root σ) = rid
  ∧ forest rid (Session.spans σ)
  ∧ Forall (λ g, Generation.traceId g = rid) (Session.generations σ)
  ∧ Forall (λ e, Embedding.traceId e = rid) (Session.embeddings σ).

(** The name of the event a call emits when a client is available: only a
    closing call on a unit that exists emits one. *)
Definition event_of (c : call) (σ : Session.t) : option string :=
  match c with
  | TraceEnd _ _ => Some "$ai_trace"
  | SpanEnd i _ _ => Session.spans σ !! i ≫= λ _, Some "$ai_span"
  | GenerationEnd i _ _ => Session.generations σ !! i ≫= λ _, Some "$ai_generation"
  | EmbeddingEnd i _ _ => Session.embeddings σ !! i ≫= λ _, Some "$ai_embedding"
  | _ => None
  end.

(** The names of the events of a sequence of calls, in order. *)
Fixpoint events_of (calls : list call) (σ : Session.t) : list string :=
  match calls with
  | [] => []
  | c :: rest => option_list (event_of c σ) ++ events_of rest (step c σ)
  end.

(** * Properties *)

(** ** Reading the assembled event *)

Lemma lookup_literal_acc (fields : list (string * value)) (m : gmap string value) (k : string) :
  fold_left (λ m kv, <[kv.1 := kv.2]> m) fields m !! k
  = match written k fields with Some v => Some v | None => m !! k end.
Proof.
  revert m. induction fields as [|[k' v] rest IH]; intros m; simpl; [done|].
  rewrite IH. destruct (written k rest) as [v'|]; [done|].
  destruct (String.eqb_spec k' k) as [->|Hne].
  - by rewrite lookup_insert_eq.
  - by rewrite lookup_insert_ne.
Qed.

Lemma lookup_literal (fields : list (string * value)) (k : string) :
  literal fields !! k = written k fields.
Proof.
  unfold literal. rewrite lookup_literal_acc, lookup_empty.
  by destruct (written k fields).
Qed.

Lemma lookup_set_opt (k k' : string) (o : option value) (m : gmap string value) :
  set_opt k o m !! k'
  = match (if String.eqb k k' then o else None) with Some v => Some v | None => m !! k' end.
Proof.
  destruct o as [v|]; simpl.
  - destruct (String.eqb_spec k k') as [->|Hne].
    + by rewrite lookup_insert_eq.
    + by rewrite lookup_insert_ne.
  - by destruct (String.eqb k k').
Qed.

Lemma lookup_assign_all (assignments : list (string * option value)) (m : gmap string value)
    (k : string) :
  assign_all assignments m !! k
  = match assigned k assignments with Some v => Some v | None => m !! k end.
Proof.
  revert m. induction assignments as [|[k' o] rest IH]; intros m; simpl; [done|].
  rewrite IH. destruct (assigned k rest) as [v'|]; [done|].
  apply lookup_set_opt.
Qed.

Lemma lookup_spread_custom (custom : gmap string string) (m : gmap string value) (k : string) :
  spread_custom custom m !! k
  = match custom !! k with Some s => Some (VStr s) | None => m !! k end.
Proof.
  unfold spread_custom. rewrite lookup_union, lookup_fmap.
  destruct (custom !! k) as [s|]; simpl.
  - by destruct (m !! k).
  - by destruct (m !! k).
Qed.

(** A key of the event holds: the last conditional assignment made to it,
    else the custom property of that name, else the field of the literal. *)
Lemma lookup_event (assignments : list (string * option value)) (custom : gmap string string)
    (fields : list (string * value)) (k : string) :
  assign_all assignments (spread_custom custom (literal fields)) !! k
  = match assigned k assignments with
    | Some v => Some v
    | None =>
        match custom !! k with
        | Some s => Some (VStr s)
        | None => written k fields
        end
    end.
Proof. by rewrite lookup_assign_all, lookup_spread_custom, lookup_literal. Qed.

(** ** The client *)

Lemma getClient_has_client (w : World.t) :
  (∃ c, (getClient w).1 = Ok (Some c)) ↔ has_client w = true.
Proof.
  unfold getClient, init, PostHog_new, has_client.
  destruct w as [wu ek ? [c|] ? ? ?]; destruct wu; simpl;
    try destruct (truthy_str (str_or ek "")); simpl;
    split; try done; try (by intros [? ?]); by eauto.
Qed.

Ltac closes_tac :=
  match goal with
  | w : World.t |- _ =>
      destruct w as [wu ek ? [c|] [? ? ? ?] ? ?]; destruct wu;
      unfold closes, end_outcome, has_client, no_key, getClient, init, PostHog_new;
      simpl;
      try (let E := fresh "E" in
           destruct (truthy_str (str_or ek "")) eqn:E; simpl; rewrite ?E; simpl);
      rewrite ?app_nil_r; done
  end.

Lemma Trace_end_closes (now : Z) (o : option StateEndOptions.t) (t : Trace.t) (w : World.t) :
  (Trace_end now o t w).1.1 = Trace_apply_end o t
  ∧ closes w (Trace_end now o t w).1.2
      (Trace_message (World.heap w) (seconds (Trace.startTime t) now) (Trace_apply_end o t)).
Proof. unfold Trace_end. closes_tac. Qed.

Lemma Span_end_closes (now : Z) (o : option StateEndOptions.t) (s : Span.t) (w : World.t) :
  (Span_end now o s w).1.1 = Span_apply_end o s
  ∧ closes w (Span_end now o s w).1.2
      (Span_message (World.heap w) (seconds (Span.startTime s) now) (Span_apply_end o s)).
Proof. unfold Span_end. closes_tac. Qed.

Lemma Generation_end_closes (now : Z) (o : option GenerationEndOptions.t) (g : Generation.t)
    (w : World.t) :
  (Generation_end now o g w).1.1 = Generation_apply_end now o g
  ∧ closes w (Generation_end now o g w).1.2
      (Generation_message (World.heap w) (Generation_apply_end now o g)).
Proof. unfold Generation_end. closes_tac. Qed.

Lemma Embedding_end_closes (now : Z) (o : option EmbeddingEndOptions.t) (e : Embedding.t)
    (w : World.t) :
  (Embedding_end now o e w).1.1 = Embedding_apply_end now o e
  ∧ closes w (Embedding_end now o e w).1.2
      (Embedding_message (World.heap w) (Embedding_apply_end now o e)).
Proof. unfold Embedding_end. closes_tac. Qed.

(** A closing call throws exactly when it has to make a client and has no
    key for it, and it leaves this as it is. *)
Lemma Trace_end_outcome (now : Z) (o : option StateEndOptions.t) (t : Trace.t) (w : World.t) :
  (Trace_end now o t w).2 = end_outcome w
  ∧ no_key (Trace_end now o t w).1.2 = no_key w.
Proof. unfold Trace_end. closes_tac. Qed.

Lemma Span_end_outcome (now : Z) (o : option StateEndOptions.t) (s : Span.t) (w : World.t) :
  (Span_end now o s w).2 = end_outcome w
  ∧ no_key (Span_end now o s w).1.2 = no_key w.
Proof. unfold Span_end. closes_tac. Qed.

Lemma Generation_end_outcome (now : Z) (o : option GenerationEndOptions.t)
    (g : Generation.t) (w : World.t) :
  (Generation_end now o g w).2 = end_outcome w
  ∧ no_key (Generation_end now o g w).1.2 = no_key w.
Proof. unfold Generation_end. closes_tac. Qed.

Lemma Embedding_end_outcome (now : Z) (o : option EmbeddingEndOptions.t)
    (e : Embedding.t) (w : World.t) :
  (Embedding_end now o e w).2 = end_outcome w
  ∧ no_key (Embedding_end now o e w).1.2 = no_key w.
Proof. unfold Embedding_end. closes_tac. Qed.

Lemma has_client_no_key (w : World.t) : has_client w = true → no_key w = false.
Proof.
  unfold has_client, no_key. destruct (World.client w); [done|].
  destruct (World.window_undefined w); [|done]. simpl. by intros ->.
Qed.

(** The messages a closing call emits. *)
Lemma closes_emitted (w w' : World.t) (msg : CaptureMessage.t) :
  closes w w' msg → emitted w w' = if has_client w then [msg] else [].
Proof.
  intros (_ & _ & Hc). unfold emitted. rewrite Hc.
  by rewrite drop_app_length.
Qed.

Lemma emits_intro (P : CaptureMessage.t → Prop) (w w' : World.t) (msg : CaptureMessage.t) :
  has_client w = true → closes w w' msg → P msg → emits w w' P.
Proof.
  intros Hh Hc HP. exists msg. by rewrite (closes_emitted _ _ _ Hc), Hh.
Qed.

(** Without client nothing is emitted. *)
Lemma closes_silent (w w' : World.t) (msg : CaptureMessage.t) :
  has_client w = false → closes w w' msg → emitted w w' = [].
Proof. intros Hh Hc. by rewrite (closes_emitted _ _ _ Hc), Hh. Qed.

Lemma Trace_field (h : list (gmap string string)) (latency : Q) (t : Trace.t) (k : string) :
  CaptureMessage.properties (Trace_message h latency t) !! k
  = match assigned k (Trace_assignments t) with
    | Some v => Some v
    | None =>
        match deref h (Trace.properties t) !! k with
        | Some s => Some (VStr s)
        | None => written k (Trace_literal latency t)
        end
    end.
Proof. apply lookup_event. Qed.

Lemma Span_field (h : list (gmap string string)) (latency : Q) (s : Span.t) (k : string) :
  CaptureMessage.properties (Span_message h latency s) !! k
  = match assigned k (Span_assignments s) with
    | Some v => Some v
    | None =>
        match deref h (Span.properties s) !! k with
        | Some c => Some (VStr c)
        | None => written k (Span_literal latency s)
        end
    end.
Proof. apply lookup_event. Qed.

Lemma Generation_field (h : list (gmap string string)) (g : Generation.t) (k : string) :
  CaptureMessage.properties (Generation_message h g) !! k
  = match assigned k (Generation_assignments g) with
    | Some v => Some v
    | None =>
        match deref h (Generation.properties g) !! k with
        | Some c => Some (VStr c)
        | None => written k (Generation_literal g)
        end
    end.
Proof. apply lookup_event. Qed.

Lemma Embedding_field (h : list (gmap string string)) (e : Embedding.t) (k : string) :
  CaptureMessage.properties (Embedding_message h e) !! k
  = match assigned k (Embedding_assignments e) with
    | Some v => Some v
    | None =>
        match deref h (Embedding.properties e) !! k with
        | Some c => Some (VStr c)
        | None => written k (Embedding_literal e)
        end
    end.
Proof. apply lookup_event. Qed.

(** ** The error field *)



(** ** Privacy *)

(** C2 (as amended).  When a client is available, a closing call captures
    exactly one event.  A root unit closed while its privacy flag is true
    writes no input-state and no output-state field: the emitted map has
    such a key only when the custom properties of the unit have it, with the
    custom value.  Closed while the flag is false, a present input state
    (output state) is emitted as its serialized string.  A span always emits
    a present input or output state as its serialized string.  A generation
    or an embedding emits its input under [$ai_input] unless its custom
    properties have that key, and a generation emits a truthy output.  A
    child takes its payload from its own options: no privacy flag of a root
    unit is read. *)
Theorem privacy_filter :
  (∀ now o t w,
     has_client w = true →
     let t' := (Trace_end now o t w).1.1 in
     let w' := (Trace_end now o t w).1.2 in
     let custom := props_in w (Trace.properties t') in
     (Trace.privacy t' = true →
        emits_field w w' "$ai_input_state" (VStr <$> custom !! "$ai_input_state")
        ∧ emits_field w w' "$ai_output_state" (VStr <$> custom !! "$ai_output_state"))
     ∧ (Trace.privacy t' = false →
          (∀ i, Trace.inputState t' = Some i →
             emits_field w w' "$ai_input_state" (Some (VStr (json_text (VObj i)))))
          ∧ (∀ i, Trace.outputState t' = Some i →
               emits_field w w' "$ai_output_state" (Some (VStr (json_text (VObj i)))))))
  ∧ (∀ now o s w,
       has_client w = true →
       let s' := (Span_end now o s w).1.1 in
       let w' := (Span_end now o s w).1.2 in
       (∀ i, Span.inputState s' = Some i →
          emits_field w w' "$ai_input_state" (Some (VStr (json_text (VObj i)))))
       ∧ (∀ i, Span.outputState s' = Some i →
            emits_field w w' "$ai_output_state" (Some (VStr (json_text (VObj i))))))
  ∧ (∀ now o g w,
       has_client w = true →
       let g' := (Generation_end now o g w).1.1 in
       let w' := (Generation_end now o g w).1.2 in
       let custom := props_in w (Generation.properties g') in
       emits_field w w' "$ai_input"
         (Some (default (JSON_stringify (Generation.input g')) (VStr <$> custom !! "$ai_input")))
       ∧ (truthy (Generation.output g') = true →
            is_Some (output_choices (Generation.output g'))
            ∧ emits_field w w' "$ai_output_choices" (output_choices (Generation.output g'))))
  ∧ (∀ now o e w,
       has_client w = true →
       let e' := (Embedding_end now o e w).1.1 in
       let w' := (Embedding_end now o e w).1.2 in
       let custom := props_in w (Embedding.properties e') in
       emits_field w w' "$ai_input"
         (Some (default (VStr (embedding_input_text (Embedding.input e')))
                  (VStr <$> custom !! "$ai_input"))))
  ∧ (∀ now uuid o t w s w',
       Trace_span now uuid o t w = Ok (s, w') →
       Span.inputState s = SpanOptions.inputState o
       ∧ Span.outputState s = SpanOptions.outputState o)
  ∧ (∀ now uuid o p w s w',
       Span_span now uuid o p w = Ok (s, w') →
       Span.inputState s = SpanOptions.inputState o
       ∧ Span.outputState s = SpanOptions.outputState o)
  ∧ (∀ now o t w g w',
       Trace_generation now o t w = Ok (g, w') →
       Generation.input g = GenerationOptions.input o
       ∧ Generation.output g = GenerationOptions.output o)
  ∧ (∀ now o t w e w',
       Trace_embedding now o t w = Ok (e, w') →
       Embedding.input e = EmbeddingOptions.input o).
Proof.
  repeat apply conj.
  - intros now o t w Hh.
    destruct (Trace_end_closes now o t w) as [Ht Hc]. simpl. rewrite Ht.
    split; [intros Hp; split|intros Hp; split; intros i Hi];
      (eapply emits_intro; [exact Hh|exact Hc|]); rewrite Trace_field; simpl;
      rewrite ?Hp, ?Hi; simpl; unfold props_in; by repeat case_match.
  - intros now o s w Hh.
    destruct (Span_end_closes now o s w) as [Hs Hc]. simpl. rewrite Hs.
    split; intros i Hi; (eapply emits_intro; [exact Hh|exact Hc|]); rewrite Span_field; simpl;
      rewrite ?Hi; simpl; by repeat case_match.
  - intros now o g w Hh.
    destruct (Generation_end_closes now o g w) as [Hg Hc]. simpl. rewrite Hg.
    split; [|intros Ho; split; [unfold output_choices; rewrite Ho; by destruct (isArray _)|]];
      (eapply emits_intro; [exact Hh|exact Hc|]); rewrite Generation_field; simpl;
      unfold props_in.
    + by repeat case_match.
    + destruct (output_choices _) eqn:E; [by repeat case_match|].
      unfold output_choices in E. rewrite Ho in E. by destruct (isArray _).
  - intros now o e w Hh.
    destruct (Embedding_end_closes now o e w) as [He Hc]. simpl. rewrite He.
    (eapply emits_intro; [exact Hh|exact Hc|]); rewrite Embedding_field; simpl.
    unfold props_in. by repeat case_match.
  - intros now uuid o t w s w'. unfold Trace_span, Span_new. simpl.
    intros H. repeat case_match; by simplify_eq.
  - intros now uuid o p w s w'. unfold Span_span, Span_new. simpl.
    intros H. repeat case_match; by simplify_eq.
  - intros now o t w g w'. unfold Trace_generation, Generation_new. simpl.
    intros H. repeat case_match; by simplify_eq.
  - intros now o t w e w'. unfold Trace_embedding, Embedding_new. simpl.
    intros H. repeat case_match; by simplify_eq.
Qed.

(** ** Parent linkage *)

Lemma Span_fixed_refl (s : Span.t) : Span_fixed s s.
Proof. by repeat split. Qed.

Lemma Span_fixed_trans (s1 s2 s3 : Span.t) :
  Span_fixed s1 s2 → Span_fixed s2 s3 → Span_fixed s1 s3.
Proof. unfold Span_fixed. intuition congruence. Qed.

Lemma Span_update_fixed (o : PartialSpanOptions.t) (s : Span.t) : Span_fixed s (Span_update o s).
Proof. by repeat split. Qed.

Lemma Span_apply_end_fixed (o : option StateEndOptions.t) (s : Span.t) :
  Span_fixed s (Span_apply_end o s).
Proof. destruct o; by repeat split. Qed.

Lemma Span_updates_fixed (updates : list PartialSpanOptions.t) (s : Span.t) :
  Span_fixed s (Span_updates updates s).
Proof.
  revert s. induction updates as [|o rest IH]; intros s; simpl.
  - apply Span_fixed_refl.
  - eapply Span_fixed_trans; [apply Span_update_fixed|apply IH].
Qed.

Lemma Span_new_id_nonempty (now : Z) (uuid traceId : string) (parentId : option string)
    (o : SpanOptions.t) (s : Span.t) :
  uuid ≠ "" → Span_new now uuid traceId parentId o = Ok s → Span.id s ≠ "".
Proof.
  intros Hu. unfold Span_new. destruct (if_str _); [|done]. intros [= <-]. simpl.
  unfold str_or, truthy_str. destruct (SpanOptions.id o) as [i|]; [|done].
  by destruct (String.eqb_spec i "").
Qed.



(** ** Latency *)


(** ** Custom properties against reserved fields *)

Lemma assigned_not_key (k : string) (assignments : list (string * option value)) :
  k ∉ keys assignments → assigned k assignments = None.
Proof.
  induction assignments as [|[k' o] rest IH]; simpl; [done|].
  rewrite not_elem_of_cons. intros [Hne Hrest]. rewrite (IH Hrest).
  by destruct (String.eqb_spec k' k).
Qed.






(** ** Output choices *)


(** ** Closing twice *)

Lemma closes_twice (w w1 w2 : World.t) (m1 m2 : CaptureMessage.t) :
  closes w w1 m1 → closes w1 w2 m2 →
  World.captured w2 = World.captured w ++ (if has_client w then [m1; m2] else []).
Proof.
  intros (_ & Hc1 & Hm1) (_ & _ & Hm2). rewrite Hm2, Hm1, Hc1.
  destruct (has_client w); by rewrite <- app_assoc.
Qed.

(** C9 (as amended).  When a client is available (one was made before, or
    the process has no [window] and its environment gives an API key) two
    closing calls on a unit return and capture two messages, one per call,
    the second after the first; the latency of each is computed from the
    options and the clock of its own call.  When no client is available a
    closing call captures nothing: on a page with [window] both calls
    return, on a process without [window] and without key both throw. *)
Theorem end_twice_emits_twice :
  (∀ now1 o1 now2 o2 t w,
     let r1 := Trace_end now1 o1 t w in
     let r2 := Trace_end now2 o2 r1.1.1 r1.1.2 in
     r1.2 = end_outcome w
     ∧ r2.2 = end_outcome w
     ∧ World.captured r2.1.2
     = World.captured w ++
       (if has_client w then
          [ Trace_message (World.heap w) (seconds (Trace.startTime t) now1) r1.1.1;
            Trace_message (World.heap w) (seconds (Trace.startTime t) now2) r2.1.1 ]
        else []))
  ∧ (∀ now1 o1 now2 o2 s w,
       let r1 := Span_end now1 o1 s w in
       let r2 := Span_end now2 o2 r1.1.1 r1.1.2 in
       r1.2 = end_outcome w
       ∧ r2.2 = end_outcome w
       ∧ World.captured r2.1.2
       = World.captured w ++
         (if has_client w then
            [ Span_message (World.heap w) (seconds (Span.startTime s) now1) r1.1.1;
              Span_message (World.heap w) (seconds (Span.startTime s) now2) r2.1.1 ]
          else []))
  ∧ (∀ now1 o1 now2 o2 g w,
       let r1 := Generation_end now1 o1 g w in
       let r2 := Generation_end now2 o2 r1.1.1 r1.1.2 in
       r1.2 = end_outcome w
       ∧ r2.2 = end_outcome w
       ∧ Generation.latency r1.1.1
       = Some (latency_of (o1 ≫= GenerationEndOptions.latency) (Generation.startTime g) now1)
       ∧ Generation.latency r2.1.1
         = Some (latency_of (o2 ≫= GenerationEndOptions.latency) (Generation.startTime g) now2)
       ∧ World.captured r2.1.2
         = World.captured w ++
           (if has_client w then
              [ Generation_message (World.heap w) r1.1.1; Generation_message (World.heap w) r2.1.1 ]
            else []))
  ∧ (∀ now1 o1 now2 o2 e w,
       let r1 := Embedding_end now1 o1 e w in
       let r2 := Embedding_end now2 o2 r1.1.1 r1.1.2 in
       r1.2 = end_outcome w
       ∧ r2.2 = end_outcome w
       ∧ Embedding.latency r1.1.1
       = Some (latency_of (o1 ≫= EmbeddingEndOptions.latency) (Embedding.startTime e) now1)
       ∧ Embedding.latency r2.1.1
         = Some (latency_of (o2 ≫= EmbeddingEndOptions.latency) (Embedding.startTime e) now2)
       ∧ World.captured r2.1.2
         = World.captured w ++
           (if has_client w then
              [ Embedding_message (World.heap w) r1.1.1; Embedding_message (World.heap w) r2.1.1 ]
            else [])).
Proof.
  repeat apply conj; intros now1 o1 now2 o2 x w; simpl.
  - destruct (Trace_end_closes now1 o1 x w) as [H1 Hc1].
    destruct (Trace_end_outcome now1 o1 x w) as [Ho1 Hk1].
    destruct (Trace_end_closes now2 o2 (Trace_end now1 o1 x w).1.1 (Trace_end now1 o1 x w).1.2)
      as [H2 Hc2].
    destruct (Trace_end_outcome now2 o2 (Trace_end now1 o1 x w).1.1
                (Trace_end now1 o1 x w).1.2) as [Ho2 _].
    split; [done|]. split; [by rewrite Ho2; unfold end_outcome; rewrite Hk1|].
    rewrite (closes_twice _ _ _ _ _ Hc1 Hc2), H2, H1.
    destruct Hc1 as (-> & _). by destruct o1.
  - destruct (Span_end_closes now1 o1 x w) as [H1 Hc1].
    destruct (Span_end_outcome now1 o1 x w) as [Ho1 Hk1].
    destruct (Span_end_closes now2 o2 (Span_end now1 o1 x w).1.1 (Span_end now1 o1 x w).1.2)
      as [H2 Hc2].
    destruct (Span_end_outcome now2 o2 (Span_end now1 o1 x w).1.1
                (Span_end now1 o1 x w).1.2) as [Ho2 _].
    split; [done|]. split; [by rewrite Ho2; unfold end_outcome; rewrite Hk1|].
    rewrite (closes_twice _ _ _ _ _ Hc1 Hc2), H2, H1.
    destruct Hc1 as (-> & _). by destruct o1.
  - destruct (Generation_end_closes now1 o1 x w) as [H1 Hc1].
    destruct (Generation_end_outcome now1 o1 x w) as [Ho1 Hk1].
    destruct (Generation_end_closes now2 o2 (Generation_end now1 o1 x w).1.1
                (Generation_end now1 o1 x w).1.2) as [H2 Hc2].
    destruct (Generation_end_outcome now2 o2 (Generation_end now1 o1 x w).1.1
                (Generation_end now1 o1 x w).1.2) as [Ho2 _].
    split; [done|]. split; [by rewrite Ho2; unfold end_outcome; rewrite Hk1|].
    rewrite (closes_twice _ _ _ _ _ Hc1 Hc2), H2, H1.
    destruct Hc1 as (-> & _). by destruct o1, o2.
  - destruct (Embedding_end_closes now1 o1 x w) as [H1 Hc1].
    destruct (Embedding_end_outcome now1 o1 x w) as [Ho1 Hk1].
    destruct (Embedding_end_closes now2 o2 (Embedding_end now1 o1 x w).1.1
                (Embedding_end now1 o1 x w).1.2) as [H2 Hc2].
    destruct (Embedding_end_outcome now2 o2 (Embedding_end now1 o1 x w).1.1
                (Embedding_end now1 o1 x w).1.2) as [Ho2 _].
    split; [done|]. split; [by rewrite Ho2; unfold end_outcome; rewrite Hk1|].
    rewrite (closes_twice _ _ _ _ _ Hc1 Hc2), H2, H1.
    destruct Hc1 as (-> & _). by destruct o1, o2.
Qed.

(** ** Construction of a root unit *)

(** C6 (as amended).  [PostHogLLM.trace] returns a trace exactly when the
    options carry a non-empty user email or a non-empty distinct id, and
    throws otherwise; the subject identifier of the trace is the user email
    when it is non-empty, else the distinct id.  The configured default
    distinct id is not read: it changes neither outcome. *)
Theorem trace_requires_subject_identifier :
  ∀ now uuid o w,
    ((∃ t, PostHogLLM_trace now uuid o w = Ok t)
     ↔ (∃ e, TraceOptions.userEmail o = Some e ∧ e ≠ "")
       ∨ (∃ d, TraceOptions.distinctId o = Some d ∧ d ≠ ""))
    ∧ ((∀ t, PostHogLLM_trace now uuid o w ≠ Ok t) →
         PostHogLLM_trace now uuid o w
         = Throw "A user email (userEmail) is required for PostHog tracing")
    ∧ (∀ t, PostHogLLM_trace now uuid o w = Ok t →
         Some (Trace.distinctId t)
         = match if_str (TraceOptions.userEmail o) with
           | Some e => Some e
           | None => if_str (TraceOptions.distinctId o)
           end)
    ∧ (∀ w',
         prop_get (PostHogLLMOptions.defaultPrivacyMode (World.options w'))
         = prop_get (PostHogLLMOptions.defaultPrivacyMode (World.options w)) →
         PostHogLLM_trace now uuid o w' = PostHogLLM_trace now uuid o w).
Proof.
  intros now uuid o w. unfold PostHogLLM_trace, Trace_new. simpl.
  assert (∀ a : option string,
            (∃ s, if_str a = Some s) ↔ (∃ s, a = Some s ∧ s ≠ "")) as Hif.
  { intros [a|]; unfold if_str, truthy_str; simpl.
    - destruct (String.eqb_spec a ""); simpl; split; intros [s Hs]; try done.
      + destruct Hs as [[= ->] ?]. done.
      + simplify_eq. eauto.
      + eauto.
    - split; intros [s Hs]; [done|by destruct Hs]. }
  split; [|split; [|split]].
  - rewrite <- !Hif.
    destruct (if_str (TraceOptions.userEmail o)) as [e|];
      [by split; eauto|].
    destruct (if_str (TraceOptions.distinctId o)) as [d|]; [by split; eauto|].
    split; [by intros [t ?]|]. by intros [[? ?]|[? ?]].
  - destruct (if_str (TraceOptions.userEmail o)) as [e|];
      [|destruct (if_str (TraceOptions.distinctId o)) as [d|]]; try done.
    + intros H. by destruct (H _ eq_refl).
    + intros H. by destruct (H _ eq_refl).
  - intros t.
    destruct (if_str (TraceOptions.userEmail o)) as [e|];
      [|destruct (if_str (TraceOptions.distinctId o)) as [d|]]; try done.
    + by intros [= <-].
    + by intros [= <-].
  - by intros w' ->.
Qed.

(** ** Sessions: what no call changes *)

Lemma Generation_fixed_refl (g : Generation.t) : Generation_fixed g g.
Proof. by repeat split. Qed.

Lemma Embedding_fixed_refl (e : Embedding.t) : Embedding_fixed e e.
Proof. by repeat split. Qed.

Lemma units_kept_refl (σ : Session.t) : units_kept σ σ.
Proof.
  repeat split; intros i x Hx; eexists; (split; [exact Hx|]).
  - apply Span_fixed_refl.
  - apply Generation_fixed_refl.
  - apply Embedding_fixed_refl.
Qed.

Lemma extends_refl (σ : Session.t) : extends σ σ.
Proof. split; [apply units_kept_refl|by intros l Hl]. Qed.

Lemma extends_trans (σ1 σ2 σ3 : Session.t) : extends σ1 σ2 → extends σ2 σ3 → extends σ1 σ3.
Proof.
  intros [(Hs1 & Hg1 & He1) Hh1] [(Hs2 & Hg2 & He2) Hh2]. split; [repeat split|].
  - intros i s Hi. destruct (Hs1 i s Hi) as (s' & Hi' & Hf).
    destruct (Hs2 i s' Hi') as (s'' & Hi'' & Hf'). exists s''. split; [done|].
    by eapply Span_fixed_trans.
  - intros i g Hi. destruct (Hg1 i g Hi) as (g' & Hi' & Hf).
    destruct (Hg2 i g' Hi') as (g'' & Hi'' & Hf'). exists g''. split; [done|].
    unfold Generation_fixed in *. intuition congruence.
  - intros i e Hi. destruct (He1 i e Hi) as (e' & Hi' & Hf).
    destruct (He2 i e' Hi') as (e'' & Hi'' & Hf'). exists e''. split; [done|].
    unfold Embedding_fixed in *. intuition congruence.
  - intros l Hl. destruct (Hh1 l Hl) as [Hl' E1]. destruct (Hh2 l Hl') as [Hl'' E2].
    split; [done|congruence].
Qed.

(** Units kept in a list: appending a unit, or replacing one by a unit with
    the same fixed fields, keeps what is there. *)
Lemma kept_app {A} (R : A → A → Prop) (l : list A) (x : A) :
  (∀ a, R a a) →
  ∀ i a, l !! i = Some a → ∃ a', (l ++ [x]) !! i = Some a' ∧ R a a'.
Proof. intros HR i a Hi. exists a. split; [by apply lookup_app_l_Some|done]. Qed.

Lemma kept_insert {A} (R : A → A → Prop) (l : list A) (j : nat) (x y : A) :
  (∀ a, R a a) → l !! j = Some x → R x y →
  ∀ i a, l !! i = Some a → ∃ a', <[j := y]> l !! i = Some a' ∧ R a a'.
Proof.
  intros HR Hj Hxy i a Hi. destruct (decide (i = j)) as [->|Hne].
  - exists y. rewrite list_lookup_insert_eq by by eapply lookup_lt_Some.
    split; [done|]. congruence.
  - exists a. by rewrite list_lookup_insert_ne.
Qed.

Lemma kept_refl {A} (R : A → A → Prop) (l : list A) :
  (∀ a, R a a) → ∀ i a, l !! i = Some a → ∃ a', l !! i = Some a' ∧ R a a'.
Proof. intros HR i a Hi. by exists a. Qed.

(** *** The constructors never throw on a constructed parent *)

Lemma Trace_span_Ok (now : Z) (uuid : string) (o : SpanOptions.t) (t : Trace.t) (w : World.t) :
  truthy_str (Trace.distinctId t) = true →
  ∃ s, Trace_span now uuid o t w
       = Ok (s, (World_alloc
                   (spread (World.heap w) (Trace.properties t) (SpanOptions.properties o)) w).2)
     ∧ Span.distinctId s = Trace.distinctId t
     ∧ Span.properties s = Some (length (World.heap w))
     ∧ Span.traceId s = Trace.id t
     ∧ Span.parentId s = None.
Proof.
  intros Hd. unfold Trace_span, Span_new. simpl. rewrite Hd. by eexists.
Qed.

Lemma Span_span_Ok (now : Z) (uuid : string) (o : SpanOptions.t) (p : Span.t) (w : World.t) :
  truthy_str (Span.distinctId p) = true →
  ∃ s, Span_span now uuid o p w
       = Ok (s, (World_alloc
                   (spread (World.heap w) (Span.properties p) (SpanOptions.properties o)) w).2)
     ∧ Span.distinctId s = Span.distinctId p
     ∧ Span.properties s = Some (length (World.heap w))
     ∧ Span.traceId s = Span.traceId p
     ∧ Span.parentId s = Some (Span.id p).
Proof.
  intros Hd. unfold Span_span, Span_new. simpl. rewrite Hd. by eexists.
Qed.

Lemma Trace_generation_Ok (now : Z) (o : GenerationOptions.t) (t : Trace.t) (w : World.t) :
  truthy_str (Trace.distinctId t) = true →
  ∃ g, Trace_generation now o t w
       = Ok (g, (World_alloc
                   (spread (World.heap w) (Trace.properties t)
                      (GenerationOptions.properties o)) w).2)
     ∧ Generation.distinctId g = Trace.distinctId t
     ∧ Generation.properties g = Some (length (World.heap w))
     ∧ Generation.traceId g = Trace.id t.
Proof.
  intros Hd. unfold Trace_generation, Generation_new. simpl. rewrite Hd. by eexists.
Qed.

Lemma Trace_embedding_Ok (now : Z) (o : EmbeddingOptions.t) (t : Trace.t) (w : World.t) :
  truthy_str (Trace.distinctId t) = true →
  ∃ e, Trace_embedding now o t w
       = Ok (e, (World_alloc
                   (spread (World.heap w) (Trace.properties t)
                      (EmbeddingOptions.properties o)) w).2)
     ∧ Embedding.distinctId e = Trace.distinctId t
     ∧ Embedding.properties e = Some (length (World.heap w))
     ∧ Embedding.traceId e = Trace.id t.
Proof.
  intros Hd. unfold Trace_embedding, Embedding_new. simpl. rewrite Hd. by eexists.
Qed.

Lemma Trace_update_spec (o : PartialTraceOptions.t) (t : Trace.t) (w : World.t) :
  Trace.distinctId (Trace_update o t w).1 = Trace.distinctId t
  ∧ Trace.id (Trace_update o t w).1 = Trace.id t
  ∧ World.heap w `prefix_of` World.heap (Trace_update o t w).2
  ∧ World.captured (Trace_update o t w).2 = World.captured w.
Proof.
  unfold Trace_update. destruct (PartialTraceOptions.properties o); simpl;
    repeat split; try done. by apply prefix_app_r.
Qed.

Lemma Trace_span_inv (now : Z) (uuid : string) (o : SpanOptions.t) (t : Trace.t) (w : World.t)
    (s : Span.t) (w' : World.t) :
  Trace_span now uuid o t w = Ok (s, w') →
  w' = (World_alloc (spread (World.heap w) (Trace.properties t) (SpanOptions.properties o)) w).2
  ∧ Span.distinctId s = Trace.distinctId t.
Proof.
  unfold Trace_span, Span_new. simpl. intros H. repeat case_match; by simplify_eq.
Qed.

Lemma Span_span_inv (now : Z) (uuid : string) (o : SpanOptions.t) (p : Span.t) (w : World.t)
    (s : Span.t) (w' : World.t) :
  Span_span now uuid o p w = Ok (s, w') →
  w' = (World_alloc (spread (World.heap w) (Span.properties p) (SpanOptions.properties o)) w).2
  ∧ Span.distinctId s = Span.distinctId p.
Proof.
  unfold Span_span, Span_new. simpl. intros H. repeat case_match; by simplify_eq.
Qed.

Lemma Trace_generation_inv (now : Z) (o : GenerationOptions.t) (t : Trace.t) (w : World.t)
    (g : Generation.t) (w' : World.t) :
  Trace_generation now o t w = Ok (g, w') →
  w' = (World_alloc
          (spread (World.heap w) (Trace.properties t) (GenerationOptions.properties o)) w).2
  ∧ Generation.distinctId g = Trace.distinctId t.
Proof.
  unfold Trace_generation, Generation_new. simpl. intros H.
  repeat case_match; by simplify_eq.
Qed.

Lemma Trace_embedding_inv (now : Z) (o : EmbeddingOptions.t) (t : Trace.t) (w : World.t)
    (e : Embedding.t) (w' : World.t) :
  Trace_embedding now o t w = Ok (e, w') →
  w' = (World_alloc
          (spread (World.heap w) (Trace.properties t) (EmbeddingOptions.properties o)) w).2
  ∧ Embedding.distinctId e = Trace.distinctId t.
Proof.
  unfold Trace_embedding, Embedding_new. simpl. intros H.
  repeat case_match; by simplify_eq.
Qed.

Lemma Generation_apply_end_fixed (now : Z) (o : option GenerationEndOptions.t)
    (g : Generation.t) :
  Generation_fixed g (Generation_apply_end now o g).
Proof. destruct o; by repeat split. Qed.

Lemma Embedding_apply_end_fixed (now : Z) (o : option EmbeddingEndOptions.t)
    (e : Embedding.t) :
  Embedding_fixed e (Embedding_apply_end now o e).
Proof. destruct o; by repeat split. Qed.

Ltac kept_tac :=
  repeat split;
  try (apply kept_refl;
       auto using Span_fixed_refl, Generation_fixed_refl, Embedding_fixed_refl);
  try (apply kept_app;
       auto using Span_fixed_refl, Generation_fixed_refl, Embedding_fixed_refl);
  try (eapply kept_insert;
       [ auto using Span_fixed_refl, Generation_fixed_refl, Embedding_fixed_refl
       | eassumption
       | first [ apply Span_update_fixed | apply Span_apply_end_fixed
               | apply Generation_apply_end_fixed | apply Embedding_apply_end_fixed
               | by repeat split ] ]).

Lemma step_units_kept (c : call) (σ : Session.t) : units_kept σ (step c σ).
Proof.
  destruct σ as [root spans gens embs hid w].
  destruct c as [m|l k v|o|now o|now uuid o|now o|now o|i o|i now o|i now uuid o|i o
                |i now o|i now o]; simpl.
  - kept_tac.
  - case_bool_decide; kept_tac.
  - destruct (Trace_update o root w) as [root' w']. kept_tac.
  - destruct (Trace_end now o root w) as [[root' w'] ?]. kept_tac.
  - destruct (Trace_span now uuid o root w) as [[s w']|]; kept_tac.
  - destruct (Trace_generation now o root w) as [[g w']|]; kept_tac.
  - destruct (Trace_embedding now o root w) as [[e w']|]; kept_tac.
  - destruct (spans !! i) as [s|] eqn:Hi; kept_tac.
  - destruct (spans !! i) as [s|] eqn:Hi; [|kept_tac].
    destruct (Span_end_closes now o s w) as (Hs & _).
    destruct (Span_end now o s w) as [[s' w'] ?]. simpl in Hs. subst s'. kept_tac.
  - destruct (spans !! i) as [p|] eqn:Hi; [|kept_tac].
    destruct (Span_span now uuid o p w) as [[s w']|]; kept_tac.
  - destruct (gens !! i) as [g|] eqn:Hi; kept_tac.
  - destruct (gens !! i) as [g|] eqn:Hi; [|kept_tac].
    destruct (Generation_end_closes now o g w) as (Hg & _).
    destruct (Generation_end now o g w) as [[g' w'] ?]. simpl in Hg. subst g'. kept_tac.
  - destruct (embs !! i) as [e|] eqn:Hi; [|kept_tac].
    destruct (Embedding_end_closes now o e w) as (He & _).
    destruct (Embedding_end now o e w) as [[e' w'] ?]. simpl in He. subst e'. kept_tac.
Qed.

(** A call of the library: the store grows at its end, and what it
    allocates is hidden. *)
Lemma hidden_library (hidden : list loc) (w w' : World.t) :
  World.heap w `prefix_of` World.heap w' →
  (∀ l, l ∈ hidden → (l < length (World.heap w))%nat) →
  (∀ l, l ∈ hidden →
     l ∈ hidden ++ allocated w w' ∧ World.heap w' !! l = World.heap w !! l)
  ∧ (∀ l, l ∈ hidden ++ allocated w w' → (l < length (World.heap w'))%nat).
Proof.
  intros Hp Hok. pose proof (prefix_length _ _ Hp) as Hlen. split.
  - intros l Hl. split; [apply elem_of_app; by left|].
    destruct (lookup_lt_is_Some_2 _ _ (Hok l Hl)) as [m Hm].
    by rewrite Hm, (prefix_lookup_Some _ _ _ _ Hm Hp).
  - intros l [Hl|Hl]%elem_of_app.
    + specialize (Hok l Hl). lia.
    + unfold allocated in Hl. apply elem_of_seq in Hl. lia.
Qed.

(** A call that allocates nothing and writes nothing that is hidden. *)
Lemma hidden_same (hidden : list loc) (h h' : list (gmap string string)) :
  (∀ l, l ∈ hidden → h' !! l = h !! l) →
  (length h ≤ length h')%nat →
  (∀ l, l ∈ hidden → (l < length h)%nat) →
  (∀ l, l ∈ hidden → l ∈ hidden ∧ h' !! l = h !! l)
  ∧ (∀ l, l ∈ hidden → (l < length h')%nat).
Proof.
  intros Hsame Hlen Hok. split.
  - intros l Hl. split; [done|by apply Hsame].
  - intros l Hl. specialize (Hok l Hl). lia.
Qed.

Lemma step_store_kept (c : call) (σ : Session.t) :
  hidden_ok σ → store_kept σ (step c σ) ∧ hidden_ok (step c σ).
Proof.
  destruct σ as [root spans gens embs hid w]. unfold hidden_ok, store_kept. simpl.
  intros Hok.
  destruct c as [m|l k v|o|now o|now uuid o|now o|now o|i o|i now o|i now uuid o|i o
                |i now o|i now o]; simpl.
  - apply hidden_same; [|rewrite length_app; lia|done].
    intros l Hl. apply lookup_app_l, Hok, Hl.
  - case_bool_decide as Hl; simpl; [by apply hidden_same|].
    apply hidden_same; [|by rewrite length_alter|done].
    intros l' Hl'. apply list_lookup_alter_ne. by intros ->.
  - destruct (Trace_update_spec o root w) as (_ & _ & Hh & _).
    destruct (Trace_update o root w) as [root' w']. by apply hidden_library.
  - destruct (Trace_end_closes now o root w) as (_ & Hh & _).
    destruct (Trace_end now o root w) as [[root' w'] ?]. simpl in *. rewrite Hh.
    by apply hidden_same.
  - destruct (Trace_span now uuid o root w) as [[s w']|] eqn:E; [|by apply hidden_same].
    apply Trace_span_inv in E as [-> _]. apply hidden_library; [|done].
    by apply prefix_app_r.
  - destruct (Trace_generation now o root w) as [[g w']|] eqn:E; [|by apply hidden_same].
    apply Trace_generation_inv in E as [-> _]. apply hidden_library; [|done].
    by apply prefix_app_r.
  - destruct (Trace_embedding now o root w) as [[e w']|] eqn:E; [|by apply hidden_same].
    apply Trace_embedding_inv in E as [-> _]. apply hidden_library; [|done].
    by apply prefix_app_r.
  - destruct (spans !! i) as [s|]; by apply hidden_same.
  - destruct (spans !! i) as [s|]; [|by apply hidden_same].
    destruct (Span_end_closes now o s w) as (_ & Hh & _).
    destruct (Span_end now o s w) as [[s' w'] ?]. simpl in *. rewrite Hh.
    by apply hidden_same.
  - destruct (spans !! i) as [p|]; [|by apply hidden_same].
    destruct (Span_span now uuid o p w) as [[s w']|] eqn:E; [|by apply hidden_same].
    apply Span_span_inv in E as [-> _]. apply hidden_library; [|done].
    by apply prefix_app_r.
  - destruct (gens !! i) as [g|]; by apply hidden_same.
  - destruct (gens !! i) as [g|]; [|by apply hidden_same].
    destruct (Generation_end_closes now o g w) as (_ & Hh & _).
    destruct (Generation_end now o g w) as [[g' w'] ?]. simpl in *. rewrite Hh.
    by apply hidden_same.
  - destruct (embs !! i) as [e|]; [|by apply hidden_same].
    destruct (Embedding_end_closes now o e w) as (_ & Hh & _).
    destruct (Embedding_end now o e w) as [[e' w'] ?]. simpl in *. rewrite Hh.
    by apply hidden_same.
Qed.

Lemma run_extends (calls : list call) (σ : Session.t) :
  hidden_ok σ → extends σ (run calls σ) ∧ hidden_ok (run calls σ).
Proof.
  revert σ. induction calls as [|c rest IH]; intros σ Hok; simpl.
  - split; [apply extends_refl|done].
  - destruct (step_store_kept c σ Hok) as [Hs Hok'].
    destruct (IH _ Hok') as [He Hok'']. split; [|done].
    eapply extends_trans; [|exact He]. split; [apply step_units_kept|done].
Qed.

(** ** Sessions: the subject identifier *)

Lemma carries_capture (d : string) (base old : list CaptureMessage.t) (b : bool)
    (msg : CaptureMessage.t) :
  (∃ new, old = base ++ new ∧ Forall (λ m, CaptureMessage.distinctId m = d) new) →
  CaptureMessage.distinctId msg = d →
  ∃ new, old ++ (if b then [msg] else []) = base ++ new
         ∧ Forall (λ m, CaptureMessage.distinctId m = d) new.
Proof.
  intros (new & -> & Hnew) Hmsg. exists (new ++ if b then [msg] else []).
  rewrite app_assoc. split; [done|].
  apply Forall_app_2; [done|]. destruct b; by repeat constructor.
Qed.

Lemma step_carries (d : string) (base : list CaptureMessage.t) (c : call) (σ : Session.t) :
  carries d base σ → carries d base (step c σ).
Proof.
  destruct σ as [root spans gens embs hid w].
  intros (Hd & Hroot & Hspans & Hgens & Hembs & Hcap). simpl in *.
  destruct c as [m|l k v|o|now o|now uuid o|now o|now o|i o|i now o|i now uuid o|i o
                |i now o|i now o]; simpl.
  - by repeat split.
  - case_bool_decide; by repeat split.
  - destruct (Trace_update_spec o root w) as (Hd' & _ & _ & Hc).
    destruct (Trace_update o root w) as [root' w']. simpl in *.
    repeat split; simpl; try done; [congruence|by rewrite Hc].
  - destruct (Trace_end_closes now o root w) as (Hr & _ & _ & Hc).
    destruct (Trace_end now o root w) as [[root' w'] ?]. simpl in *. subst root'.
    assert (Trace.distinctId (Trace_apply_end o root) = d) as Hd' by by destruct o.
    repeat split; simpl; try done. rewrite Hc. by apply carries_capture.
  - destruct (Trace_span now uuid o root w) as [[s w']|] eqn:E; [|by repeat split; simpl].
    apply Trace_span_inv in E as [-> Hs].
    repeat split; simpl; try done. apply Forall_app_2; [done|]. constructor; [congruence|done].
  - destruct (Trace_generation now o root w) as [[g w']|] eqn:E; [|by repeat split; simpl].
    apply Trace_generation_inv in E as [-> Hg].
    repeat split; simpl; try done. apply Forall_app_2; [done|]. constructor; [congruence|done].
  - destruct (Trace_embedding now o root w) as [[e w']|] eqn:E; [|by repeat split; simpl].
    apply Trace_embedding_inv in E as [-> He].
    repeat split; simpl; try done. apply Forall_app_2; [done|]. constructor; [congruence|done].
  - destruct (spans !! i) as [s|] eqn:Hi; [|by repeat split; simpl].
    repeat split; simpl; try done. apply Forall_insert; [done|].
    simpl. by eapply (Forall_lookup_1 _ _ _ _ Hspans).
  - destruct (spans !! i) as [s|] eqn:Hi; [|by repeat split; simpl].
    destruct (Span_end_closes now o s w) as (Hs & _ & _ & Hc).
    destruct (Span_end now o s w) as [[s' w'] ?]. simpl in *. subst s'.
    assert (Span.distinctId (Span_apply_end o s) = d) as Hd'.
    { destruct (Span_apply_end_fixed o s) as (_ & -> & _).
      by eapply (Forall_lookup_1 _ _ _ _ Hspans). }
    repeat split; simpl; try done.
    + by apply Forall_insert.
    + rewrite Hc. by apply carries_capture.
  - destruct (spans !! i) as [p|] eqn:Hi; [|by repeat split; simpl].
    destruct (Span_span now uuid o p w) as [[s w']|] eqn:E; [|by repeat split; simpl].
    apply Span_span_inv in E as [-> Hs].
    repeat split; simpl; try done. apply Forall_app_2; [done|]. constructor; [|done].
    rewrite Hs. by eapply (Forall_lookup_1 _ _ _ _ Hspans).
  - destruct (gens !! i) as [g|] eqn:Hi; [|by repeat split; simpl].
    repeat split; simpl; try done. apply Forall_insert; [done|].
    simpl. by eapply (Forall_lookup_1 _ _ _ _ Hgens).
  - destruct (gens !! i) as [g|] eqn:Hi; [|by repeat split; simpl].
    destruct (Generation_end_closes now o g w) as (Hg & _ & _ & Hc).
    destruct (Generation_end now o g w) as [[g' w'] ?]. simpl in *. subst g'.
    assert (Generation.distinctId (Generation_apply_end now o g) = d) as Hd'.
    { destruct (Generation_apply_end_fixed now o g) as (_ & -> & _).
      by eapply (Forall_lookup_1 _ _ _ _ Hgens). }
    repeat split; simpl; try done.
    + by apply Forall_insert.
    + rewrite Hc. by apply carries_capture.
  - destruct (embs !! i) as [e|] eqn:Hi; [|by repeat split; simpl].
    destruct (Embedding_end_closes now o e w) as (He & _ & _ & Hc).
    destruct (Embedding_end now o e w) as [[e' w'] ?]. simpl in *. subst e'.
    assert (Embedding.distinctId (Embedding_apply_end now o e) = d) as Hd'.
    { destruct (Embedding_apply_end_fixed now o e) as (_ & -> & _).
      by eapply (Forall_lookup_1 _ _ _ _ Hembs). }
    repeat split; simpl; try done.
    + by apply Forall_insert.
    + rewrite Hc. by apply carries_capture.
Qed.

Lemma run_carries (d : string) (base : list CaptureMessage.t) (calls : list call)
    (σ : Session.t) :
  carries d base σ → carries d base (run calls σ).
Proof.
  revert σ. induction calls as [|c rest IH]; intros σ H; simpl; [done|].
  by apply IH, step_carries.
Qed.

Lemma Trace_new_carries (now : Z) (uuid : string) (o : TraceOptions.t) (w : World.t)
    (t : Trace.t) :
  Trace_new now uuid o = Ok t →
  carries (Trace.distinctId t) (World.captured w) (session_of t w).
Proof.
  intros Ht. repeat split; try by constructor.
  - revert Ht. unfold Trace_new, if_str.
    intros Ht. repeat case_match; by simplify_eq.
  - exists []. by rewrite app_nil_r.
Qed.

(** [PostHogLLM.trace] is the constructor on options whose privacy is
    resolved. *)
Lemma PostHogLLM_trace_new (now : Z) (uuid : string) (o : TraceOptions.t) (w : World.t) :
  ∃ o', PostHogLLM_trace now uuid o w = Trace_new now uuid o'
        ∧ TraceOptions.userEmail o' = TraceOptions.userEmail o
        ∧ TraceOptions.distinctId o' = TraceOptions.distinctId o
        ∧ TraceOptions.properties o' = TraceOptions.properties o.
Proof. by eexists. Qed.

(** C3.  In a session that starts with a root unit made by its constructor
    (directly or through [PostHogLLM.trace]), after any sequence of calls (creations, updates and
    closing calls on any unit), every span, generation and embedding carries
    the subject identifier the root unit got at its construction, and every
    message captured since then was sent with it; a creation call ignores
    the [distinctId] of its options. *)
Theorem subject_identifier_inherited :
  ∀ now uuid o w t calls,
    Trace_new now uuid o = Ok t →
    let σ := run calls (session_of t w) in
    let d := Trace.distinctId t in
    Trace.distinctId (Session.root σ) = d
    ∧ Forall (λ s, Span.distinctId s = d) (Session.spans σ)
    ∧ Forall (λ g, Generation.distinctId g = d) (Session.generations σ)
    ∧ Forall (λ e, Embedding.distinctId e = d) (Session.embeddings σ)
    ∧ Forall (λ m, CaptureMessage.distinctId m = d) (emitted w (Session.world σ))
    ∧ (∀ now' uuid' o', ∃ s,
         Session.spans (step (TraceSpan now' uuid' o') σ) = Session.spans σ ++ [s]
         ∧ Span.distinctId s = d)
    ∧ (∀ now' o', ∃ g,
         Session.generations (step (TraceGeneration now' o') σ)
         = Session.generations σ ++ [g]
         ∧ Generation.distinctId g = d)
    ∧ (∀ now' o', ∃ e,
         Session.embeddings (step (TraceEmbedding now' o') σ)
         = Session.embeddings σ ++ [e]
         ∧ Embedding.distinctId e = d)
    ∧ (∀ i p now' uuid' o',
         Session.spans σ !! i = Some p →
         ∃ s, Session.spans (step (SpanSpan i now' uuid' o') σ) = Session.spans σ ++ [s]
              ∧ Span.distinctId s = d).
Proof.
  intros now uuid o w t calls Ht. simpl.
  pose proof (run_carries _ _ calls _ (Trace_new_carries _ _ _ w _ Ht)) as H.
  destruct (run calls (session_of t w)) as [root spans gens embs hid w'].
  destruct H as (Hd & Hroot & Hspans & Hgens & Hembs & new & Hcap & Hnew). simpl in *.
  repeat split; try done.
  - unfold emitted. by rewrite Hcap, drop_app_length.
  - intros now' uuid' o'.
    destruct (Trace_span_Ok now' uuid' o' root w') as (s & -> & Hs & _);
      [by rewrite Hroot|].
    exists s. split; [done|congruence].
  - intros now' o'.
    destruct (Trace_generation_Ok now' o' root w') as (g & -> & Hg & _);
      [by rewrite Hroot|].
    exists g. split; [done|congruence].
  - intros now' o'.
    destruct (Trace_embedding_Ok now' o' root w') as (e & -> & He & _);
      [by rewrite Hroot|].
    exists e. split; [done|congruence].
  - intros i p now' uuid' o' Hi. rewrite Hi.
    pose proof (Forall_lookup_1 _ _ _ _ Hspans Hi) as Hp. simpl in Hp.
    destruct (Span_span_Ok now' uuid' o' p w') as (s & -> & Hs & _);
      [by rewrite Hp|].
    exists s. split; [done|congruence].
Qed.

(** ** Sessions: inherited properties *)

Lemma spread_merge_of (h : list (gmap string string)) (a b : option loc) :
  merge_of (deref h a) (deref h b) (spread h a b).
Proof.
  intros k. unfold spread. rewrite lookup_union.
  by destruct (deref h b !! k), (deref h a !! k).
Qed.

Lemma allocated_alloc (m : gmap string string) (w : World.t) :
  allocated w (World_alloc m w).2 = [length (World.heap w)].
Proof.
  unfold allocated. simpl. rewrite length_app. simpl.
  by replace (length (World.heap w) + 1 - length (World.heap w))%nat with 1%nat by lia.
Qed.

(** A hidden property map reads the same after any further calls. *)
Lemma props_in_later (σ1 : Session.t) (later : list call) (l : loc) :
  hidden_ok σ1 → l ∈ Session.hidden σ1 →
  units_kept σ1 (run later σ1)
  ∧ props_in (Session.world (run later σ1)) (Some l) = props_in (Session.world σ1) (Some l).
Proof.
  intros Hok Hl. destruct (run_extends later σ1 Hok) as [[Hu Hs] _]. split; [done|].
  destruct (Hs l Hl) as [_ E]. unfold props_in, deref. by rewrite E.
Qed.

Lemma hidden_ok_session_of (t : Trace.t) (w : World.t) : hidden_ok (session_of t w).
Proof. by intros l Hl%elem_of_nil. Qed.

(** C1.  In a session that starts with a root unit made by its constructor
    (directly or through [PostHogLLM.trace]), after any sequence of calls: a child created from
    the root unit, or from a span, has at its creation the key-wise merge of
    the properties the parent has at that moment with the properties of the
    creation options, the options winning; and after any later calls
    (updates of the parent, and writes of the caller into the maps it holds,
    included) the property map of that child is the one it had at its
    creation. *)
Theorem child_properties_snapshot :
  ∀ now uuid o w t calls,
    Trace_new now uuid o = Ok t →
    let σ := run calls (session_of t w) in
    let w0 := Session.world σ in
    (∀ now' uuid' o',
       let σ1 := step (TraceSpan now' uuid' o') σ in
       ∃ c, Session.spans σ1 = Session.spans σ ++ [c]
         ∧ merge_of (props_in w0 (Trace.properties (Session.root σ)))
             (props_in w0 (SpanOptions.properties o'))
             (props_in (Session.world σ1) (Span.properties c))
         ∧ ∀ later, ∃ c',
             Session.spans (run later σ1) !! length (Session.spans σ) = Some c'
             ∧ props_in (Session.world (run later σ1)) (Span.properties c')
               = props_in (Session.world σ1) (Span.properties c))
    ∧ (∀ now' o',
         let σ1 := step (TraceGeneration now' o') σ in
         ∃ c, Session.generations σ1 = Session.generations σ ++ [c]
           ∧ merge_of (props_in w0 (Trace.properties (Session.root σ)))
               (props_in w0 (GenerationOptions.properties o'))
               (props_in (Session.world σ1) (Generation.properties c))
           ∧ ∀ later, ∃ c',
               Session.generations (run later σ1) !! length (Session.generations σ) = Some c'
               ∧ props_in (Session.world (run later σ1)) (Generation.properties c')
                 = props_in (Session.world σ1) (Generation.properties c))
    ∧ (∀ now' o',
         let σ1 := step (TraceEmbedding now' o') σ in
         ∃ c, Session.embeddings σ1 = Session.embeddings σ ++ [c]
           ∧ merge_of (props_in w0 (Trace.properties (Session.root σ)))
               (props_in w0 (EmbeddingOptions.properties o'))
               (props_in (Session.world σ1) (Embedding.properties c))
           ∧ ∀ later, ∃ c',
               Session.embeddings (run later σ1) !! length (Session.embeddings σ) = Some c'
               ∧ props_in (Session.world (run later σ1)) (Embedding.properties c')
                 = props_in (Session.world σ1) (Embedding.properties c))
    ∧ (∀ i p now' uuid' o',
         Session.spans σ !! i = Some p →
         let σ1 := step (SpanSpan i now' uuid' o') σ in
         ∃ c, Session.spans σ1 = Session.spans σ ++ [c]
           ∧ merge_of (props_in w0 (Span.properties p))
               (props_in w0 (SpanOptions.properties o'))
               (props_in (Session.world σ1) (Span.properties c))
           ∧ ∀ later, ∃ c',
               Session.spans (run later σ1) !! length (Session.spans σ) = Some c'
               ∧ props_in (Session.world (run later σ1)) (Span.properties c')
                 = props_in (Session.world σ1) (Span.properties c)).
Proof.
  intros now uuid o w t calls Ht. simpl.
  pose proof (run_carries _ _ calls _ (Trace_new_carries _ _ _ w _ Ht)) as H.
  destruct (run_extends calls _ (hidden_ok_session_of t w)) as [_ Hok].
  set (σ := run calls (session_of t w)) in *.
  assert (∀ c, hidden_ok (step c σ)) as Hok1 by (intros c; by apply step_store_kept).
  clearbody σ. destruct σ as [root spans gens embs hid w0].
  destruct H as (Hd & Hroot & Hspans & _). simpl in Hroot, Hspans.
  repeat apply conj.
  - intros now' uuid' o'. specialize (Hok1 (TraceSpan now' uuid' o')). revert Hok1.
    simpl.
    destruct (Trace_span_Ok now' uuid' o' root w0) as (c & -> & _ & Hc & _);
      [by rewrite Hroot|].
    rewrite allocated_alloc. intros Hok1.
    exists c. simpl. rewrite Hc. split; [done|]. split.
    + unfold props_in. simpl. rewrite list_lookup_middle by done. apply spread_merge_of.
    + intros later.
      match goal with |- context [run later ?s] => set (σ1 := s) in * end.
      destruct (props_in_later σ1 later (length (World.heap w0)) Hok1) as [(Hk & _) Hp].
      { simpl. apply elem_of_app. right. apply list_elem_of_here. }
      destruct (Hk (length spans) c) as (c' & Hc' & (_ & _ & _ & _ & Hp' & _)).
      { by apply list_lookup_middle. }
      exists c'. split; [done|]. by rewrite Hp', Hc.
  - intros now' o'. specialize (Hok1 (TraceGeneration now' o')). revert Hok1. simpl.
    destruct (Trace_generation_Ok now' o' root w0) as (c & -> & _ & Hc & _);
      [by rewrite Hroot|].
    rewrite allocated_alloc. intros Hok1.
    exists c. simpl. rewrite Hc. split; [done|]. split.
    + unfold props_in. simpl. rewrite list_lookup_middle by done. apply spread_merge_of.
    + intros later.
      match goal with |- context [run later ?s] => set (σ1 := s) in * end.
      destruct (props_in_later σ1 later (length (World.heap w0)) Hok1) as [(_ & Hk & _) Hp].
      { simpl. apply elem_of_app. right. apply list_elem_of_here. }
      destruct (Hk (length gens) c) as (c' & Hc' & (_ & _ & Hp' & _)).
      { by apply list_lookup_middle. }
      exists c'. split; [done|]. by rewrite Hp', Hc.
  - intros now' o'. specialize (Hok1 (TraceEmbedding now' o')). revert Hok1. simpl.
    destruct (Trace_embedding_Ok now' o' root w0) as (c & -> & _ & Hc & _);
      [by rewrite Hroot|].
    rewrite allocated_alloc. intros Hok1.
    exists c. simpl. rewrite Hc. split; [done|]. split.
    + unfold props_in. simpl. rewrite list_lookup_middle by done. apply spread_merge_of.
    + intros later.
      match goal with |- context [run later ?s] => set (σ1 := s) in * end.
      destruct (props_in_later σ1 later (length (World.heap w0)) Hok1) as [(_ & _ & Hk) Hp].
      { simpl. apply elem_of_app. right. apply list_elem_of_here. }
      destruct (Hk (length embs) c) as (c' & Hc' & (_ & _ & Hp' & _)).
      { by apply list_lookup_middle. }
      exists c'. split; [done|]. by rewrite Hp', Hc.
  - intros i p now' uuid' o' Hi.
    specialize (Hok1 (SpanSpan i now' uuid' o')). revert Hok1. simpl in *. rewrite Hi.
    pose proof (Forall_lookup_1 _ _ _ _ Hspans Hi) as Hp0. simpl in Hp0.
    destruct (Span_span_Ok now' uuid' o' p w0) as (c & -> & _ & Hc & _);
      [by rewrite Hp0|].
    rewrite allocated_alloc. intros Hok1.
    exists c. simpl. rewrite Hc. split; [done|]. split.
    + unfold props_in. simpl. rewrite list_lookup_middle by done. apply spread_merge_of.
    + intros later.
      match goal with |- context [run later ?s] => set (σ1 := s) in * end.
      destruct (props_in_later σ1 later (length (World.heap w0)) Hok1) as [(Hk & _) Hp].
      { simpl. apply elem_of_app. right. apply list_elem_of_here. }
      destruct (Hk (length spans) c) as (c' & Hc' & (_ & _ & _ & _ & Hp' & _)).
      { by apply list_lookup_middle. }
      exists c'. split; [done|]. by rewrite Hp', Hc.
Qed.

(** * Further properties *)

(** ** The client holder *)

(** X1.  Two calls of [init] in a row: the static options accumulate (a
    property the second argument does not have keeps the value of the
    first call; one it has with the value [undefined] is reset).  On a
    process without [window] the second call makes its client from its own
    argument, else from the environment, never from the first argument:
    with a key it returns and the client is the new one, without a key it
    throws and the client is left as the first call left it; the options
    are stored in both cases.  On a page with [window] both calls return
    and no client is made.  Neither call touches the store or the captured
    messages. *)
Theorem init_twice :
  ∀ a b w,
    let r1 := init a w in
    let r2 := init b r1.2 in
    let apiKey :=
      str_or (b ≫= λ o, prop_get (PostHogLLMOptions.apiKey o))
        (str_or (World.env_KEY w) "") in
    let host :=
      str_or (b ≫= λ o, prop_get (PostHogLLMOptions.host o))
        (str_or (World.env_HOST w) "https://us.i.posthog.com") in
    World.options r2.2 = options_spread (options_spread (World.options w) a) b
    ∧ (World.window_undefined w = true → apiKey ≠ "" →
         r2.1 = Ok tt ∧ World.client r2.2 = Some (PostHog.mk apiKey host 1))
    ∧ (World.window_undefined w = true → apiKey = "" →
         r2.1 = Throw "You must pass your PostHog project's api key."
         ∧ World.client r2.2 = World.client r1.2)
    ∧ (World.window_undefined w = false →
         r1.1 = Ok tt ∧ r2.1 = Ok tt ∧ World.client r2.2 = World.client w)
    ∧ (∀ o, b = Some o → PostHogLLMOptions.defaultPrivacyMode o = Absent →
         PostHogLLMOptions.defaultPrivacyMode (World.options r2.2)
         = PostHogLLMOptions.defaultPrivacyMode (World.options r1.2))
    ∧ (∀ o, b = Some o → PostHogLLMOptions.defaultPrivacyMode o = Present None →
         prop_get (PostHogLLMOptions.defaultPrivacyMode (World.options r2.2)) = None)
    ∧ World.heap r2.2 = World.heap w
    ∧ World.captured r2.2 = World.captured w.
Proof.
  intros a b w.
  assert (∀ k : string, truthy_str k = false ↔ k = "") as Hk.
  { intros k. unfold truthy_str. by destruct (String.eqb_spec k ""). }
  destruct w as [wu ek eh c o h cap]. unfold init, PostHog_new. simpl.
  destruct wu; simpl.
  - destruct (truthy_str (str_or (a ≫= _) _)); simpl;
      destruct (truthy_str (str_or (b ≫= _) _)) eqn:E; simpl; repeat split; try done;
      try (match goal with H : _ = "" |- _ => apply Hk in H; congruence end);
      try (match goal with H : _ ≠ "" |- _ => by apply Hk in E end);
      try (by intros ? -> H; simpl; rewrite H).
  - repeat split; try done; by intros ? -> H; simpl; rewrite H.
Qed.

(** X2.  [getClient] makes the client at most once: it returns a client
    that exists and changes nothing; on a page with [window] and without
    client it returns [null] and changes nothing.  On a process without
    [window] and without client it makes one from the environment alone
    when the environment gives a key, and throws, changing nothing, when it
    does not.  A second call behaves as the first and changes nothing
    more.  The static options, the store and the captured messages are
    never changed. *)
Theorem getClient_lazy :
  ∀ w,
    let r := getClient w in
    getClient r.2 = r
    ∧ (∀ c, World.client w = Some c → r = (Ok (Some c), w))
    ∧ (World.client w = None → World.window_undefined w = false → r = (Ok None, w))
    ∧ (World.client w = None → World.window_undefined w = true →
       ∀ k, World.env_KEY w = Some k → k ≠ "" →
         r.1 = Ok (Some (PostHog.mk k
                           (str_or (World.env_HOST w) "https://us.i.posthog.com") 1)))
    ∧ (World.client w = None → World.window_undefined w = true →
       str_or (World.env_KEY w) "" = "" →
         r = (Throw "You must pass your PostHog project's api key.", w))
    ∧ (∀ c, r.1 = Ok c → World.client r.2 = c)
    ∧ World.options r.2 = World.options w
    ∧ World.heap r.2 = World.heap w
    ∧ World.captured r.2 = World.captured w.
Proof.
  intros [wu ek eh [c|] [? ? ? ?] h cap]; unfold getClient, init, PostHog_new; simpl.
  - repeat split; try done; congruence.
  - destruct wu; simpl; [|repeat split; try done; congruence].
    destruct ek as [k|]; simpl; [|repeat split; try done; congruence].
    unfold str_or, truthy_str. destruct (String.eqb k "") eqn:E; simpl; rewrite ?E; simpl;
      repeat split; try done; try congruence.
    + apply String.eqb_eq in E. congruence.
    + apply String.eqb_neq in E. congruence.
Qed.

(** The fields of a trace other than its privacy flag. *)
Lemma Trace_new_privacy (now : Z) (uuid : string) (o : TraceOptions.t) (p : option bool) :
  let o' :=
    TraceOptions.mk (TraceOptions.id o) (TraceOptions.name o) (TraceOptions.inputState o)
      (TraceOptions.outputState o) p (TraceOptions.userEmail o) (TraceOptions.distinctId o)
      (TraceOptions.metadata o) (TraceOptions.properties o) (TraceOptions.isError o)
      (TraceOptions.error o) in
  match Trace_new now uuid o, Trace_new now uuid o' with
  | Ok t, Ok t' =>
      t' = Trace.mk (Trace.id t) (Trace.name t) (Trace.startTime t) (Trace.inputState t)
             (Trace.outputState t) (default false p) (Trace.distinctId t) (Trace.metadata t)
             (Trace.properties t) (Trace.isError t) (Trace.error t)
  | Throw m, Throw m' => m = m'
  | _, _ => False
  end.
Proof.
  unfold Trace_new. simpl.
  destruct (if_str (TraceOptions.userEmail o)); [done|].
  by destruct (if_str (TraceOptions.distinctId o)).
Qed.

(** X3.  [PostHogLLM.trace] and the constructor called directly succeed on
    the same options and make the same trace but for the privacy flag: the
    constructor takes the flag of the options, else false; the factory takes
    the flag of the options, else the configured default, else false.  So
    after [init] with a default privacy mode, on any process and also when
    [init] throws, the factory makes private traces from options without a
    flag, and the constructor does not; after [init] with the default
    privacy mode given as [undefined] the factory makes public ones. *)
Theorem trace_privacy_default :
  ∀ now uuid o w,
    ((∃ t, PostHogLLM_trace now uuid o w = Ok t) ↔ (∃ t, Trace_new now uuid o = Ok t))
    ∧ (∀ t t', PostHogLLM_trace now uuid o w = Ok t → Trace_new now uuid o = Ok t' →
         Trace.privacy t'
         = default false (TraceOptions.privacy o)
         ∧ Trace.privacy t
           = match TraceOptions.privacy o with
             | Some p => p
             | None =>
                 default false
                   (prop_get (PostHogLLMOptions.defaultPrivacyMode (World.options w)))
             end
         ∧ t = Trace.mk (Trace.id t') (Trace.name t') (Trace.startTime t')
                 (Trace.inputState t') (Trace.outputState t') (Trace.privacy t)
                 (Trace.distinctId t') (Trace.metadata t') (Trace.properties t')
                 (Trace.isError t') (Trace.error t'))
    ∧ (∀ io p t, PostHogLLMOptions.defaultPrivacyMode io = Present (Some p) →
         TraceOptions.privacy o = None →
         PostHogLLM_trace now uuid o (init (Some io) w).2 = Ok t →
         Trace.privacy t = p)
    ∧ (∀ io t, PostHogLLMOptions.defaultPrivacyMode io = Present None →
         TraceOptions.privacy o = None →
         PostHogLLM_trace now uuid o (init (Some io) w).2 = Ok t →
         Trace.privacy t = false).
Proof.
  intros now uuid o w. unfold PostHogLLM_trace.
  set (p := match TraceOptions.privacy o with
            | Some p => p
            | None =>
                default false
                  (prop_get (PostHogLLMOptions.defaultPrivacyMode (World.options w)))
            end).
  pose proof (Trace_new_privacy now uuid o (Some p)) as H. simpl in H.
  assert (∀ io, World.options (init (Some io) w).2
                = options_spread (World.options w) (Some io)) as Hinit.
  { intros io. unfold init. simpl.
    destruct (World.window_undefined w); [|done]. by destruct (PostHog_new _ _ _). }
  split; [|split; [|split]].
  - destruct (Trace_new now uuid o) as [t|m], (Trace_new now uuid _) as [t'|m'];
      try done; split; intros [? ?]; by eauto.
  - intros t t' Ht Ht'. rewrite Ht, Ht' in H. subst t. simpl. split; [|done].
    revert Ht'. unfold Trace_new. intros Ht'. repeat case_match; by simplify_eq.
  - intros io p' t Hio Ho. rewrite Ho, Hinit. simpl. rewrite Hio. simpl.
    unfold Trace_new. simpl. intros Ht. repeat case_match; by simplify_eq.
  - intros io t Hio Ho. rewrite Ho, Hinit. simpl. rewrite Hio. simpl.
    unfold Trace_new. simpl. intros Ht. repeat case_match; by simplify_eq.
Qed.

(** ** Constructors *)

Lemma if_str_None (a : option string) : if_str a = None ↔ a = None ∨ a = Some "".
Proof.
  destruct a as [s|]; unfold if_str, truthy_str; simpl; [|by split; eauto].
  destruct (String.eqb_spec s "") as [->|Hs]; simpl; split; try by eauto.
  intros [?|[= ?]]; done.
Qed.

Lemma if_str_Some (a : option string) (s : string) :
  if_str a = Some s ↔ a = Some s ∧ s ≠ "".
Proof.
  destruct a as [s'|]; unfold if_str, truthy_str; simpl; [|by split; [|intros [? _]]].
  destruct (String.eqb_spec s' "") as [->|Hs]; simpl; split; try done.
  - by intros [[= <-] ?].
  - by intros [= <-].
  - by intros [[= <-] _].
Qed.

(** X4.  The constructors of a span, a generation and an embedding throw,
    each with its own message, exactly when the options carry no distinct id
    or the empty string; otherwise they return a unit that carries that
    distinct id and starts at the current time.  Called through a trace
    that its constructor returned, or through a span made this way, they
    never throw, whatever the options. *)
Theorem child_constructors :
  (∀ now uuid tid pid o,
     (Span_new now uuid tid pid o = Throw "Span must have a distinctId (passed from trace)"
      ↔ SpanOptions.distinctId o = None ∨ SpanOptions.distinctId o = Some "")
     ∧ (∀ s, Span_new now uuid tid pid o = Ok s →
          SpanOptions.distinctId o = Some (Span.distinctId s)
          ∧ Span.distinctId s ≠ "" ∧ Span.startTime s = now
          ∧ Span.traceId s = tid ∧ Span.parentId s = pid)
     ∧ ((∃ s, Span_new now uuid tid pid o = Ok s)
        ∨ Span_new now uuid tid pid o
          = Throw "Span must have a distinctId (passed from trace)"))
  ∧ (∀ now tid o,
       (Generation_new now tid o
        = Throw "Generation must have a distinctId (passed from trace)"
        ↔ GenerationOptions.distinctId o = None ∨ GenerationOptions.distinctId o = Some "")
       ∧ (∀ g, Generation_new now tid o = Ok g →
            GenerationOptions.distinctId o = Some (Generation.distinctId g)
            ∧ Generation.distinctId g ≠ "" ∧ Generation.startTime g = now
            ∧ Generation.traceId g = tid))
  ∧ (∀ now tid o,
       (Embedding_new now tid o
        = Throw "Embedding must have a distinctId (passed from trace)"
        ↔ EmbeddingOptions.distinctId o = None ∨ EmbeddingOptions.distinctId o = Some "")
       ∧ (∀ e, Embedding_new now tid o = Ok e →
            EmbeddingOptions.distinctId o = Some (Embedding.distinctId e)
            ∧ Embedding.distinctId e ≠ "" ∧ Embedding.startTime e = now
            ∧ Embedding.traceId e = tid))
  ∧ (∀ now uuid o t,
       Trace_new now uuid o = Ok t →
       ∀ w now' uuid' so go eo,
         (∃ s w', Trace_span now' uuid' so t w = Ok (s, w')
                  ∧ ∀ uuid'' so' w'', ∃ c w3, Span_span now' uuid'' so' s w'' = Ok (c, w3))
         ∧ (∃ g w', Trace_generation now' go t w = Ok (g, w'))
         ∧ (∃ e w', Trace_embedding now' eo t w = Ok (e, w'))).
Proof.
  split; [|split; [|split]].
  - intros now uuid tid pid o. unfold Span_new. rewrite <- if_str_None.
    destruct (if_str (SpanOptions.distinctId o)) as [d|] eqn:E.
    + apply if_str_Some in E as [E Hd]. split; [by split|]. split; [|by eauto].
      by intros s [= <-].
    + split; [by split|]. split; [done|by right].
  - intros now tid o. unfold Generation_new. rewrite <- if_str_None.
    destruct (if_str (GenerationOptions.distinctId o)) as [d|] eqn:E.
    + apply if_str_Some in E as [E Hd]. split; [by split|]. by intros g [= <-].
    + by split.
  - intros now tid o. unfold Embedding_new. rewrite <- if_str_None.
    destruct (if_str (EmbeddingOptions.distinctId o)) as [d|] eqn:E.
    + apply if_str_Some in E as [E Hd]. split; [by split|]. by intros e [= <-].
    + by split.
  - intros now uuid o t Ht w now' uuid' so go eo.
    assert (truthy_str (Trace.distinctId t) = true) as Hd.
    { by destruct (Trace_new_carries now uuid o w t Ht) as (Hd & _). }
    split; [|split].
    + destruct (Trace_span_Ok now' uuid' so t w Hd) as (s & Hs & Hsd & _).
      exists s. eexists. split; [exact Hs|]. intros uuid'' so' w''.
      destruct (Span_span_Ok now' uuid'' so' s w'') as (c & Hc & _); [by rewrite Hsd|].
      by eauto.
    + destruct (Trace_generation_Ok now' go t w Hd) as (g & Hg & _). by eauto.
    + destruct (Trace_embedding_Ok now' eo t w Hd) as (e & He & _). by eauto.
Qed.

(** X5.  The id of a trace or of a span is the id of the options when that
    is a non-empty string, and the generated one otherwise (an empty id is
    replaced); so with a generator that returns non-empty strings no unit
    has an empty id, and the getters return that id. *)
Theorem unit_ids :
  (∀ now uuid o t,
     Trace_new now uuid o = Ok t →
     (∀ i, TraceOptions.id o = Some i → i ≠ "" → Trace_getId t = i)
     ∧ (TraceOptions.id o = None ∨ TraceOptions.id o = Some "" → Trace_getId t = uuid)
     ∧ (uuid ≠ "" → Trace_getId t ≠ "")
     ∧ Trace_traceId t = Trace_getId t)
  ∧ (∀ now uuid tid pid o s,
       Span_new now uuid tid pid o = Ok s →
       (∀ i, SpanOptions.id o = Some i → i ≠ "" → Span_getId s = i)
       ∧ (SpanOptions.id o = None ∨ SpanOptions.id o = Some "" → Span_getId s = uuid)
       ∧ (uuid ≠ "" → Span_getId s ≠ "")
       ∧ Span_spanId s = Span_getId s).
Proof.
  assert (∀ (a : option string) (uuid : string),
            (∀ i, a = Some i → i ≠ "" → str_or a uuid = i)
            ∧ (a = None ∨ a = Some "" → str_or a uuid = uuid)
            ∧ (uuid ≠ "" → str_or a uuid ≠ "")) as Hor.
  { intros a uuid. unfold str_or, truthy_str. destruct a as [i|]; simpl.
    - destruct (String.eqb_spec i "") as [->|Hi]; simpl; repeat split; try done.
      + by intros ? [= <-].
      + by intros ? [= <-].
      + intros [?|[= ?]]; done.
    - repeat split; done. }
  split.
  - intros now uuid o t Ht.
    assert (Trace.id t = str_or (TraceOptions.id o) uuid) as Hid.
    { revert Ht. unfold Trace_new. intros Ht. repeat case_match; by simplify_eq. }
    unfold Trace_getId, Trace_traceId. rewrite Hid.
    destruct (Hor (TraceOptions.id o) uuid) as (H1 & H2 & H3). by repeat split.
  - intros now uuid tid pid o s Hs.
    assert (Span.id s = str_or (SpanOptions.id o) uuid) as Hid.
    { revert Hs. unfold Span_new. intros Hs. repeat case_match; by simplify_eq. }
    unfold Span_getId, Span_spanId. rewrite Hid.
    destruct (Hor (SpanOptions.id o) uuid) as (H1 & H2 & H3). by repeat split.
Qed.

(** ** Updates *)

(** X6.  An update changes only what its argument gives with a truthy
    value (for the flags: a defined one).  With a name that is absent or
    empty, an error that is absent or the empty string and nothing else
    that the method reads, the unit is left as it was, whatever the
    argument holds in the fields the method does not read: the id, the user
    email and the distinct id for a trace; the id, the distinct id and the
    properties for a span; the latency, the distinct id and the properties
    for a generation.  For a trace no object is allocated then. *)
Theorem update_without_effect :
  (∀ o t w,
     if_str (PartialTraceOptions.name o) = None →
     PartialTraceOptions.inputState o = None →
     PartialTraceOptions.outputState o = None →
     PartialTraceOptions.properties o = None →
     PartialTraceOptions.metadata o = None →
     PartialTraceOptions.privacy o = None →
     PartialTraceOptions.isError o = None →
     falsy_error (PartialTraceOptions.error o) →
     Trace_update o t w = (t, w))
  ∧ (∀ o s,
       if_str (PartialSpanOptions.name o) = None →
       PartialSpanOptions.inputState o = None →
       PartialSpanOptions.outputState o = None →
       PartialSpanOptions.metadata o = None →
       PartialSpanOptions.isError o = None →
       falsy_error (PartialSpanOptions.error o) →
       Span_update o s = s)
  ∧ (∀ o g,
       if_str (PartialGenerationOptions.name o) = None →
       if_str (PartialGenerationOptions.model o) = None →
       if_str (PartialGenerationOptions.provider o) = None →
       truthy (PartialGenerationOptions.input o) = false →
       truthy (PartialGenerationOptions.output o) = false →
       PartialGenerationOptions.inputTokens o = None →
       PartialGenerationOptions.outputTokens o = None →
       PartialGenerationOptions.httpStatus o = None →
       if_str (PartialGenerationOptions.baseUrl o) = None →
       PartialGenerationOptions.metadata o = None →
       PartialGenerationOptions.isError o = None →
       falsy_error (PartialGenerationOptions.error o) →
       Generation_update o g = g).
Proof.
  assert (∀ a x, if_str a = None → assign_if_str a x = x) as Hstr.
  { intros a x. unfold assign_if_str, str_or, if_str.
    destruct a as [s|]; [|done]. by destruct (truthy_str s). }
  assert (∀ e x, falsy_error e → assign_if_error e x = x) as Herr.
  { intros e x. unfold falsy_error, assign_if_error.
    destruct e as [e|]; [|done]. by intros ->. }
  split; [|split].
  - intros o [] w Hn Hi Ho Hp Hm Hpr Hie He. unfold Trace_update. simpl.
    rewrite Hp, Hi, Ho, Hm, Hpr, Hie. simpl. by rewrite Hstr, Herr.
  - intros o [] Hn Hi Ho Hm Hie He. unfold Span_update. simpl.
    rewrite Hi, Ho, Hm, Hie. simpl. by rewrite Hstr, Herr.
  - intros o [] Hn Hmo Hpv Hin Hout Hit Hot Hh Hb Hm Hie He.
    unfold Generation_update, assign_if_value, assign_if_ostr. simpl.
    rewrite Hin, Hout, Hit, Hot, Hh, Hb, Hm, Hie. simpl. by rewrite !Hstr, Herr.
Qed.

(** X7.  [Trace.update] with properties builds a new object that holds the
    key-wise merge of the properties the trace had with the given ones, the
    given ones winning; no object that existed is written (neither the map
    the trace had nor the one the caller gives), and nothing is captured.
    Without properties the trace keeps its reference and the store is left
    alone. *)
Theorem trace_update_properties :
  ∀ o t w,
    let t' := (Trace_update o t w).1 in
    let w' := (Trace_update o t w).2 in
    (∀ p, PartialTraceOptions.properties o = Some p →
       Trace.properties t' = Some (length (World.heap w))
       ∧ merge_of (props_in w (Trace.properties t)) (props_in w (Some p))
           (props_in w' (Trace.properties t'))
       ∧ World.heap w' = World.heap w ++ [props_in w' (Trace.properties t')])
    ∧ (PartialTraceOptions.properties o = None →
         Trace.properties t' = Trace.properties t ∧ w' = w)
    ∧ (∀ l, (l < length (World.heap w))%nat → World.heap w' !! l = World.heap w !! l)
    ∧ World.captured w' = World.captured w.
Proof.
  intros o t w. unfold Trace_update.
  destruct (PartialTraceOptions.properties o) as [p|]; simpl.
  - split; [|split; [done|split; [|done]]].
    + intros ? [= <-]. split; [done|]. unfold props_in. simpl.
      rewrite list_lookup_middle by done. simpl. split; [|done].
      apply spread_merge_of.
    + intros l Hl. by apply lookup_app_l.
  - split; [done|]. split; [|done]. by destruct w.
Qed.

Lemma Generation_updates_fixed (updates : list PartialGenerationOptions.t)
    (g : Generation.t) :
  Generation_fixed g (Generation_updates updates g)
  ∧ Generation.latency (Generation_updates updates g) = Generation.latency g.
Proof.
  revert g. induction updates as [|o rest IH]; intros g; simpl.
  - split; [apply Generation_fixed_refl|done].
  - destruct (IH (Generation_update o g)) as [(H1 & H2 & H3 & H4) H5].
    split; [by repeat split|done].
Qed.

Lemma written_not_key (k : string) (fields : list (string * value)) :
  k ∉ keys fields → written k fields = None.
Proof.
  induction fields as [|[k' v] rest IH]; simpl; [done|].
  rewrite not_elem_of_cons. intros [Hne Hrest]. rewrite (IH Hrest).
  by destruct (String.eqb_spec k' k).
Qed.

(** A key outside the names of a class is outside its literal and outside
    its assignments. *)
Ltac subset_keys_tac Hk :=
  let Hin := fresh "Hin" in
  intros Hin; apply Hk; revert Hin;
  unfold keys, Span_keys, Generation_keys; simpl;
  rewrite !elem_of_cons, !elem_of_nil; tauto.

(** X8.  [Span.update] and [Generation.update] do not read the properties
    of their argument: after any updates, even ones that carry properties,
    the unit holds the property map of its creation, and, when a client is
    available, the closing call captures exactly one event in which every
    key that is not one of the names the closing call writes is exactly the
    custom property of that map (absent when the map has no such key). *)
Theorem child_update_ignores_properties :
  (∀ updates s now o w k,
     let s' := Span_updates updates s in
     Span.properties s' = Span.properties s
     ∧ (has_client w = true → k ∉ Span_keys →
          emits_field w (Span_end now o s' w).1.2 k
            (VStr <$> props_in w (Span.properties s) !! k)))
  ∧ (∀ updates g now o w k,
       let g' := Generation_updates updates g in
       Generation.properties g' = Generation.properties g
       ∧ (has_client w = true → k ∉ Generation_keys →
            emits_field w (Generation_end now o g' w).1.2 k
              (VStr <$> props_in w (Generation.properties g) !! k))).
Proof.
  split.
  - intros updates s now o w k. simpl.
    destruct (Span_updates_fixed updates s) as (_ & _ & _ & _ & Hp & _).
    split; [done|]. intros Hh Hk.
    destruct (Span_end_closes now o (Span_updates updates s) w) as [_ Hc].
    eapply emits_intro; [exact Hh|exact Hc|]. rewrite Span_field.
    destruct (Span_apply_end_fixed o (Span_updates updates s)) as (_ & _ & _ & _ & Hp' & _).
    rewrite Hp', Hp. unfold props_in.
    rewrite assigned_not_key, written_not_key; [by destruct (deref _ _ !! k)| |];
      subset_keys_tac Hk.
  - intros updates g now o w k. simpl.
    destruct (Generation_updates_fixed updates g) as [(_ & _ & Hp & _) _].
    split; [done|]. intros Hh Hk.
    destruct (Generation_end_closes now o (Generation_updates updates g) w) as [_ Hc].
    eapply emits_intro; [exact Hh|exact Hc|]. rewrite Generation_field.
    destruct (Generation_apply_end_fixed now o (Generation_updates updates g))
      as (_ & _ & Hp' & _).
    rewrite Hp', Hp. unfold props_in.
    rewrite assigned_not_key, written_not_key; [by destruct (deref _ _ !! k)| |];
      subset_keys_tac Hk.
Qed.

(** ** Metadata *)

Lemma existsb_keys (k : string) (o : obj) :
  existsb (String.eqb k) o.*1 = bool_decide (k ∈ keys o).
Proof.
  unfold keys. induction o as [|[k0 v0] rest IH]; [done|].
  rewrite fmap_cons. cbn [fst existsb]. rewrite IH.
  destruct (String.eqb_spec k k0) as [->|Hne]; simpl.
  - symmetry. apply bool_decide_eq_true_2, list_elem_of_here.
  - case_bool_decide as Hin.
    + symmetry. by apply bool_decide_eq_true_2, list_elem_of_further.
    + symmetry. apply bool_decide_eq_false_2. by intros [?|?]%elem_of_cons.
Qed.

Lemma obj_get_replace (k k' : string) (v : value) (o : obj) :
  k ∈ keys o →
  obj_get k' (obj_replace k v o) = if String.eqb k' k then Some v else obj_get k' o.
Proof.
  unfold keys. induction o as [|[k0 v0] rest IH]; [by intros ?%elem_of_nil|].
  rewrite fmap_cons. cbn [fst obj_replace obj_get]. intros Hin.
  destruct (String.eqb_spec k k0) as [<-|Hne]; cbn [obj_get].
  - by destruct (String.eqb_spec k' k).
  - apply elem_of_cons in Hin as [?|Hin]; [done|]. rewrite (IH Hin).
    destruct (String.eqb_spec k' k0) as [->|]; [|done].
    by destruct (String.eqb_spec k0 k) as [->|].
Qed.

Lemma obj_get_add (k k' : string) (v : value) (o : obj) :
  k ∉ keys o →
  obj_get k' (obj_add k v o) = if String.eqb k' k then Some v else obj_get k' o.
Proof.
  unfold keys. induction o as [|[k0 v0] rest IH]; [done|].
  rewrite fmap_cons. cbn [fst obj_add obj_get]. rewrite not_elem_of_cons. intros [Hne Hin].
  destruct (goes_before k k0); cbn [obj_get]; [done|]. rewrite (IH Hin).
  destruct (String.eqb_spec k' k0) as [->|]; [|done].
  by destruct (String.eqb_spec k0 k) as [->|].
Qed.

Lemma obj_get_set (k k' : string) (v : value) (o : obj) :
  obj_get k' (obj_set k v o) = if String.eqb k' k then Some v else obj_get k' o.
Proof.
  unfold obj_set. rewrite existsb_keys. case_bool_decide.
  - by apply obj_get_replace.
  - by apply obj_get_add.
Qed.

Lemma obj_get_not_key (k : string) (o : obj) : k ∉ keys o → obj_get k o = None.
Proof.
  induction o as [|[k0 v0] rest IH]; simpl; [done|].
  rewrite not_elem_of_cons. intros [Hne Hrest].
  destruct (String.eqb_spec k k0); [done|by apply IH].
Qed.

Lemma keys_obj_replace (k : string) (v : value) (o : obj) :
  k ∈ keys o → keys (obj_replace k v o) = keys o.
Proof.
  unfold keys. induction o as [|[k0 v0] rest IH]; [done|].
  rewrite fmap_cons. cbn [fst obj_replace]. intros Hin.
  destruct (String.eqb_spec k k0) as [<-|Hne]; [done|].
  apply elem_of_cons in Hin as [?|Hin]; [done|].
  rewrite fmap_cons. cbn [fst]. by rewrite (IH Hin).
Qed.

Lemma keys_obj_add (k : string) (v : value) (o : obj) :
  keys (obj_add k v o) ≡ₚ k :: keys o
  ∧ keys o `sublist_of` keys (obj_add k v o).
Proof.
  unfold keys. induction o as [|[k0 v0] rest [IH1 IH2]].
  - split; [done|]. apply sublist_nil_l.
  - cbn [obj_add]. destruct (goes_before k k0).
    + split; [done|]. by apply sublist_cons.
    + rewrite !fmap_cons. cbn [fst]. split.
      * rewrite IH1. apply Permutation_swap.
      * by apply sublist_skip.
Qed.

Lemma goes_before_asym (k k' : string) :
  goes_before k k' = true → goes_before k' k = false.
Proof.
  unfold goes_before. destruct (array_index k), (array_index k'); try done.
  rewrite N.ltb_lt, N.ltb_ge. lia.
Qed.

Lemma goes_before_trans (x k k' : string) :
  goes_before k k' = true → goes_before x k' = false → goes_before x k = false.
Proof.
  unfold goes_before.
  destruct (array_index x), (array_index k), (array_index k'); try done.
  rewrite N.ltb_lt, !N.ltb_ge. lia.
Qed.

Lemma js_ordered_obj_add (k : string) (v : value) (o : obj) :
  js_ordered (keys o) → js_ordered (keys (obj_add k v o)).
Proof.
  unfold keys. induction o as [|[k0 v0] rest IH].
  - by split.
  - rewrite fmap_cons. cbn [fst obj_add js_ordered]. intros [Hall Hrest].
    destruct (goes_before k k0) eqn:E.
    + rewrite !fmap_cons. cbn [fst js_ordered]. split; [|done]. constructor.
      * by apply goes_before_asym.
      * eapply Forall_impl; [exact Hall|]. intros x Hx. simpl in Hx.
        by eapply goes_before_trans.
    + rewrite fmap_cons. cbn [fst js_ordered]. split; [|by apply IH].
      destruct (keys_obj_add k v rest) as [Hperm _]. unfold keys in Hperm.
      rewrite Hperm. by constructor.
Qed.

Lemma obj_set_keys (k : string) (v : value) (o : obj) :
  (NoDup (keys o) → NoDup (keys (obj_set k v o)))
  ∧ keys o `sublist_of` keys (obj_set k v o)
  ∧ (js_ordered (keys o) → js_ordered (keys (obj_set k v o))).
Proof.
  unfold obj_set. rewrite existsb_keys. case_bool_decide as Hin.
  - by rewrite keys_obj_replace.
  - destruct (keys_obj_add k v o) as [Hperm Hsub]. split; [|split].
    + intros Hnd. rewrite Hperm. by apply NoDup_cons.
    + done.
    + apply js_ordered_obj_add.
Qed.

Lemma obj_spread_get (a b : obj) (k : string) :
  NoDup (keys b) →
  obj_get k (fold_left (λ acc kv, obj_set kv.1 kv.2 acc) b a)
  = match obj_get k b with Some v => Some v | None => obj_get k a end.
Proof.
  revert a. induction b as [|[k0 v0] rest IH]; intros a; simpl; [done|].
  rewrite NoDup_cons. intros [Hfresh Hnd]. rewrite (IH _ Hnd), obj_get_set.
  destruct (String.eqb_spec k k0) as [->|]; [|done].
  by rewrite (obj_get_not_key _ _ Hfresh).
Qed.

Lemma obj_spread_keys (a b : obj) :
  (NoDup (keys a) → NoDup (keys (fold_left (λ acc kv, obj_set kv.1 kv.2 acc) b a)))
  ∧ keys a `sublist_of` keys (fold_left (λ acc kv, obj_set kv.1 kv.2 acc) b a)
  ∧ (js_ordered (keys a) →
       js_ordered (keys (fold_left (λ acc kv, obj_set kv.1 kv.2 acc) b a))).
Proof.
  revert a. induction b as [|[k0 v0] rest IH]; intros a; simpl; [done|].
  destruct (obj_set_keys k0 v0 a) as (H1 & H2 & H3).
  destruct (IH (obj_set k0 v0 a)) as (I1 & I2 & I3).
  split; [by auto|]. split; [by etrans|by auto].
Qed.

Lemma Trace_update_has_client (o : PartialTraceOptions.t) (t : Trace.t) (w : World.t) :
  has_client (Trace_update o t w).2 = has_client w.
Proof. unfold Trace_update. by destruct (PartialTraceOptions.properties o). Qed.

(** X9.  An update with metadata [m] (an object, so with distinct keys)
    replaces the metadata by [{ ...old, ...m }]: each key of [m] reads the
    value of [m], every other key reads what it read before; no key is
    doubled, the keys the unit had keep their order among themselves, and
    the merged object lists its keys as JavaScript does (array indices
    first, in ascending order, then the other names in the order of their
    creation) when the old one did.  An update without metadata leaves the
    metadata as it is.  The three [update] methods do the same, and a
    trace closed after such an update, when a client is available, emits
    one event whose [$ai_metadata] is the text of the merged object. *)
Theorem metadata_merge :
  (∀ a m,
     NoDup (keys m) →
     (∀ k, obj_get k (obj_spread a (Some m))
           = match obj_get k m with Some v => Some v | None => obj_get k (default [] a) end)
     ∧ (NoDup (keys (default [] a)) → NoDup (keys (obj_spread a (Some m))))
     ∧ keys (default [] a) `sublist_of` keys (obj_spread a (Some m))
     ∧ (js_ordered (keys (default [] a)) → js_ordered (keys (obj_spread a (Some m)))))
  ∧ (∀ o t w,
       Trace.metadata (Trace_update o t w).1
       = match PartialTraceOptions.metadata o with
         | Some m => Some (obj_spread (Trace.metadata t) (Some m))
         | None => Trace.metadata t
         end)
  ∧ (∀ o s,
       Span.metadata (Span_update o s)
       = match PartialSpanOptions.metadata o with
         | Some m => Some (obj_spread (Span.metadata s) (Some m))
         | None => Span.metadata s
         end)
  ∧ (∀ o g,
       Generation.metadata (Generation_update o g)
       = match PartialGenerationOptions.metadata o with
         | Some m => Some (obj_spread (Generation.metadata g) (Some m))
         | None => Generation.metadata g
         end)
  ∧ (∀ o t w m now eo,
       PartialTraceOptions.metadata o = Some m →
       has_client w = true →
       let r := Trace_update o t w in
       emits_field r.2 (Trace_end now eo r.1 r.2).1.2 "$ai_metadata"
         (Some (VStr (json_text (VObj (obj_spread (Trace.metadata t) (Some m))))))).
Proof.
  assert (∀ o t w,
            Trace.metadata (Trace_update o t w).1
            = match PartialTraceOptions.metadata o with
              | Some m => Some (obj_spread (Trace.metadata t) (Some m))
              | None => Trace.metadata t
              end) as HT.
  { intros o t w. unfold Trace_update. by destruct (PartialTraceOptions.properties o). }
  split; [|split; [|split; [|split]]]; try done.
  - intros a m Hm. unfold obj_spread. simpl. split.
    + intros k. by apply obj_spread_get.
    + apply obj_spread_keys.
  - intros o t w m now eo Hm Hh. simpl.
    destruct (Trace_end_closes now eo (Trace_update o t w).1 (Trace_update o t w).2)
      as [_ Hc].
    eapply emits_intro; [by rewrite Trace_update_has_client|exact Hc|].
    rewrite Trace_field. simpl.
    assert (Trace.metadata (Trace_apply_end eo (Trace_update o t w).1)
            = Some (obj_spread (Trace.metadata t) (Some m))) as ->.
    { rewrite <- Hm. specialize (HT o t w). rewrite Hm in HT. rewrite Hm, <- HT.
      by destruct eo. }
    done.
Qed.

(** ** Latency and counters *)

Lemma Trace_updates_fixed (updates : list PartialTraceOptions.t) (t : Trace.t) (w : World.t) :
  Trace.id (Trace_updates updates t w).1 = Trace.id t
  ∧ Trace.distinctId (Trace_updates updates t w).1 = Trace.distinctId t
  ∧ Trace.startTime (Trace_updates updates t w).1 = Trace.startTime t.
Proof.
  unfold Trace_updates. revert t w. induction updates as [|o rest IH]; intros t w; simpl.
  - done.
  - destruct (Trace_update o t w) as [t' w'] eqn:E.
    assert (Trace.id t' = Trace.id t ∧ Trace.distinctId t' = Trace.distinctId t
            ∧ Trace.startTime t' = Trace.startTime t) as (H1 & H2 & H3).
    { revert E. unfold Trace_update.
      destruct (PartialTraceOptions.properties o); by intros [= <- _]. }
    destruct (IH t' w') as (I1 & I2 & I3). simpl. repeat split; congruence.
Qed.

Lemma Trace_updates_has_client (updates : list PartialTraceOptions.t) (t : Trace.t)
    (w : World.t) :
  has_client (Trace_updates updates t w).2 = has_client w.
Proof.
  unfold Trace_updates. revert t w. induction updates as [|o rest IH]; intros t w; simpl.
  - done.
  - destruct (Trace_update o t w) as [t' w'] eqn:E. rewrite IH. simpl.
    by rewrite <- (Trace_update_has_client o t w), E.
Qed.

Lemma seconds_sign (startTime endTime : Z) :
  (startTime ≤ endTime → (0 <= seconds startTime endTime)%Q)
  ∧ (endTime < startTime → (seconds startTime endTime < 0)%Q).
Proof. unfold seconds, Qle, Qlt. simpl. lia. Qed.

(** X10.  The latency a trace or a span emits is measured from the reading
    of the clock at its construction: in the one event the closing call
    captures when a client is available it is (now - start) / 1000 for the
    start the constructor read, after any updates (which cannot move the
    start), unless a custom property named [$ai_latency] replaces it.  It is
    not clamped: it is non-negative when the clock has not gone back, and
    negative when it has. *)
Theorem latency_from_construction :
  (∀ now0 uuid o t,
     Trace_new now0 uuid o = Ok t →
     ∀ updates w now eo,
       let r := Trace_updates updates t w in
       Trace.startTime r.1 = now0
       ∧ (has_client w = true →
          emits_field r.2 (Trace_end now eo r.1 r.2).1.2 "$ai_latency"
            (Some (default (VNum (seconds now0 now))
                     (VStr <$> props_in r.2 (Trace.properties (Trace_end now eo r.1 r.2).1.1)
                               !! "$ai_latency"))))
       ∧ (now0 ≤ now → (0 <= seconds now0 now)%Q)
       ∧ (now < now0 → (seconds now0 now < 0)%Q))
  ∧ (∀ now0 uuid tid pid o s,
       Span_new now0 uuid tid pid o = Ok s →
       ∀ updates w now eo,
         let s' := Span_updates updates s in
         Span.startTime s' = now0
         ∧ (has_client w = true →
            emits_field w (Span_end now eo s' w).1.2 "$ai_latency"
              (Some (default (VNum (seconds now0 now))
                       (VStr <$> props_in w (Span.properties (Span_end now eo s' w).1.1)
                                 !! "$ai_latency"))))).
Proof.
  split.
  - intros now0 uuid o t Ht updates w now eo. simpl.
    assert (Trace.startTime t = now0) as H0.
    { revert Ht. unfold Trace_new. intros Ht. repeat case_match; by simplify_eq. }
    destruct (Trace_updates_fixed updates t w) as (_ & _ & Hs). rewrite H0 in Hs.
    split; [done|]. split; [|apply seconds_sign]. intros Hh.
    destruct (Trace_end_closes now eo (Trace_updates updates t w).1
                (Trace_updates updates t w).2) as [-> Hc].
    eapply emits_intro; [by rewrite Trace_updates_has_client|exact Hc|]. rewrite Trace_field, Hs. simpl.
    unfold props_in. by repeat case_match.
  - intros now0 uuid tid pid o s Hs updates w now eo. simpl.
    assert (Span.startTime s = now0) as H0.
    { revert Hs. unfold Span_new. intros Hs. repeat case_match; by simplify_eq. }
    destruct (Span_updates_fixed updates s) as (_ & _ & _ & _ & _ & Hst). rewrite H0 in Hst.
    split; [done|]. intros Hh.
    destruct (Span_end_closes now eo (Span_updates updates s) w) as [-> Hc].
    eapply emits_intro; [exact Hh|exact Hc|]. rewrite Span_field, Hst. simpl.
    unfold props_in. by repeat case_match.
Qed.

Ltac fields_tac :=
  repeat match goal with
    | |- context [_ <$> ?x] => destruct x eqn:?; simpl
    end;
  try done.

(** X11.  When a client is available, closing a generation or an embedding
    captures exactly one event, in which the counters are written after the
    custom properties, whenever they are defined (zero included).
    The input tokens are those the unit held before the closing call: the
    closing methods do not read [inputTokens] of their argument.  The output
    tokens and the HTTP status are those of the argument when it gives them,
    else those held.  The base URL is written only when it is a non-empty
    string, and the closing call cannot change it.  A field that is not
    written holds the custom property of its name, if any. *)
Theorem counters_emitted :
  (∀ now o g w,
     has_client w = true →
     let g' := (Generation_end now o g w).1.1 in
     let w' := (Generation_end now o g w).1.2 in
     let custom := props_in w (Generation.properties g') in
     emits_field w w' "$ai_input_tokens"
       (written_or_custom (VNum <$> Generation.inputTokens g) custom "$ai_input_tokens")
     ∧ emits_field w w' "$ai_output_tokens"
         (written_or_custom
            (VNum <$> assign_if (o ≫= GenerationEndOptions.outputTokens)
                        (Generation.outputTokens g))
            custom "$ai_output_tokens")
     ∧ emits_field w w' "$ai_http_status"
         (written_or_custom
            (VNum <$> assign_if (o ≫= GenerationEndOptions.httpStatus)
                        (Generation.httpStatus g))
            custom "$ai_http_status")
     ∧ emits_field w w' "$ai_base_url"
         (written_or_custom (VStr <$> if_str (Generation.baseUrl g)) custom "$ai_base_url"))
  ∧ (∀ now o e w,
       has_client w = true →
       let e' := (Embedding_end now o e w).1.1 in
       let w' := (Embedding_end now o e w).1.2 in
       let custom := props_in w (Embedding.properties e') in
       emits_field w w' "$ai_input_tokens"
         (written_or_custom (VNum <$> Embedding.inputTokens e) custom "$ai_input_tokens")
       ∧ emits_field w w' "$ai_http_status"
           (written_or_custom
              (VNum <$> assign_if (o ≫= EmbeddingEndOptions.httpStatus)
                          (Embedding.httpStatus e))
              custom "$ai_http_status")
       ∧ emits_field w w' "$ai_base_url"
           (written_or_custom (VStr <$> if_str (Embedding.baseUrl e)) custom "$ai_base_url")).
Proof.
  split.
  - intros now o g w Hh. simpl.
    destruct (Generation_end_closes now o g w) as [-> Hc].
    split; [|split; [|split]];
      (eapply emits_intro; [exact Hh|exact Hc|]); rewrite Generation_field;
      unfold written_or_custom, props_in; destruct o as [o|]; simpl;
      fields_tac.
  - intros now o e w Hh. simpl.
    destruct (Embedding_end_closes now o e w) as [-> Hc].
    split; [|split];
      (eapply emits_intro; [exact Hh|exact Hc|]); rewrite Embedding_field;
      unfold written_or_custom, props_in; destruct o as [o|]; simpl;
      fields_tac.
Qed.

(** X12.  The [latency] of the creation options of a generation or an
    embedding, and of the updates of a generation, is never read: the unit
    has no latency until it is closed, and closed without a latency in the
    end options it gets the time measured from its construction. *)
Theorem creation_latency_ignored :
  (∀ now0 o t w g w1,
     Trace_generation now0 o t w = Ok (g, w1) →
     Generation.latency g = None
     ∧ ∀ updates now eo w2,
         eo ≫= GenerationEndOptions.latency = None →
         Generation.latency (Generation_updates updates g) = None
         ∧ Generation.latency (Generation_end now eo (Generation_updates updates g) w2).1.1
           = Some (seconds now0 now))
  ∧ (∀ now0 o t w e w1,
       Trace_embedding now0 o t w = Ok (e, w1) →
       Embedding.latency e = None
       ∧ ∀ now eo w2,
           eo ≫= EmbeddingEndOptions.latency = None →
           Embedding.latency (Embedding_end now eo e w2).1.1 = Some (seconds now0 now)).
Proof.
  split.
  - intros now0 o t w g w1 Hg.
    assert (Generation.latency g = None ∧ Generation.startTime g = now0) as [Hl Hs].
    { revert Hg. unfold Trace_generation, Generation_new. simpl.
      intros Hg. repeat case_match; by simplify_eq. }
    split; [done|]. intros updates now eo w2 Heo.
    destruct (Generation_updates_fixed updates g) as [(_ & _ & _ & Hst) Hlat].
    split; [congruence|].
    destruct (Generation_end_closes now eo (Generation_updates updates g) w2) as [-> _].
    unfold Generation_apply_end. rewrite Heo, Hst, Hs. by destruct eo.
  - intros now0 o t w e w1 He.
    assert (Embedding.latency e = None ∧ Embedding.startTime e = now0) as [Hl Hs].
    { revert He. unfold Trace_embedding, Embedding_new. simpl.
      intros He. repeat case_match; by simplify_eq. }
    split; [done|]. intros now eo w2 Heo.
    destruct (Embedding_end_closes now eo e w2) as [-> _].
    unfold Embedding_apply_end. rewrite Heo, Hs. by destruct eo.
Qed.

(** ** The shape of a session *)

Lemma forest_insert (rid : string) (spans : list Span.t) (i : nat) (s s' : Span.t) :
  forest rid spans → spans !! i = Some s → Span_fixed s s' →
  forest rid (<[i := s']> spans).
Proof.
  intros Hf Hi (Hid & _ & Htr & Hpa & _) i0 s0 H0.
  assert (i < length spans)%nat as Hlen by by eapply lookup_lt_Some.
  assert (∀ j p, spans !! j = Some p →
            ∃ p', <[i := s']> spans !! j = Some p' ∧ Span_getId p' = Span_getId p) as Hkeep.
  { intros j p Hj. destruct (decide (j = i)) as [->|Hne].
    - exists s'. rewrite list_lookup_insert_eq by done. split; [done|].
      unfold Span_getId. congruence.
    - exists p. by rewrite list_lookup_insert_ne. }
  assert (∃ s1, spans !! i0 = Some s1 ∧ Span.traceId s0 = Span.traceId s1
                ∧ Span.parentId s0 = Span.parentId s1) as (s1 & H1 & Ht1 & Hp1).
  { destruct (decide (i0 = i)) as [->|Hne].
    - rewrite list_lookup_insert_eq in H0 by done. simplify_eq. by exists s.
    - rewrite list_lookup_insert_ne in H0 by done. by exists s0. }
  destruct (Hf i0 s1 H1) as [Ht Hp]. split; [congruence|].
  intros pid Hpid. rewrite Hp1 in Hpid.
  destruct (Hp pid Hpid) as (j & p & Hlt & Hj & Hpj).
  destruct (Hkeep j p Hj) as (p' & Hj' & Hid').
  exists j, p'. repeat split; [done|done|congruence].
Qed.

Lemma forest_app (rid : string) (spans : list Span.t) (s : Span.t) :
  forest rid spans → Span.traceId s = rid →
  (∀ pid, Span.parentId s = Some pid →
     ∃ j p, spans !! j = Some p ∧ Span_getId p = pid) →
  forest rid (spans ++ [s]).
Proof.
  intros Hf Ht Hp i0 s0 H0.
  destruct (decide (i0 < length spans)%nat) as [Hlt|Hge].
  - rewrite lookup_app_l in H0 by done.
    destruct (Hf i0 s0 H0) as [Ht0 Hp0]. split; [done|].
    intros pid Hpid. destruct (Hp0 pid Hpid) as (j & p & Hj & Hjp & Hid).
    exists j, p. repeat split; [done| |done].
    rewrite lookup_app_l; [done|]. by eapply lookup_lt_Some.
  - assert (i0 = length spans ∧ s0 = s) as [-> ->].
    { apply lookup_lt_Some in H0 as Hl. rewrite length_app in Hl. simpl in Hl.
      assert (i0 = length spans) as -> by lia.
      rewrite list_lookup_middle in H0 by done. by simplify_eq. }
    split; [done|]. intros pid Hpid.
    destruct (Hp pid Hpid) as (j & p & Hj & Hid).
    exists j, p. repeat split; [by eapply lookup_lt_Some| |done].
    rewrite lookup_app_l; [done|]. by eapply lookup_lt_Some.
Qed.

Lemma Span_new_links (now : Z) (uuid : string) (tid : string) (pid : option string)
    (o : SpanOptions.t) (s : Span.t) :
  Span_new now uuid tid pid o = Ok s → Span.traceId s = tid ∧ Span.parentId s = pid.
Proof. unfold Span_new. intros H. repeat case_match; by simplify_eq. Qed.

Ltac belongs_tac := split; [|split; [|split]]; simpl; try done.

Lemma step_belongs (rid : string) (c : call) (σ : Session.t) :
  belongs rid σ → belongs rid (step c σ).
Proof.
  destruct σ as [root spans gens embs hid w].
  intros (Hroot & Hf & Hgens & Hembs). unfold Trace_getId in Hroot. simpl in *.
  destruct c as [m|l k v|o|now o|now uuid o|now o|now o|i o|i now o|i now uuid o|i o
                |i now o|i now o]; simpl.
  - done.
  - by case_bool_decide.
  - destruct (Trace_update_spec o root w) as (_ & Hid & _).
    destruct (Trace_update o root w) as [root' w']. simpl in *.
    belongs_tac. unfold Trace_getId. simpl. congruence.
  - destruct (Trace_end_closes now o root w) as (Hr & _).
    destruct (Trace_end now o root w) as [[root' w'] ?]. simpl in *. subst root'.
    belongs_tac. unfold Trace_getId. simpl. by destruct o.
  - destruct (Trace_span now uuid o root w) as [[s w']|] eqn:E; [|done].
    unfold Trace_span in E. simpl in E.
    destruct (Span_new _ _ _ _ _) as [s1|] eqn:E1; [|done]. simplify_eq.
    apply Span_new_links in E1 as [Ht Hp].
    belongs_tac. apply forest_app; [done|done|].
    intros pid Hpid. congruence.
  - destruct (Trace_generation now o root w) as [[g w']|] eqn:E; [|done].
    belongs_tac. apply Forall_app_2; [done|]. constructor; [|done].
    revert E. unfold Trace_generation, Generation_new. simpl.
    intros E. repeat case_match; by simplify_eq.
  - destruct (Trace_embedding now o root w) as [[e w']|] eqn:E; [|done].
    belongs_tac. apply Forall_app_2; [done|]. constructor; [|done].
    revert E. unfold Trace_embedding, Embedding_new. simpl.
    intros E. repeat case_match; by simplify_eq.
  - destruct (spans !! i) as [s|] eqn:Hi; [|done].
    belongs_tac.
    eapply forest_insert; [done|done|apply Span_update_fixed].
  - destruct (spans !! i) as [s|] eqn:Hi; [|done].
    destruct (Span_end_closes now o s w) as (Hs & _).
    destruct (Span_end now o s w) as [[s' w'] ?]. simpl in *. subst s'.
    belongs_tac.
    eapply forest_insert; [done|done|apply Span_apply_end_fixed].
  - destruct (spans !! i) as [p|] eqn:Hi; [|done].
    destruct (Span_span now uuid o p w) as [[s w']|] eqn:E; [|done].
    unfold Span_span in E. simpl in E.
    destruct (Span_new _ _ _ _ _) as [s1|] eqn:E1; [|done]. simplify_eq.
    apply Span_new_links in E1 as [Ht Hp].
    belongs_tac. apply forest_app; [done| |].
    + rewrite Ht. by destruct (Hf i p Hi).
    + intros pid Hpid. exists i, p. split; [done|]. unfold Span_getId. congruence.
  - destruct (gens !! i) as [g|] eqn:Hi; [|done].
    belongs_tac. apply Forall_insert; [done|].
    simpl. by eapply (Forall_lookup_1 _ _ _ _ Hgens).
  - destruct (gens !! i) as [g|] eqn:Hi; [|done].
    destruct (Generation_end_closes now o g w) as (Hg & _).
    destruct (Generation_end now o g w) as [[g' w'] ?]. simpl in *. subst g'.
    belongs_tac. apply Forall_insert; [done|].
    destruct (Generation_apply_end_fixed now o g) as (-> & _).
    by eapply (Forall_lookup_1 _ _ _ _ Hgens).
  - destruct (embs !! i) as [e|] eqn:Hi; [|done].
    destruct (Embedding_end_closes now o e w) as (He & _).
    destruct (Embedding_end now o e w) as [[e' w'] ?]. simpl in *. subst e'.
    belongs_tac. apply Forall_insert; [done|].
    destruct (Embedding_apply_end_fixed now o e) as (-> & _).
    by eapply (Forall_lookup_1 _ _ _ _ Hembs).
Qed.

(** X13.  Whatever is called on a trace and on the units made from it, in
    any order, every span, generation and embedding of the session carries
    the id of the trace, which no call changes, and the parent id of a span,
    when it has one, is the id of a span made earlier in the same session.
    Updating or closing a unit does not move it. *)
Theorem session_tree (t : Trace.t) (w : World.t) (calls : list call) :
  belongs (Trace_getId t) (run calls (session_of t w)).
Proof.
  assert (∀ σ, belongs (Trace_getId t) σ → belongs (Trace_getId t) (run calls σ)) as H.
  { unfold run. induction calls as [|c rest IH]; intros σ Hσ; simpl; [done|].
    apply IH. by apply step_belongs. }
  apply H. belongs_tac.
Qed.

(** ** Options of the closing call *)

(** X14.  The privacy flag is read when the trace is closed, not when the
    states are given: [Trace.update] can set and lift it, the closing call
    cannot change it.  When a client is available the closing call captures
    exactly one event: after an update that sets the flag it writes no
    input state and no output state into it, also not one given in the same
    update or in the end options; after an update that lifts the flag, the
    states the trace holds by then are written, the output state of the end
    options first. *)
Theorem privacy_after_update :
  ∀ o t w now eo,
    let r := Trace_update o t w in
    let t' := (Trace_end now eo r.1 r.2).1.1 in
    let w' := (Trace_end now eo r.1 r.2).1.2 in
    let custom := props_in r.2 (Trace.properties r.1) in
    Trace.privacy t' = default (Trace.privacy t) (PartialTraceOptions.privacy o)
    ∧ (PartialTraceOptions.privacy o = Some true → has_client w = true →
         emits_field r.2 w' "$ai_input_state" (VStr <$> custom !! "$ai_input_state")
         ∧ emits_field r.2 w' "$ai_output_state" (VStr <$> custom !! "$ai_output_state"))
    ∧ (PartialTraceOptions.privacy o = Some false → has_client w = true →
         emits_field r.2 w' "$ai_input_state"
           (written_or_custom
              (state_field
                 (assign_if (PartialTraceOptions.inputState o) (Trace.inputState t)))
              custom "$ai_input_state")
         ∧ emits_field r.2 w' "$ai_output_state"
             (written_or_custom
                (state_field
                   (assign_if (eo ≫= StateEndOptions.outputState)
                      (assign_if (PartialTraceOptions.outputState o) (Trace.outputState t))))
                custom "$ai_output_state")).
Proof.
  intros o t w now eo. simpl.
  destruct (Trace_end_closes now eo (Trace_update o t w).1 (Trace_update o t w).2)
    as [-> Hc].
  assert (Trace.privacy (Trace_update o t w).1
          = default (Trace.privacy t) (PartialTraceOptions.privacy o)
          ∧ Trace.inputState (Trace_update o t w).1
            = assign_if (PartialTraceOptions.inputState o) (Trace.inputState t)
          ∧ Trace.outputState (Trace_update o t w).1
            = assign_if (PartialTraceOptions.outputState o) (Trace.outputState t))
    as (Hp & Hi & Ho).
  { unfold Trace_update.
    destruct (PartialTraceOptions.properties o), (PartialTraceOptions.privacy o); done. }
  assert (Trace.privacy (Trace_apply_end eo (Trace_update o t w).1)
          = default (Trace.privacy t) (PartialTraceOptions.privacy o)
          ∧ Trace.inputState (Trace_apply_end eo (Trace_update o t w).1)
            = assign_if (PartialTraceOptions.inputState o) (Trace.inputState t)
          ∧ Trace.outputState (Trace_apply_end eo (Trace_update o t w).1)
            = assign_if (eo ≫= StateEndOptions.outputState)
                (assign_if (PartialTraceOptions.outputState o) (Trace.outputState t))
          ∧ Trace.properties (Trace_apply_end eo (Trace_update o t w).1)
            = Trace.properties (Trace_update o t w).1)
    as (Hp' & Hi' & Ho' & Hc').
  { rewrite <- Hp, <- Hi, <- Ho. by destruct eo. }
  split; [done|]. split; intros Hpriv Hh; rewrite Hpriv in Hp'; simpl in Hp';
    rewrite <- (Trace_update_has_client o t w) in Hh;
    (split; (eapply emits_intro; [exact Hh|exact Hc|]); rewrite Trace_field; simpl;
     rewrite Hp', ?Hi', ?Ho', Hc'; unfold written_or_custom, props_in; simpl;
     fields_tac; by repeat case_match).
Qed.

(** X15.  The error of the end options replaces the error the unit holds
    only when it is an object or a non-empty string, and never sets the
    flag: the flag after the closing call is the one of the end options when
    they give one, else the one held.  When a client is available the
    closing call captures exactly one event, whose [$ai_error] is the text
    of the error after the call if the flag after the call is on and that
    error is truthy, and else the custom property of that name, if any.  So
    closing a unit whose flag is off with an error and no flag emits no
    error written by the closing call, and closing with [isError: false]
    withdraws an error recorded before.  The same holds for the four
    classes. *)
Theorem end_options_error :
  (∀ now o t w,
     let t' := (Trace_end now o t w).1.1 in
     Trace.isError t' = default (Trace.isError t) (o ≫= StateEndOptions.isError)
     ∧ Trace.error t' = assign_if_error (o ≫= StateEndOptions.error) (Trace.error t)
     ∧ (has_client w = true →
        emits_field w (Trace_end now o t w).1.2 "$ai_error"
         (written_or_custom
            (error_field (default (Trace.isError t) (o ≫= StateEndOptions.isError))
               (assign_if_error (o ≫= StateEndOptions.error) (Trace.error t)))
            (props_in w (Trace.properties t)) "$ai_error")))
  ∧ (∀ now o s w,
       let s' := (Span_end now o s w).1.1 in
       Span.isError s' = default (Span.isError s) (o ≫= StateEndOptions.isError)
       ∧ Span.error s' = assign_if_error (o ≫= StateEndOptions.error) (Span.error s)
       ∧ (has_client w = true →
          emits_field w (Span_end now o s w).1.2 "$ai_error"
           (written_or_custom
              (error_field (default (Span.isError s) (o ≫= StateEndOptions.isError))
                 (assign_if_error (o ≫= StateEndOptions.error) (Span.error s)))
              (props_in w (Span.properties s)) "$ai_error")))
  ∧ (∀ now o g w,
       let g' := (Generation_end now o g w).1.1 in
       Generation.isError g'
       = default (Generation.isError g) (o ≫= GenerationEndOptions.isError)
       ∧ Generation.error g'
         = assign_if_error (o ≫= GenerationEndOptions.error) (Generation.error g)
       ∧ (has_client w = true →
          emits_field w (Generation_end now o g w).1.2 "$ai_error"
           (written_or_custom
              (error_field
                 (default (Generation.isError g) (o ≫= GenerationEndOptions.isError))
                 (assign_if_error (o ≫= GenerationEndOptions.error) (Generation.error g)))
              (props_in w (Generation.properties g)) "$ai_error")))
  ∧ (∀ now o e w,
       let e' := (Embedding_end now o e w).1.1 in
       Embedding.isError e'
       = default (Embedding.isError e) (o ≫= EmbeddingEndOptions.isError)
       ∧ Embedding.error e'
         = assign_if_error (o ≫= EmbeddingEndOptions.error) (Embedding.error e)
       ∧ (has_client w = true →
          emits_field w (Embedding_end now o e w).1.2 "$ai_error"
           (written_or_custom
              (error_field
                 (default (Embedding.isError e) (o ≫= EmbeddingEndOptions.isError))
                 (assign_if_error (o ≫= EmbeddingEndOptions.error) (Embedding.error e)))
              (props_in w (Embedding.properties e)) "$ai_error")))
  ∧ (∀ e held, JsError_truthy e = false → assign_if_error (Some e) held = held)
  ∧ (∀ e held, error_field false (assign_if_error (Some e) held) = None).
Proof.
  split; [|split; [|split; [|split; [|split]]]].
  - intros now o t w. simpl. destruct (Trace_end_closes now o t w) as [-> Hc].
    split; [by destruct o as [[? ? []]|]|]. split; [by destruct o|]. intros Hh.
    eapply emits_intro; [exact Hh|exact Hc|]. rewrite Trace_field.
    destruct o as [[? ? [] ?]|]; simpl; unfold written_or_custom, props_in;
      (destruct (error_field _ _); simpl; [done|]; by destruct (deref _ _ !! _)).
  - intros now o s w. simpl. destruct (Span_end_closes now o s w) as [-> Hc].
    split; [by destruct o as [[? ? []]|]|]. split; [by destruct o|]. intros Hh.
    eapply emits_intro; [exact Hh|exact Hc|]. rewrite Span_field.
    destruct o as [[? ? [] ?]|]; simpl; unfold written_or_custom, props_in;
      (destruct (error_field _ _); simpl; [done|]; by destruct (deref _ _ !! _)).
  - intros now o g w. simpl. destruct (Generation_end_closes now o g w) as [-> Hc].
    split; [by destruct o as [[? ? ? ? ? ? []]|]|]. split; [by destruct o|]. intros Hh.
    eapply emits_intro; [exact Hh|exact Hc|]. rewrite Generation_field.
    destruct o as [[? ? ? ? ? ? []]|]; simpl; unfold written_or_custom, props_in;
      (destruct (error_field _ _); simpl; [done|]; by destruct (deref _ _ !! _)).
  - intros now o e w. simpl. destruct (Embedding_end_closes now o e w) as [-> Hc].
    split; [by destruct o as [[? ? ? ? []]|]|]. split; [by destruct o|]. intros Hh.
    eapply emits_intro; [exact Hh|exact Hc|]. rewrite Embedding_field.
    destruct o as [[? ? ? ? []]|]; simpl; unfold written_or_custom, props_in;
      (destruct (error_field _ _); simpl; [done|]; by destruct (deref _ _ !! _)).
  - intros e held He. unfold assign_if_error. by rewrite He.
  - intros e held. unfold error_field. by destruct (assign_if_error _ _).
Qed.

(** ** The events of a session *)

Lemma step_events (c : call) (σ : Session.t) :
  ∃ new,
    World.captured (Session.world (step c σ)) = World.captured (Session.world σ) ++ new
    ∧ CaptureMessage.event <$> new
      = (if has_client (Session.world σ) then option_list (event_of c σ) else [])
    ∧ has_client (Session.world (step c σ)) = has_client (Session.world σ).
Proof.
  destruct σ as [root spans gens embs hid w].
  assert (∀ w' : World.t, World.captured w' = World.captured w →
            has_client w' = has_client w →
            ∃ new, World.captured w' = World.captured w ++ new
                   ∧ CaptureMessage.event <$> new = (if has_client w then [] else [])
                   ∧ has_client w' = has_client w) as Hquiet.
  { intros w' Hc Hh. exists []. rewrite app_nil_r. by destruct (has_client w). }
  assert (∀ (w' : World.t) (msg : CaptureMessage.t), closes w w' msg →
            ∃ new, World.captured w' = World.captured w ++ new
                   ∧ CaptureMessage.event <$> new
                     = (if has_client w then [CaptureMessage.event msg] else [])
                   ∧ has_client w' = has_client w) as Hloud.
  { intros w' msg (_ & Hh & Hc). eexists. split; [exact Hc|]. split; [|done].
    by destruct (has_client w). }
  destruct c as [m|l k v|o|now o|now uuid o|now o|now o|i o|i now o|i now uuid o|i o
                |i now o|i now o]; simpl.
  - by apply (Hquiet (World_alloc m w).2).
  - case_bool_decide; [by apply (Hquiet w)|by apply (Hquiet (World_write l k v w))].
  - destruct (Trace_update o root w) as [root' w'] eqn:E.
    apply (Hquiet w'); revert E; unfold Trace_update;
      destruct (PartialTraceOptions.properties o); by intros [= _ <-].
  - destruct (Trace_end_closes now o root w) as (_ & Hc).
    destruct (Trace_end now o root w) as [[root' w'] ?]. by apply (Hloud _ _ Hc).
  - destruct (Trace_span now uuid o root w) as [[s w']|] eqn:E; [|by apply (Hquiet w)].
    apply Trace_span_inv in E as [Hw _]. apply (Hquiet w'); by rewrite Hw.
  - destruct (Trace_generation now o root w) as [[g w']|] eqn:E; [|by apply (Hquiet w)].
    apply Trace_generation_inv in E as [Hw _]. apply (Hquiet w'); by rewrite Hw.
  - destruct (Trace_embedding now o root w) as [[e w']|] eqn:E; [|by apply (Hquiet w)].
    apply Trace_embedding_inv in E as [Hw _]. apply (Hquiet w'); by rewrite Hw.
  - destruct (spans !! i) as [s|]; by apply (Hquiet w).
  - destruct (spans !! i) as [s|]; [|by apply (Hquiet w)].
    destruct (Span_end_closes now o s w) as (_ & Hc).
    destruct (Span_end now o s w) as [[s' w'] ?]. by apply (Hloud _ _ Hc).
  - destruct (spans !! i) as [p|]; [|by apply (Hquiet w)].
    destruct (Span_span now uuid o p w) as [[s w']|] eqn:E; [|by apply (Hquiet w)].
    apply Span_span_inv in E as [Hw _]. apply (Hquiet w'); by rewrite Hw.
  - destruct (gens !! i) as [g|]; by apply (Hquiet w).
  - destruct (gens !! i) as [g|]; [|by apply (Hquiet w)].
    destruct (Generation_end_closes now o g w) as (_ & Hc).
    destruct (Generation_end now o g w) as [[g' w'] ?]. by apply (Hloud _ _ Hc).
  - destruct (embs !! i) as [e|]; [|by apply (Hquiet w)].
    destruct (Embedding_end_closes now o e w) as (_ & Hc).
    destruct (Embedding_end now o e w) as [[e' w'] ?]. by apply (Hloud _ _ Hc).
Qed.

(** X16.  Over any sequence of calls, the messages captured are one per
    closing call on a unit that exists, in the order of the calls, named
    [$ai_trace], [$ai_span], [$ai_generation] or [$ai_embedding] after the
    class of the unit: creating and updating units captures nothing, and a
    closing call on an index that holds no unit does nothing.  This is so
    when a client exists, or the process has no [window] and its
    environment gives an API key; on a page with [window] and without
    client, and on a process without [window], without client and without
    key (where every closing call throws), nothing is captured at all.  No
    message captured before is removed or changed. *)
Theorem session_events (calls : list call) (σ : Session.t) :
  World.captured (Session.world σ) `prefix_of` World.captured (Session.world (run calls σ))
  ∧ CaptureMessage.event <$> emitted (Session.world σ) (Session.world (run calls σ))
    = (if has_client (Session.world σ) then events_of calls σ else []).
Proof.
  assert (∃ new,
            World.captured (Session.world (run calls σ))
            = World.captured (Session.world σ) ++ new
            ∧ CaptureMessage.event <$> new
              = (if has_client (Session.world σ) then events_of calls σ else [])) as H.
  { revert σ. unfold run. induction calls as [|c rest IH]; intros σ; simpl.
    - exists []. rewrite app_nil_r. by destruct (has_client _).
    - destruct (step_events c σ) as (new1 & Hc1 & He1 & Hh1).
      destruct (IH (step c σ)) as (new2 & Hc2 & He2).
      exists (new1 ++ new2). rewrite Hc2, Hc1, <- app_assoc. split; [done|].
      rewrite fmap_app, He1, He2, Hh1. by destruct (has_client _). }
  destruct H as (new & Hc & He). split.
  - rewrite Hc. by apply prefix_app_r.
  - unfold emitted. by rewrite Hc, drop_app_length.
Qed.

End Client.

(** * Instances *)

(** The sample units are what the constructors make. *)
Lemma sample_Trace_made (privacy isError : bool) (properties : option loc)
    (error : option JsError) (w : World.t) :
  PostHogLLM_trace 1000 "trace-1"
    (sample_TraceOptions (Some privacy) properties (Some isError) error) w
  = Ok (sample_Trace privacy properties isError error).
Proof. reflexivity. Qed.

Lemma sample_Generation_made (output : value) (w : World.t) :
  ∃ w', Trace_generation 1002 (sample_GenerationOptions output None)
          (sample_Trace false None false None) w
        = Ok (sample_Generation output (Some (length (World.heap w))), w')
      ∧ props_in w' (Some (length (World.heap w))) = ∅.
Proof.
  eexists. split; [reflexivity|].
  unfold props_in, deref. simpl. by rewrite list_lookup_middle.
Qed.

(** ** C1 *)

(** The sample of the specification: a root unit with [{a: 1}], a span with
    [{b: 2}]; then the caller writes [a: 7] into the map it gave the root
    unit, and updates the root unit with [{a: 9}]. *)
Lemma child_properties_snapshot_witness :
  let w := holding [ {["a" := "1"]}; {["b" := "2"]}; {["a" := "9"]} ] server_process in
  let t := sample_Trace false (Some 0%nat) false None in
  let σ1 :=
    step sample_json_text (TraceSpan 1001 "span-1" (sample_SpanOptions (Some 1%nat) None))
      (session_of t w) in
  let σ2 := run sample_json_text [SetProperty 0 "a" "7"] σ1 in
  let σ3 := run sample_json_text [SetProperty 0 "a" "7"; TraceUpdate (properties_only 2)] σ1 in
  Trace_new 1000 "trace-1" (sample_TraceOptions None (Some 0%nat) None None) = Ok t
  ∧ PostHogLLM_trace 1000 "trace-1" (sample_TraceOptions None (Some 0%nat) None None) w = Ok t
  ∧ props_in (Session.world σ2) (Trace.properties (Session.root σ2)) !! "a" = Some "7"
  ∧ props_in (Session.world σ3) (Trace.properties (Session.root σ3)) !! "a" = Some "9"
  ∧ ∃ c c2 c3,
      Session.spans σ1 = [c]
      ∧ props_in (Session.world σ1) (Span.properties c) !! "a" = Some "1"
      ∧ props_in (Session.world σ1) (Span.properties c) !! "b" = Some "2"
      ∧ Session.spans σ2 !! 0%nat = Some c2
      ∧ props_in (Session.world σ2) (Span.properties c2)
        = props_in (Session.world σ1) (Span.properties c)
      ∧ Session.spans σ3 !! 0%nat = Some c3
      ∧ props_in (Session.world σ3) (Span.properties c3)
        = props_in (Session.world σ1) (Span.properties c).
Proof.
  intros w t σ1 σ2 σ3. split; [reflexivity|]. split; [reflexivity|].
  split; [reflexivity|]. split; [reflexivity|].
  destruct (child_properties_snapshot sample_json_text 1000 "trace-1"
              (sample_TraceOptions None (Some 0%nat) None None) w t [] eq_refl)
    as (H & _).
  destruct (H 1001 "span-1" (sample_SpanOptions (Some 1%nat) None)) as (c & Hc & Hm & Hl).
  destruct (Hl [SetProperty 0 "a" "7"]) as (c2 & Hc2 & Hp2).
  destruct (Hl [SetProperty 0 "a" "7"; TraceUpdate (properties_only 2)]) as (c3 & Hc3 & Hp3).
  exists c, c2, c3. split; [exact Hc|]. split; [exact (Hm "a")|]. split; [exact (Hm "b")|].
  split; [exact Hc2|]. split; [exact Hp2|]. split; [exact Hc3|exact Hp3].
Defined.

(** ** C2 *)

(** A root unit closed with the privacy flag set, whose custom properties
    have the key [$ai_input_state]: the emitted map has that key.  A
    generation whose custom properties have the key [$ai_input] emits the
    custom value in place of its input, and one whose output is the empty
    string emits no output. *)
Lemma privacy_true_custom_input_state :
  let w := holding [ {["$ai_input_state" := "kept"]}; {["$ai_input" := "mine"]} ] server_process in
  let t := sample_Trace true (Some 0%nat) false None in
  let g := sample_Generation (VStr "") (Some 1%nat) in
  PostHogLLM_trace 1000 "trace-1"
    (sample_TraceOptions (Some true) (Some 0%nat) None None) w = Ok t
  ∧ Trace.privacy (Trace_end sample_json_text 1005 None t w).1.1 = true
  ∧ fields_emitted w (Trace_end sample_json_text 1005 None t w).1.2 "$ai_input_state"
    = [Some (VStr "kept")]
  ∧ Generation.input (Generation_end sample_json_text 1005 None g w).1.1 = VStr "prompt"
  ∧ fields_emitted w (Generation_end sample_json_text 1005 None g w).1.2 "$ai_input"
    = [Some (VStr "mine")]
  ∧ Generation.output (Generation_end sample_json_text 1005 None g w).1.1 = VStr ""
  ∧ fields_emitted w (Generation_end sample_json_text 1005 None g w).1.2 "$ai_output_choices"
    = [None].
Proof. repeat split; vm_compute; reflexivity. Qed.

Lemma privacy_filter_witness :
  let private := sample_Trace true None false None in
  let public := sample_Trace false None false None in
  let w1 := holding [ ∅ ] server_process in
  let s := sample_Span "span-1" None (Some 0%nat) in
  has_client server_process = true
  ∧ has_client w1 = true
  ∧ Trace.privacy (Trace_end sample_json_text 1005 None private server_process).1.1 = true
  ∧ emits_field server_process (Trace_end sample_json_text 1005 None private server_process).1.2
      "$ai_input_state" None
  ∧ Trace.privacy (Trace_end sample_json_text 1005 None public server_process).1.1 = false
  ∧ Trace.inputState (Trace_end sample_json_text 1005 None public server_process).1.1
    = Some [("q", VStr "hi")]
  ∧ emits_field server_process (Trace_end sample_json_text 1005 None public server_process).1.2
      "$ai_input_state" (Some (VStr (sample_json_text (VObj [("q", VStr "hi")]))))
  ∧ Trace_span 1001 "span-1" (sample_SpanOptions None None) private server_process = Ok (s, w1)
  ∧ Span.inputState s = Some [("raw", VStr "hi")]
  ∧ emits_field w1 (Span_end sample_json_text 1003 None s w1).1.2
      "$ai_input_state" (Some (VStr (sample_json_text (VObj [("raw", VStr "hi")])))).
Proof.
  intros private public w1 s.
  destruct (privacy_filter sample_json_text) as (HT & HS & _ & _ & HC & _).
  split; [reflexivity|]. split; [reflexivity|]. split; [reflexivity|]. split.
  { exact (proj1 (proj1 (HT 1005 None private server_process eq_refl) eq_refl)). }
  split; [reflexivity|]. split; [reflexivity|]. split.
  { exact (proj1 (proj2 (HT 1005 None public server_process eq_refl) eq_refl) _ eq_refl). }
  split; [reflexivity|]. split.
  { exact (proj1 (HC 1001 "span-1" (sample_SpanOptions None None) private server_process
                    s w1 eq_refl)). }
  exact (proj1 (HS 1003 None s w1 eq_refl) _ eq_refl).
Defined.

(** ** C3 *)

Lemma subject_identifier_inherited_witness :
  let t := sample_Trace false None false None in
  let σ :=
    run sample_json_text
      [ TraceSpan 1001 "span-1" (sample_SpanOptions None (Some "someone-else"));
        SpanSpan 0 1002 "span-2" (sample_SpanOptions None (Some "someone-else"));
        TraceGeneration 1002 (sample_GenerationOptions VUndefined (Some "someone-else"));
        TraceUpdate (distinctId_only "someone-else");
        SpanEnd 1 1003 None;
        GenerationEnd 0 1004 None;
        TraceEnd 1005 None ]
      (session_of t server_process) in
  Trace_new 1000 "trace-1" (sample_TraceOptions None None None None) = Ok t
  ∧ length (Session.spans σ) = 2%nat
  ∧ length (Session.generations σ) = 1%nat
  ∧ length (emitted server_process (Session.world σ)) = 3%nat
  ∧ Forall (λ s, Span.distinctId s = "user-123") (Session.spans σ)
  ∧ Forall (λ g, Generation.distinctId g = "user-123") (Session.generations σ)
  ∧ Forall (λ m, CaptureMessage.distinctId m = "user-123")
      (emitted server_process (Session.world σ)).
Proof.
  intros t σ. split; [reflexivity|]. repeat (split; [reflexivity|]).
  destruct (subject_identifier_inherited sample_json_text 1000 "trace-1"
              (sample_TraceOptions None None None None) server_process t
              [ TraceSpan 1001 "span-1" (sample_SpanOptions None (Some "someone-else"));
                SpanSpan 0 1002 "span-2" (sample_SpanOptions None (Some "someone-else"));
                TraceGeneration 1002
                  (sample_GenerationOptions VUndefined (Some "someone-else"));
                TraceUpdate (distinctId_only "someone-else");
                SpanEnd 1 1003 None;
                GenerationEnd 0 1004 None;
                TraceEnd 1005 None ] eq_refl)
    as (_ & Hs & Hg & _ & Hm & _).
  split; [exact Hs|]. split; [exact Hg|exact Hm].
Defined.

(** ** C4 *)



(** ** C5 *)



(** ** C6 *)

(** With a default distinct id configured and options that carry neither a
    user email nor a distinct id, [PostHogLLM.trace] throws; so it does
    when the user email it is given is the empty string. *)
Lemma default_distinct_id_not_used :
  let w :=
    (init (Some (defaultDistinctId_only "default-user")) server_process).2 in
  let o (userEmail : option string) :=
    {| TraceOptions.id := None;
       TraceOptions.name := "answer-question";
       TraceOptions.inputState := None;
       TraceOptions.outputState := None;
       TraceOptions.privacy := None;
       TraceOptions.userEmail := userEmail;
       TraceOptions.distinctId := None;
       TraceOptions.metadata := None;
       TraceOptions.properties := None;
       TraceOptions.isError := None;
       TraceOptions.error := None |} in
  getDefaultDistinctId w = Some "default-user"
  ∧ PostHogLLM_trace 1000 "trace-1" (o None) w
    = Throw "A user email (userEmail) is required for PostHog tracing"
  ∧ PostHogLLM_trace 1000 "trace-1" (o (Some "")) w
    = Throw "A user email (userEmail) is required for PostHog tracing".
Proof. repeat split; reflexivity. Qed.

Lemma trace_requires_subject_identifier_witness :
  let w :=
    (init (Some (defaultDistinctId_only "default-user")) server_process).2 in
  let o := sample_TraceOptions None None None None in
  getDefaultDistinctId w = Some "default-user"
  ∧ prop_get (PostHogLLMOptions.defaultPrivacyMode (World.options w))
    = prop_get (PostHogLLMOptions.defaultPrivacyMode (World.options server_process))
  ∧ PostHogLLM_trace 1000 "trace-1" o w = PostHogLLM_trace 1000 "trace-1" o server_process
  ∧ PostHogLLM_trace 1000 "trace-1" o server_process = Ok (sample_Trace false None false None)
  ∧ Some (Trace.distinctId (sample_Trace false None false None)) = Some "user-123".
Proof.
  intros w o.
  destruct (trace_requires_subject_identifier 1000 "trace-1" o server_process)
    as (_ & _ & Hd & Hw).
  split; [reflexivity|]. split; [reflexivity|]. split; [exact (Hw w eq_refl)|].
  split; [reflexivity|].
  exact (Hd (sample_Trace false None false None) eq_refl).
Defined.

(** ** C7 *)



(** ** C8 *)



(** ** C9 *)

(** On a page with [window], closing a root unit twice captures nothing;
    on a process without [window] whose environment gives no API key, both
    calls throw and nothing is captured. *)
Lemma end_twice_in_browser :
  let t := sample_Trace false None false None in
  let r1 := Trace_end sample_json_text 1005 None t browser_page in
  let r2 := Trace_end sample_json_text 1009 None r1.1.1 r1.1.2 in
  let n1 := Trace_end sample_json_text 1005 None t node_process in
  let n2 := Trace_end sample_json_text 1009 None n1.1.1 n1.1.2 in
  World.captured browser_page = []
  ∧ r1.2 = Ok tt ∧ r2.2 = Ok tt
  ∧ World.captured r2.1.2 = []
  ∧ World.captured node_process = []
  ∧ n1.2 = Throw "You must pass your PostHog project's api key."
  ∧ n2.2 = Throw "You must pass your PostHog project's api key."
  ∧ World.captured n2.1.2 = [].
Proof. repeat split; reflexivity. Qed.

Lemma end_twice_emits_twice_witness :
  let t := sample_Trace false None false None in
  let r1 := Trace_end sample_json_text 2000 None t server_process in
  let r2 := Trace_end sample_json_text 4000 None r1.1.1 r1.1.2 in
  has_client server_process = true
  ∧ r1.2 = Ok tt
  ∧ r2.2 = Ok tt
  ∧ length (World.captured r2.1.2) = 2%nat
  ∧ fields_emitted server_process r2.1.2 "$ai_latency"
    = [Some (VNum (1000 # 1000)); Some (VNum (3000 # 1000))].
Proof.
  intros t r1 r2.
  destruct (end_twice_emits_twice sample_json_text) as (HT & _).
  destruct (HT 2000 None 4000 None t server_process) as (Ho1 & Ho2 & Hc).
  split; [reflexivity|]. split; [exact Ho1|]. split; [exact Ho2|].
  unfold fields_emitted, emitted, r2, r1. rewrite Hc.
  split; reflexivity.
Defined.

(** ** C10 *)



(** ** Further instances *)

(** A first [init] with a key, then a second one without: on a process
    whose environment gives no key the second call throws and the first
    client stays; on one whose environment gives a key the client is made
    again from that key. *)
Lemma init_twice_witness :
  let a := Some sample_PostHogLLMOptions in
  let b := Some (defaultDistinctId_only "anon") in
  let reset := PostHogLLMOptions.mk Absent Absent (Present None) Absent in
  World.window_undefined node_process = true
  ∧ (init b (init a node_process).2).1
    = Throw "You must pass your PostHog project's api key."
  ∧ World.client (init b (init a node_process).2).2
    = Some (PostHog.mk "phc_first" "https://eu.i.posthog.com" 1)
  ∧ (init b (init a server_process).2).1 = Ok tt
  ∧ World.client (init b (init a server_process).2).2
    = Some (PostHog.mk "phc_test" "https://us.i.posthog.com" 1)
  ∧ World.window_undefined browser_page = false
  ∧ World.client (init b (init a browser_page).2).2 = None
  ∧ PostHogLLMOptions.defaultPrivacyMode (World.options (init b (init a node_process).2).2)
    = Present (Some true)
  ∧ prop_get (PostHogLLMOptions.defaultPrivacyMode
                (World.options (init (Some reset) (init a node_process).2).2))
    = None.
Proof.
  intros a b reset.
  destruct (init_twice a b node_process) as (_ & _ & Hthrow & _ & Hkeep & _).
  destruct (init_twice a b server_process) as (_ & Hok & _).
  destruct (init_twice a b browser_page) as (_ & _ & _ & Hpage & _).
  destruct (init_twice a (Some reset) node_process) as (_ & _ & _ & _ & _ & Hreset & _).
  destruct (Hthrow eq_refl eq_refl) as [Ht Hc].
  destruct (Hok eq_refl) as [Ho Hc']; [by vm_compute|].
  destruct (Hpage eq_refl) as (_ & _ & Hp).
  split; [reflexivity|]. split; [exact Ht|]. split; [exact Hc|]. split; [exact Ho|].
  split; [exact Hc'|]. split; [reflexivity|]. split; [exact Hp|].
  split; [exact (Hkeep _ eq_refl eq_refl)|exact (Hreset _ eq_refl eq_refl)].
Defined.

Lemma getClient_lazy_witness :
  let w := (init (Some sample_PostHogLLMOptions) node_process).2 in
  let c := PostHog.mk "phc_first" "https://eu.i.posthog.com" 1 in
  World.client w = Some c
  ∧ getClient w = (Ok (Some c), w)
  ∧ World.client browser_page = None
  ∧ World.window_undefined browser_page = false
  ∧ getClient browser_page = (Ok None, browser_page)
  ∧ World.window_undefined server_process = true
  ∧ World.env_KEY server_process = Some "phc_test"
  ∧ (getClient server_process).1
    = Ok (Some (PostHog.mk "phc_test" "https://us.i.posthog.com" 1))
  ∧ str_or (World.env_KEY node_process) "" = ""
  ∧ getClient node_process
    = (Throw "You must pass your PostHog project's api key.", node_process).
Proof.
  intros w c.
  destruct (getClient_lazy w) as (_ & Hc & _).
  destruct (getClient_lazy browser_page) as (_ & _ & Hb & _).
  destruct (getClient_lazy server_process) as (_ & _ & _ & Hs & _).
  destruct (getClient_lazy node_process) as (_ & _ & _ & _ & Hn & _).
  split; [reflexivity|]. split; [exact (Hc c eq_refl)|]. split; [reflexivity|].
  split; [reflexivity|]. split; [exact (Hb eq_refl eq_refl)|]. split; [reflexivity|].
  split; [reflexivity|]. split.
  { apply (Hs eq_refl eq_refl "phc_test" eq_refl). discriminate. }
  split; [reflexivity|exact (Hn eq_refl eq_refl eq_refl)].
Defined.

(** After [init] with the default privacy mode on, the factory makes a
    private trace from options without a flag; the constructor does not. *)
Lemma trace_privacy_default_witness :
  let w := (init (Some sample_PostHogLLMOptions) browser_page).2 in
  let o := sample_TraceOptions None None None None in
  PostHogLLMOptions.defaultPrivacyMode sample_PostHogLLMOptions = Present (Some true)
  ∧ PostHogLLM_trace 1000 "trace-1" o w = Ok (sample_Trace true None false None)
  ∧ Trace_new 1000 "trace-1" o = Ok (sample_Trace false None false None)
  ∧ Trace.privacy (sample_Trace false None false None) = false
  ∧ Trace.privacy (sample_Trace true None false None) = true.
Proof.
  intros w o.
  destruct (trace_privacy_default 1000 "trace-1" o browser_page) as (_ & H & Hinit & _).
  destruct (H (sample_Trace false None false None) (sample_Trace false None false None)
              eq_refl eq_refl) as (Hn & _).
  split; [reflexivity|]. split; [reflexivity|]. split; [reflexivity|]. split; [exact Hn|].
  exact (Hinit sample_PostHogLLMOptions true (sample_Trace true None false None)
           eq_refl eq_refl eq_refl).
Defined.

(** The constructor of a span called with options that carry no distinct
    id, or the empty one, throws; called through a trace it does not. *)
Lemma child_constructors_witness :
  let t := sample_Trace false None false None in
  SpanOptions.distinctId (sample_SpanOptions None (Some "")) = Some ""
  ∧ Span_new 1001 "span-1" "trace-1" None (sample_SpanOptions None (Some ""))
    = Throw "Span must have a distinctId (passed from trace)"
  ∧ Trace_new 1000 "trace-1" (sample_TraceOptions None None None None) = Ok t
  ∧ (∃ s w', Trace_span 1001 "span-1" (sample_SpanOptions None (Some "")) t server_process
             = Ok (s, w'))
  ∧ (∃ e w', Trace_embedding 1001 sample_EmbeddingOptions t server_process = Ok (e, w')).
Proof.
  intros t.
  destruct child_constructors as (HS & _ & _ & HT).
  destruct (HS 1001 "span-1" "trace-1" None (sample_SpanOptions None (Some "")))
    as (Hthrow & _).
  destruct (HT 1000 "trace-1" (sample_TraceOptions None None None None) t eq_refl
              server_process 1001 "span-1" (sample_SpanOptions None (Some ""))
              (sample_GenerationOptions VUndefined None) sample_EmbeddingOptions)
    as ((s & w' & Hs & _) & _ & He).
  split; [reflexivity|]. split; [exact (proj2 Hthrow (or_intror eq_refl))|].
  split; [reflexivity|]. split; [by exists s, w'|exact He].
Defined.

Lemma unit_ids_witness :
  let t := Trace.mk "trace-1" "answer-question" 1000 None None false "user@example.com"
             None None false None in
  let t' := Trace.mk "mine" "answer-question" 1000 None None false "user@example.com"
              None None false None in
  Trace_new 1000 "trace-1" (identified_TraceOptions (Some "")) = Ok t
  ∧ Trace_getId t = "trace-1"
  ∧ Trace_getId t ≠ ""
  ∧ Trace_new 1000 "trace-1" (identified_TraceOptions (Some "mine")) = Ok t'
  ∧ Trace_getId t' = "mine".
Proof.
  intros t t'.
  destruct unit_ids as (HT & _).
  destruct (HT 1000 "trace-1" (identified_TraceOptions (Some "")) t eq_refl)
    as (_ & Hgen & Hne & _).
  destruct (HT 1000 "trace-1" (identified_TraceOptions (Some "mine")) t' eq_refl)
    as (Hown & _).
  split; [reflexivity|]. split; [exact (Hgen (or_intror eq_refl))|].
  split; [apply Hne; discriminate|]. split; [reflexivity|].
  apply (Hown "mine" eq_refl). discriminate.
Defined.

Lemma update_without_effect_witness :
  let s := sample_Span "span-1" None (Some 0%nat) in
  PartialSpanOptions.id (span_stray_update 1) = Some "other-id"
  ∧ PartialSpanOptions.properties (span_stray_update 1) = Some 1%nat
  ∧ PartialSpanOptions.distinctId (span_stray_update 1) = Some "someone-else"
  ∧ Span_update (span_stray_update 1) s = s.
Proof.
  intros s.
  destruct update_without_effect as (_ & HS & _).
  split; [reflexivity|]. split; [reflexivity|]. split; [reflexivity|].
  apply HS; reflexivity.
Defined.

(** A trace with [{a: 1}] updated with [{a: 9, b: 2}]. *)
Lemma trace_update_properties_witness :
  let w := holding [ {["a" := "1"]}; {["a" := "9"; "b" := "2"]} ] server_process in
  let t := sample_Trace false (Some 0%nat) false None in
  let r := Trace_update (properties_only 1) t w in
  PartialTraceOptions.properties (properties_only 1) = Some 1%nat
  ∧ Trace.properties r.1 = Some 2%nat
  ∧ props_in r.2 (Trace.properties r.1) !! "a" = Some "9"
  ∧ props_in r.2 (Trace.properties r.1) !! "b" = Some "2"
  ∧ (0 < length (World.heap w))%nat
  ∧ World.heap r.2 !! 0%nat = World.heap w !! 0%nat.
Proof.
  intros w t r.
  destruct (trace_update_properties (properties_only 1) t w) as (Hp & _ & Hkeep & _).
  destruct (Hp 1%nat eq_refl) as (Hl & Hm & _).
  assert (0 < length (World.heap w))%nat as Hlen by (vm_compute; lia).
  split; [reflexivity|]. split; [exact Hl|]. split; [exact (Hm "a")|].
  split; [exact (Hm "b")|]. split; [exact Hlen|exact (Hkeep 0%nat Hlen)].
Defined.

(** A span made with [{team: core}] and updated with other properties
    emits the property of its creation. *)
Lemma child_update_ignores_properties_witness :
  let w := holding [ {["team" := "core"]}; {["team" := "other"]} ] server_process in
  let s := sample_Span "span-1" None (Some 0%nat) in
  let s' := Span_updates [span_stray_update 1] s in
  has_client w = true
  ∧ ("team" ∉ Span_keys)
  ∧ Span.properties s' = Some 0%nat
  ∧ emits_field w (Span_end sample_json_text 1003 None s' w).1.2 "team" (Some (VStr "core")).
Proof.
  intros w s s'.
  destruct (child_update_ignores_properties sample_json_text) as (HS & _).
  destruct (HS [span_stray_update 1] s 1003 None w "team") as (Hp & He).
  assert ("team" ∉ Span_keys) as Hk.
  { apply (bool_decide_unpack _). vm_compute. exact I. }
  split; [reflexivity|]. split; [exact Hk|]. split; [exact Hp|exact (He eq_refl Hk)].
Defined.

Lemma metadata_merge_witness :
  let held := Some [("env", VStr "dev"); ("v", VStr "1")] in
  let m := [("1", VStr "one"); ("env", VStr "prod"); ("k", VStr "x")] in
  let t := sample_Trace false None false None in
  let r := Trace_update (metadata_only m) t server_process in
  NoDup (keys m)
  ∧ obj_get "env" (obj_spread held (Some m)) = Some (VStr "prod")
  ∧ obj_get "v" (obj_spread held (Some m)) = Some (VStr "1")
  ∧ obj_get "k" (obj_spread held (Some m)) = Some (VStr "x")
  ∧ keys (obj_spread held (Some m)) = ["1"; "env"; "v"; "k"]
  ∧ js_ordered (keys (default [] held))
  ∧ js_ordered (keys (obj_spread held (Some m)))
  ∧ has_client server_process = true
  ∧ emits_field r.2 (Trace_end sample_json_text 1005 None r.1 r.2).1.2 "$ai_metadata"
      (Some (VStr (sample_json_text (VObj m)))).
Proof.
  intros held m t r.
  destruct (metadata_merge sample_json_text) as (HM & _ & _ & _ & HE).
  assert (NoDup (keys m)) as Hnd.
  { apply (bool_decide_unpack _). vm_compute. exact I. }
  assert (js_ordered (keys (default [] held))) as Hord.
  { simpl. repeat split; repeat constructor. }
  destruct (HM held m Hnd) as (Hget & _ & _ & Hjs).
  split; [exact Hnd|]. split; [exact (Hget "env")|]. split; [exact (Hget "v")|].
  split; [exact (Hget "k")|]. split; [reflexivity|]. split; [exact Hord|].
  split; [exact (Hjs Hord)|]. split; [reflexivity|].
  exact (HE (metadata_only m) t server_process m 1005 None eq_refl eq_refl).
Defined.

(** A trace made at 1000, updated twice, and closed at 3000. *)
Lemma latency_from_construction_witness :
  let t := sample_Trace false None false None in
  let r := Trace_updates [privacy_and_states true; metadata_only [("k", VStr "x")]] t
             server_process in
  Trace_new 1000 "trace-1" (sample_TraceOptions None None None None) = Ok t
  ∧ Trace.startTime r.1 = 1000
  ∧ has_client server_process = true
  ∧ emits_field r.2 (Trace_end sample_json_text 3000 None r.1 r.2).1.2 "$ai_latency"
      (Some (VNum (seconds 1000 3000)))
  ∧ 1000 ≤ 3000
  ∧ (0 <= seconds 1000 3000)%Q.
Proof.
  intros t r.
  destruct (latency_from_construction sample_json_text) as (HT & _).
  destruct (HT 1000 "trace-1" (sample_TraceOptions None None None None) t eq_refl
              [privacy_and_states true; metadata_only [("k", VStr "x")]] server_process
              3000 None) as (Hs & He & Hpos & _).
  assert (1000 ≤ 3000) as Hle by lia.
  split; [reflexivity|]. split; [exact Hs|]. split; [reflexivity|].
  split; [exact (He eq_refl)|].
  split; [exact Hle|exact (Hpos Hle)].
Defined.

(** A generation made with no input tokens counted (zero), seven output
    tokens and an empty base URL, closed with fifty input tokens, twenty
    output tokens and the status 200. *)
Lemma counters_emitted_witness :
  let t := sample_Trace false None false None in
  ∃ g w,
    Trace_generation 1002 (counted_GenerationOptions (Some "")) t server_process = Ok (g, w)
    ∧ has_client w = true
    ∧ GenerationEndOptions.inputTokens counted_end = Some (50 # 1)
    ∧ emits_field w (Generation_end sample_json_text 1005 (Some counted_end) g w).1.2
        "$ai_input_tokens" (Some (VNum 0))
    ∧ emits_field w (Generation_end sample_json_text 1005 (Some counted_end) g w).1.2
        "$ai_output_tokens" (Some (VNum (20 # 1)))
    ∧ emits_field w (Generation_end sample_json_text 1005 (Some counted_end) g w).1.2
        "$ai_http_status" (Some (VNum (200 # 1)))
    ∧ emits_field w (Generation_end sample_json_text 1005 (Some counted_end) g w).1.2
        "$ai_base_url" None.
Proof.
  intros t.
  destruct (counters_emitted sample_json_text) as (HG & _).
  eexists. eexists. split; [reflexivity|]. split; [reflexivity|]. split; [reflexivity|].
  refine (HG 1005 (Some counted_end) _ _ _). reflexivity.
Defined.

(** A generation made at 1002 with the latency 9 in its options and closed
    at 3002 without latency. *)
Lemma creation_latency_ignored_witness :
  let t := sample_Trace false None false None in
  ∃ g w,
    Trace_generation 1002 (counted_GenerationOptions None) t server_process = Ok (g, w)
    ∧ GenerationOptions.latency (counted_GenerationOptions None) = Some (9 # 1)
    ∧ Generation.latency g = None
    ∧ Generation.latency (Generation_end sample_json_text 3002 None g w).1.1
      = Some (seconds 1002 3002).
Proof.
  intros t.
  destruct (creation_latency_ignored sample_json_text) as (HG & _).
  eexists. eexists. split; [reflexivity|]. split; [reflexivity|].
  destruct (HG 1002 (counted_GenerationOptions None) t server_process _ _ eq_refl)
    as (Hnone & Hend).
  split; [exact Hnone|]. exact (proj2 (Hend [] 3002 None _ eq_refl)).
Defined.

Lemma session_tree_witness :
  let t := sample_Trace false None false None in
  let σ := run sample_json_text sample_calls (session_of t server_process) in
  length (Session.spans σ) = 2%nat
  ∧ belongs "trace-1" σ
  ∧ ∃ c p, Session.spans σ !! 1%nat = Some c ∧ Span.parentId c = Some "span-1"
           ∧ Session.spans σ !! 0%nat = Some p ∧ Span_getId p = "span-1".
Proof.
  intros t σ. split; [reflexivity|]. split.
  - exact (session_tree sample_json_text t server_process sample_calls).
  - eexists. eexists. repeat split; reflexivity.
Defined.

(** A trace made public, given its states while private, and closed: no
    state is written; lifted again before the closing call, they are. *)
Lemma privacy_after_update_witness :
  let t := sample_Trace false None false None in
  let private := Trace_update (privacy_and_states true) t server_process in
  let public := Trace_update (privacy_and_states false) private.1 private.2 in
  has_client server_process = true
  ∧ has_client private.2 = true
  ∧ PartialTraceOptions.privacy (privacy_and_states true) = Some true
  ∧ Trace.privacy (Trace_end sample_json_text 1005 None private.1 private.2).1.1 = true
  ∧ emits_field private.2 (Trace_end sample_json_text 1005 None private.1 private.2).1.2
      "$ai_input_state" None
  ∧ emits_field private.2 (Trace_end sample_json_text 1005 None private.1 private.2).1.2
      "$ai_output_state" None
  ∧ PartialTraceOptions.privacy (privacy_and_states false) = Some false
  ∧ emits_field public.2 (Trace_end sample_json_text 1005 None public.1 public.2).1.2
      "$ai_input_state" (Some (VStr (sample_json_text (VObj [("q", VStr "secret")])))).
Proof.
  intros t private public.
  destruct (privacy_after_update sample_json_text (privacy_and_states true) t server_process
              1005 None) as (Hp & Hon & _).
  destruct (privacy_after_update sample_json_text (privacy_and_states false)
              private.1 private.2 1005 None) as (_ & _ & Hoff).
  split; [reflexivity|]. split; [reflexivity|].
  split; [reflexivity|]. split; [exact Hp|]. split; [exact (proj1 (Hon eq_refl eq_refl))|].
  split; [exact (proj2 (Hon eq_refl eq_refl))|]. split; [reflexivity|].
  exact (proj1 (Hoff eq_refl eq_refl)).
Defined.

(** A trace closed with an error and no flag emits no error; a trace in
    error closed with the empty string as error keeps and emits its
    error. *)
Lemma end_options_error_witness :
  let t := sample_Trace false None false None in
  let t' := sample_Trace false None true (Some (ErrorString "boom")) in
  let r := Trace_end sample_json_text 1005 (Some (error_end (ErrorString "late") None)) t
             server_process in
  let r' := Trace_end sample_json_text 1005 (Some (error_end (ErrorString "") None)) t'
              server_process in
  has_client server_process = true
  ∧ Trace.isError r.1.1 = false
  ∧ Trace.error r.1.1 = Some (ErrorString "late")
  ∧ emits_field server_process r.1.2 "$ai_error" None
  ∧ JsError_truthy (ErrorString "") = false
  ∧ Trace.error r'.1.1 = Some (ErrorString "boom")
  ∧ emits_field server_process r'.1.2 "$ai_error" (Some (VStr "boom")).
Proof.
  intros t t' r r'.
  destruct (end_options_error sample_json_text) as (HT & _ & _ & _ & Hfalsy & _).
  destruct (HT 1005 (Some (error_end (ErrorString "late") None)) t server_process)
    as (Hi & He & Hm).
  destruct (HT 1005 (Some (error_end (ErrorString "") None)) t' server_process)
    as (_ & He' & Hm').
  split; [reflexivity|].
  split; [exact Hi|]. split; [exact He|]. split; [exact (Hm eq_refl)|].
  split; [reflexivity|]. split; [|exact (Hm' eq_refl)].
  unfold r'. rewrite He'. exact (Hfalsy (ErrorString "") _ eq_refl).
Defined.

(** The sample session captures three messages on a process without
    [window] whose environment gives an API key, in the order of the
    closing calls; none on a page, and none on a process without key. *)
Lemma session_events_witness :
  let t := sample_Trace false None false None in
  let σ := run sample_json_text sample_calls (session_of t server_process) in
  let σ' := run sample_json_text sample_calls (session_of t browser_page) in
  let σ'' := run sample_json_text sample_calls (session_of t node_process) in
  CaptureMessage.event <$> emitted server_process (Session.world σ)
  = ["$ai_span"; "$ai_generation"; "$ai_trace"]
  ∧ CaptureMessage.event <$> emitted browser_page (Session.world σ') = []
  ∧ CaptureMessage.event <$> emitted node_process (Session.world σ'') = [].
Proof.
  intros t σ σ' σ''. split; [|split].
  - exact (proj2 (session_events sample_json_text sample_calls (session_of t server_process))).
  - exact (proj2 (session_events sample_json_text sample_calls (session_of t browser_page))).
  - exact (proj2 (session_events sample_json_text sample_calls (session_of t node_process))).
Defined.
